(** * The measured-workload launcher and the TPM quote verifier

    A shallow embedding of [launcher/container_runner.go] (package
    [launcher]) and of the quote verifier (package [internal]) of
    go-tpm-tools, with the properties of the specification stated and
    settled against it.

    Conventions.
    - Go strings and byte slices are [string]s (sequences of bytes).
    - A Go function talks to its collaborators (containerd, the attestation
      agent, the file system, the clock, ...) through calls; every call is
      recorded in a chronological [History] and the collaborator's reply is
      read from an explicit record of answers, so that a theorem quantified
      over the answers covers every behaviour of the environment.
    - [time.Time] and [time.Duration] are integers (nanoseconds), [float64] is
      the binary64 type of the kernel. *)

From Stdlib Require Import ZArith List String Ascii Bool Lia Floats Reals Lra.
From Stdlib Require Uint63.
Import ListNotations.

Set Warnings "-inexact-float".
Local Open Scope string_scope.
Local Open Scope list_scope.
Local Open Scope Z_scope.

(** * Errors and outcomes *)

(** Go [error] values, by the way the code builds them. [Errorf_v] is
    [fmt.Errorf] with the cause formatted by [%v] (the cause is flattened
    into text), [Errorf_w] with [%w] (the cause stays reachable by
    [errors.Unwrap]). [foreign] is an error made by a collaborator. *)
Inductive error : Type :=
| errors_New (msg : string)
| Errorf_v (format : string) (cause : error)
| Errorf_w (format : string) (cause : error)
| Errorf_dd (format : string) (a b : nat)
| Errorf_s (format : string) (arg : string)
| RetryableError (Err : error)
| WorkloadError (ReturnCode : Z)
| foreign (msg : string).

(** The type test the supervisor applies: is the returned error a
    [*RetryableError]? *)
Definition is_RetryableError (e : error) : bool :=
  match e with RetryableError _ => true | _ => false end.

(** [errors.As(err, *RetryableError)]: also looks through [%w] wrappers. *)
Fixpoint as_RetryableError (e : error) : bool :=
  match e with
  | RetryableError _ => true
  | Errorf_w _ c => as_RetryableError c
  | _ => false
  end.

(** A Go pair [(T, error)]. *)
Inductive result (A : Type) : Type :=
| Ok (a : A)
| Err (e : error).
Arguments Ok {A} a.
Arguments Err {A} e.

(** How the evaluation of a function body ends: it returns a value, returns
    early with an error, panics in the running goroutine, the whole process
    dies (a panic in another goroutine), or it blocks for ever. *)
Inductive res (A : Type) : Type :=
| Ret (a : A)
| Fail (e : error)
| Panic
| Crash
| Blocked.
Arguments Ret {A} a.
Arguments Fail {A} e.
Arguments Panic {A}.
Arguments Crash {A}.
Arguments Blocked {A}.

(** * binary64 arithmetic and [getNextRefreshFromExpiration] *)

Module Refresh.

(** [float64(x)] for an [int64] [x]: round to nearest, ties to even. The
    kernel converts unsigned 63-bit integers; a negative [x] is converted
    through its magnitude (rounding is symmetric), and [-2^63], whose
    magnitude does not fit, is a power of two and exact. *)
Definition float64_of_int64 (x : Z) : float :=
  if 0 <=? x then of_uint63 (Uint63.of_Z x)
  else if x =? - 2 ^ 63 then (-0x1p63)%float
  else (- of_uint63 (Uint63.of_Z (- x)))%float.

(** The integer part of a finite binary64 number. *)
Definition SFtrunc (f : spec_float) : option Z :=
  match f with
  | S754_zero _ => Some 0
  | S754_finite s m e =>
      let a := match e with
               | Zneg p => Z.pos m / 2 ^ Z.pos p
               | _ => Z.pos m * 2 ^ e
               end in
      Some (if s then - a else a)
  | _ => None
  end.

(** [int64(f)] for a [float64] [f]: truncation toward zero. Go leaves the
    result open when the value does not fit; amd64 then yields the
    "integer indefinite" value [-2^63]. *)
Definition int64_of_float64 (f : float) : Z :=
  match SFtrunc (Prim2SF f) with
  | Some v => if (- 2 ^ 63 <=? v) && (v <? 2 ^ 63) then v else - 2 ^ 63
  | None => - 2 ^ 63
  end.

Definition defaultRefreshMultiplier : float := 0.8%float.
Definition defaultRefreshJitter : float := 0.1%float.

(** Every operation is rounded on its own (no fused multiply-add), as the
    compiler does on amd64. *)
Definition getNextRefreshFromExpiration (expiration : Z) (random : float) : Z :=
  let diff := (defaultRefreshJitter * float64_of_int64 expiration)%float in
  let center := (defaultRefreshMultiplier * float64_of_int64 expiration)%float in
  let minRange := (center - diff)%float in
  int64_of_float64 (minRange + random * 2 * diff)%float.

(** [rand.Float64] yields a number in the half-open interval [[0, 1)]. *)
Definition unit_interval (r : float) : Prop :=
  (0 <=? r)%float = true /\ (r <? 1)%float = true.

(** ** Real values of binary64 numbers *)

Local Abbreviation fexp64 := (fexp prec emax).

(** [2^e] as a real number, for any integer [e]. *)
Definition bpow (e : Z) : R := powerRZ 2 e.

(** The real number a finite binary64 number stands for. *)
Definition F2R (m : positive) (e : Z) : R := (IZR (Z.pos m) * bpow e)%R.

(** [represents f v]: [f] is a zero or a positive finite number, of value [v]. *)
Definition represents (f : spec_float) (v : R) : Prop :=
  match f with
  | S754_zero _ => v = 0%R
  | S754_finite false m e => v = F2R m e
  | _ => False
  end.

(** The same for a [float64] of the kernel. *)
Definition repr (x : float) (v : R) : Prop := represents (Prim2SF x) v.

(** A finite number is canonical when its exponent is the one its number of
    digits calls for. *)
Definition canonical (f : spec_float) : Prop :=
  match f with
  | S754_finite _ m e => fexp64 (Z.pos (digits2_pos m) + e) = e
  | _ => True
  end.

(** A bound on the relative error of one rounding to 53 digits (one unit in
    the last place, which is all that is needed below), and the spacing of
    the subnormal numbers. *)
Definition eps : R := bpow (-52).
Definition eta : R := bpow (-1074).

(** One rounding: a relative error of at most [eps], or an absolute error of
    at most [eta] where the result is subnormal. *)
Definition near (v v' : R) : Prop :=
  (v * (1 - eps) - eta <= v' <= v * (1 + eps) + eta)%R.

(** C2 is false as it stands: the conversion to [time.Duration] drops the
    fraction, so that the delay falls below [0.7 * L] (for a lifetime of
    1 ns or of one nanosecond less than an hour, with [r = 0]), and for
    very long lifetimes the rounding of the binary64 operations lets it
    exceed [0.9 * L] (for the longest lifetime, with [r] the largest
    number below 1). *)
Lemma delay_leaves_the_interval :
  unit_interval 0 /\
  getNextRefreshFromExpiration 1 0 = 0 /\
  10 * getNextRefreshFromExpiration 1 0 < 7 * 1 /\
  getNextRefreshFromExpiration 3599999999999 0 = 2519999999999 /\
  10 * getNextRefreshFromExpiration 3599999999999 0 < 7 * 3599999999999 /\
  unit_interval 0x1.fffffffffffffp-1 /\
  getNextRefreshFromExpiration (2 ^ 63 - 1) 0x1.fffffffffffffp-1 = 8301034833169298432 /\
  9 * (2 ^ 63 - 1) < 10 * getNextRefreshFromExpiration (2 ^ 63 - 1) 0x1.fffffffffffffp-1.
Proof. unfold unit_interval. vm_compute. repeat split; reflexivity. Qed.

(** ** Rounding to binary64, on integers *)

(** [digits2_pos p] is the number of binary digits of [p]. *)
Lemma digits2_pos_bounds p :
  2 ^ (Z.pos (digits2_pos p) - 1) <= Z.pos p < 2 ^ Z.pos (digits2_pos p).
Proof.
  induction p as [p IH|p IH|]; simpl digits2_pos.
  - rewrite Pos2Z.inj_succ. replace (Z.succ (Z.pos (digits2_pos p)) - 1) with (Z.pos (digits2_pos p)) by lia.
    rewrite Z.pow_succ_r by lia.
    replace (2 ^ Z.pos (digits2_pos p)) with (2 * 2 ^ (Z.pos (digits2_pos p) - 1)) in *
      by (rewrite <- Z.pow_succ_r by lia; f_equal; lia).
    lia.
  - rewrite Pos2Z.inj_succ. replace (Z.succ (Z.pos (digits2_pos p)) - 1) with (Z.pos (digits2_pos p)) by lia.
    rewrite Z.pow_succ_r by lia.
    replace (2 ^ Z.pos (digits2_pos p)) with (2 * 2 ^ (Z.pos (digits2_pos p) - 1)) in *
      by (rewrite <- Z.pow_succ_r by lia; f_equal; lia).
    lia.
  - simpl. lia.
Qed.

(** The number of binary digits of a positive number is the only [k] with
    [2^(k-1) <= z < 2^k]. *)
Lemma digits2_pos_unique p k :
  2 ^ (k - 1) <= Z.pos p < 2 ^ k -> Z.pos (digits2_pos p) = k.
Proof.
  intros [Hlo Hhi]. pose proof (digits2_pos_bounds p) as [Hlo' Hhi'].
  assert (0 < k).
  { destruct (Z.lt_ge_cases 0 k) as [|Hk]; auto.
    assert (2 ^ k <= 2 ^ 0) by (apply Z.pow_le_mono_r; lia). simpl in *. lia. }
  assert (Z.pos (digits2_pos p) - 1 < k).
  { apply (Z.pow_lt_mono_r_iff 2); lia. }
  assert (k - 1 < Z.pos (digits2_pos p)).
  { apply (Z.pow_lt_mono_r_iff 2); lia. }
  lia.
Qed.

Lemma digits2_pos_le p k : 0 <= k -> Z.pos p < 2 ^ k -> Z.pos (digits2_pos p) <= k.
Proof.
  intros Hk Hhi. pose proof (digits2_pos_bounds p) as [Hlo' _].
  assert (Z.pos (digits2_pos p) - 1 < k) by (apply (Z.pow_lt_mono_r_iff 2); lia).
  lia.
Qed.

Lemma pow2_xO p : 2 ^ Z.pos p~0 = 2 ^ Z.pos p * 2 ^ Z.pos p.
Proof. rewrite <- Z.pow_add_r by lia. f_equal. lia. Qed.

Lemma pow2_xI p : 2 ^ Z.pos p~1 = 2 * (2 ^ Z.pos p * 2 ^ Z.pos p).
Proof.
  rewrite <- Z.pow_add_r, <- Z.pow_succ_r by lia. f_equal. lia.
Qed.

Lemma shr_1_m mrs : 0 <= shr_m mrs -> shr_m (shr_1 mrs) = shr_m mrs / 2.
Proof.
  destruct mrs as [m r s]. simpl. intros Hm.
  destruct m as [|[p|p|]|p]; try lia; simpl; rewrite <- Z.div2_div; reflexivity.
Qed.

(** Shifting right [p] times divides the mantissa by [2^p]. *)
Lemma iter_shr_1_m p mrs :
  0 <= shr_m mrs -> shr_m (SpecFloat.iter_pos shr_1 p mrs) = shr_m mrs / 2 ^ Z.pos p.
Proof.
  revert mrs. induction p as [p IH|p IH|]; intros mrs Hm; simpl SpecFloat.iter_pos.
  - assert (Hp : 0 < 2 ^ Z.pos p) by (apply Z.pow_pos_nonneg; lia).
    assert (H1 : 0 <= shr_m (shr_1 mrs)) by (rewrite shr_1_m by lia; apply Z.div_pos; lia).
    assert (H2 : 0 <= shr_m (SpecFloat.iter_pos shr_1 p (shr_1 mrs)))
      by (rewrite IH by lia; apply Z.div_pos; lia).
    rewrite IH, IH, shr_1_m by lia.
    rewrite !Z.div_div by lia.
    f_equal. symmetry. apply pow2_xI.
  - assert (Hp : 0 < 2 ^ Z.pos p) by (apply Z.pow_pos_nonneg; lia).
    assert (H2 : 0 <= shr_m (SpecFloat.iter_pos shr_1 p mrs))
      by (rewrite IH by lia; apply Z.div_pos; lia).
    rewrite IH, IH by lia.
    rewrite !Z.div_div by lia.
    f_equal. symmetry. apply pow2_xO.
  - rewrite shr_1_m by lia. reflexivity.
Qed.

Lemma shr_m_of_loc m l : shr_m (shr_record_of_loc m l) = m.
Proof. destruct l as [|[]]; reflexivity. Qed.

Lemma round_nearest_even_cases m l :
  round_nearest_even m l = m \/ round_nearest_even m l = m + 1.
Proof.
  destruct l as [|[]]; simpl; auto. destruct (Z.even m); auto.
Qed.

Lemma fexp64_eq e : fexp64 e = Z.max (e - 53) (-1074).
Proof. reflexivity. Qed.

(** A shift to the right by the number of digits in excess. *)
Lemma shr_fexp_spec m e l :
  0 <= m ->
  let n := fexp64 (Zdigits2 m + e) - e in
  (n <= 0 /\ shr_fexp prec emax m e l = (shr_record_of_loc m l, e)) \/
  (0 < n /\ exists mrs, shr_fexp prec emax m e l = (mrs, e + n) /\ shr_m mrs = m / 2 ^ n).
Proof.
  intros Hm n. unfold shr_fexp, shr. fold n.
  destruct n as [|p|p] eqn:Hn.
  - left. split; [lia | reflexivity].
  - right. split; [lia | ]. eexists. split; [reflexivity | ].
    rewrite iter_shr_1_m by (rewrite shr_m_of_loc; exact Hm).
    rewrite shr_m_of_loc. reflexivity.
  - left. split; [lia | reflexivity].
Qed.

Lemma fexp64_cases e :
  (e - 53 <= -1074 /\ fexp64 e = -1074) \/ (-1074 <= e - 53 /\ fexp64 e = e - 53).
Proof. rewrite fexp64_eq. lia. Qed.

(** The second shift of [binary_round_aux] only acts when rounding has carried
    into a 54th digit. *)
Lemma shr_fexp_second m2 e1 :
  0 <= m2 <= 2 ^ 53 -> -1074 <= e1 ->
  exists mrs E, shr_fexp prec emax m2 e1 loc_Exact = (mrs, E) /\
                e1 <= E <= e1 + 1 /\ shr_m mrs * 2 ^ (E - e1) = m2.
Proof.
  intros Hm He.
  destruct (shr_fexp_spec m2 e1 loc_Exact) as [[Hn Heq]|[Hn [mrs [Heq Hmrs]]]]; [lia| | ].
  - eexists _, _. split; [exact Heq|]. split; [lia|].
    simpl shr_m. rewrite Z.sub_diag. simpl. lia.
  - destruct m2 as [|p|p]; [ | | lia].
    + simpl Zdigits2 in Hn. destruct (fexp64_cases (0 + e1)); lia.
    + simpl Zdigits2 in *.
      assert (Hd : Z.pos (digits2_pos p) <= 54).
      { apply digits2_pos_le; [lia|]. change (2 ^ 54) with (2 * 2 ^ 53). lia. }
      pose proof (digits2_pos_bounds p) as [Hlo _].
      destruct (fexp64_cases (Z.pos (digits2_pos p) + e1)) as [[? Hf]|[? Hf]];
        rewrite Hf in *; [lia|].
      assert (Hd' : Z.pos (digits2_pos p) = 54) by lia.
      rewrite Hd' in *. change (2 ^ (54 - 1)) with (2 ^ 53) in Hlo.
      assert (Hp : Z.pos p = 2 ^ 53) by lia.
      eexists _, _. split; [exact Heq|]. split; [lia|].
      rewrite Hmrs, Hp.
      replace (54 + e1 - 53 - e1) with 1 by lia.
      replace (e1 + 1 - e1) with 1 by lia.
      reflexivity.
Qed.

(** What [binary_round_aux] returns for an exact positive input whose exponent
    is not above the target exponent: one of the two neighbours of the input
    on the grid of the target exponent. *)
Lemma binary_round_aux_spec s m e :
  let e1 := fexp64 (Z.pos (digits2_pos m) + e) in
  e <= e1 -> Z.pos (digits2_pos m) + e <= 1023 ->
  exists M, (M = Z.pos m / 2 ^ (e1 - e) \/ M = Z.pos m / 2 ^ (e1 - e) + 1) /\
    ((M = 0 /\ binary_round_aux prec emax s (Z.pos m) e loc_Exact = S754_zero s) \/
     (exists M' E', binary_round_aux prec emax s (Z.pos m) e loc_Exact = S754_finite s M' E' /\
                    e1 <= E' /\ Z.pos M' * 2 ^ (E' - e1) = M)).
Proof.
  intros e1 He Hd.
  assert (He1 : -1074 <= e1 <= 970).
  { unfold e1. destruct (fexp64_cases (Z.pos (digits2_pos m) + e)); lia. }
  assert (Hn0 : 0 < 2 ^ (e1 - e)) by (apply Z.pow_pos_nonneg; lia).
  assert (Hm1 : 0 <= Z.pos m / 2 ^ (e1 - e) < 2 ^ 53).
  { split; [apply Z.div_pos; lia|].
    apply Z.div_lt_upper_bound; [lia|].
    rewrite <- Z.pow_add_r by lia.
    pose proof (digits2_pos_bounds m) as [_ Hhi].
    eapply Z.lt_le_trans; [exact Hhi|].
    apply Z.pow_le_mono_r; [lia|].
    unfold e1. destruct (fexp64_cases (Z.pos (digits2_pos m) + e)); lia. }
  assert (Hfirst : exists mrs, shr_fexp prec emax (Z.pos m) e loc_Exact = (mrs, e1) /\
                               shr_m mrs = Z.pos m / 2 ^ (e1 - e)).
  { destruct (shr_fexp_spec (Z.pos m) e loc_Exact) as [[Hn Heq]|[Hn [mrs [Heq Hmrs]]]]; [lia| | ].
    - simpl Zdigits2 in Hn. fold e1 in Hn. assert (e1 = e) by lia.
      exists (shr_record_of_loc (Z.pos m) loc_Exact). split.
      + rewrite Heq. f_equal. lia.
      + simpl. replace (e1 - e) with 0 by lia. simpl. rewrite Z.div_1_r. reflexivity.
    - simpl Zdigits2 in *. fold e1 in Hn, Heq, Hmrs.
      exists mrs. split; [rewrite Heq; f_equal; lia | exact Hmrs]. }
  destruct Hfirst as [mrs [Heq Hmrs]].
  unfold binary_round_aux. rewrite Heq.
  set (m2 := round_nearest_even (shr_m mrs) (loc_of_shr_record mrs)).
  assert (Hm2 : m2 = Z.pos m / 2 ^ (e1 - e) \/ m2 = Z.pos m / 2 ^ (e1 - e) + 1).
  { unfold m2. rewrite <- Hmrs. apply round_nearest_even_cases. }
  destruct (shr_fexp_second m2 e1) as [mrs' [E [Heq' [HE Hval]]]]; [lia|lia|].
  rewrite Heq'. exists m2. split; [exact Hm2|].
  assert (HE' : 0 < 2 ^ (E - e1)) by (apply Z.pow_pos_nonneg; lia).
  destruct (shr_m mrs') as [|p|p] eqn:Hp.
  - left. split; [lia|reflexivity].
  - right. exists p, E. split; [ | split; [lia|exact Hval]].
    replace (E <=? emax - prec) with true; [reflexivity|].
    symmetry. apply Z.leb_le. change (emax - prec) with 971. lia.
  - lia.
Qed.

(** ** One rounding, on real numbers *)

Lemma bpow_pos e : (0 < bpow e)%R.
Proof. apply powerRZ_lt. lra. Qed.

Lemma bpow_add a b : bpow (a + b) = (bpow a * bpow b)%R.
Proof. apply powerRZ_add. lra. Qed.

Lemma bpow_IZR n : 0 <= n -> bpow n = IZR (2 ^ n).
Proof.
  intros Hn. unfold bpow. rewrite <- (Z2Nat.id n Hn).
  rewrite <- pow_powerRZ, <- pow_IZR. reflexivity.
Qed.

Lemma bpow_le a b : a <= b -> (bpow a <= bpow b)%R.
Proof.
  intros H. replace b with (a + (b - a)) by lia. rewrite bpow_add.
  assert (H1 : (1 <= bpow (b - a))%R).
  { rewrite bpow_IZR by lia. apply IZR_le.
    assert (0 < 2 ^ (b - a)) by (apply Z.pow_pos_nonneg; lia). lia. }
  pose proof (bpow_pos a). nra.
Qed.

Lemma bpow_lt a b : a < b -> (bpow a < bpow b)%R.
Proof.
  intros H. replace b with (a + (b - a)) by lia. rewrite bpow_add.
  assert (H1 : (2 <= bpow (b - a))%R).
  { rewrite bpow_IZR by lia. apply IZR_le.
    replace (b - a) with (Z.succ (b - a - 1)) by lia.
    rewrite Z.pow_succ_r by lia.
    assert (0 < 2 ^ (b - a - 1)) by (apply Z.pow_pos_nonneg; lia). lia. }
  pose proof (bpow_pos a). nra.
Qed.

Lemma bpow_lt_inv a b : (bpow a < bpow b)%R -> a < b.
Proof.
  intros H. destruct (Z.lt_ge_cases a b) as [|Hge]; [assumption|].
  apply bpow_le in Hge. lra.
Qed.

Lemma bpow_0 : bpow 0 = 1%R.
Proof. reflexivity. Qed.

Lemma F2R_pos m e : (0 < F2R m e)%R.
Proof.
  unfold F2R. apply Rmult_lt_0_compat; [apply IZR_lt; lia | apply bpow_pos].
Qed.

Lemma represents_nonneg f v : represents f v -> (0 <= v)%R.
Proof.
  destruct f as [s| | |[] m e]; simpl; intros H; try contradiction; subst; try lra.
  pose proof (F2R_pos m e). lra.
Qed.

Lemma eps_pos : (0 < eps)%R.
Proof. apply bpow_pos. Qed.

Lemma eta_pos : (0 < eta)%R.
Proof. apply bpow_pos. Qed.

Lemma near_refl v : (0 <= v)%R -> near v v.
Proof.
  intros H. pose proof eps_pos. pose proof eta_pos. unfold near. split; nra.
Qed.

Lemma F2R_digits m e : (bpow (Z.pos (digits2_pos m) - 1 + e) <= F2R m e < bpow (Z.pos (digits2_pos m) + e))%R.
Proof.
  pose proof (digits2_pos_bounds m) as [Hlo Hhi].
  unfold F2R. rewrite !bpow_add. pose proof (bpow_pos e).
  rewrite (bpow_IZR (Z.pos (digits2_pos m) - 1)), (bpow_IZR (Z.pos (digits2_pos m))) by lia.
  apply IZR_le in Hlo. apply IZR_lt in Hhi. split; nra.
Qed.

(** One rounding of an exact positive number that does not overflow. *)
Lemma binary_round_aux_R m e :
  e <= fexp64 (Z.pos (digits2_pos m) + e) ->
  (F2R m e < bpow 1023)%R ->
  exists v, represents (binary_round_aux prec emax false (Z.pos m) e loc_Exact) v /\
            near (F2R m e) v.
Proof.
  intros He Hv.
  pose proof (F2R_digits m e) as [Hlo Hhi].
  assert (Hd : Z.pos (digits2_pos m) + e <= 1023).
  { assert (Z.pos (digits2_pos m) - 1 + e < 1023) by (apply bpow_lt_inv; lra). lia. }
  destruct (binary_round_aux_spec false m e He Hd) as [M [HM Hres]].
  set (e1 := fexp64 (Z.pos (digits2_pos m) + e)) in *.
  exists (IZR M * bpow e1)%R. split.
  - destruct Hres as [[HM0 ->]|[M' [E' [-> [HE HM']]]]]; simpl.
    + subst M. lra.
    + unfold F2R. rewrite <- HM'. rewrite mult_IZR, <- bpow_IZR by lia.
      rewrite Rmult_assoc, <- bpow_add. do 2 f_equal. lia.
  - set (n := e1 - e) in *.
    assert (Hn : 0 < 2 ^ n) by (apply Z.pow_pos_nonneg; lia).
    pose proof (Z.mul_div_le (Z.pos m) (2 ^ n) Hn) as Hq1.
    pose proof (Z.mul_succ_div_gt (Z.pos m) (2 ^ n) Hn) as Hq2.
    set (q := Z.pos m / 2 ^ n) in *.
    apply IZR_le in Hq1. apply IZR_lt in Hq2.
    rewrite mult_IZR in Hq1, Hq2. rewrite succ_IZR in Hq2.
    rewrite <- bpow_IZR in Hq1, Hq2 by lia.
    assert (He1 : bpow e1 = (bpow n * bpow e)%R) by (rewrite <- bpow_add; f_equal; lia).
    pose proof (bpow_pos e) as Hpe. pose proof (bpow_pos n) as Hpn.
    assert (Hulp : (bpow e1 <= F2R m e * eps + eta)%R).
    { pose proof (F2R_pos m e). pose proof eps_pos. pose proof eta_pos.
      unfold e1 at 1. destruct (fexp64_cases (Z.pos (digits2_pos m) + e)) as [[_ ->]|[_ ->]].
      - fold eta. nra.
      - replace (Z.pos (digits2_pos m) + e - 53) with ((Z.pos (digits2_pos m) - 1 + e) + (-52)) by lia.
        rewrite bpow_add. fold eps. nra. }
    assert (Hbox : (IZR q * bpow e1 <= F2R m e < (IZR q + 1) * bpow e1)%R).
    { unfold F2R. rewrite He1. split; nra. }
    unfold near. destruct HM as [-> | ->]; [ | rewrite plus_IZR ]; split; nra.
Qed.

Lemma iter_xO m d : Z.pos (Pos.iter xO m d) = Z.pos m * 2 ^ Z.pos d.
Proof.
  induction d as [|d IH] using Pos.peano_ind.
  - simpl. lia.
  - rewrite Pos.iter_succ, Pos2Z.inj_xO, IH, Pos2Z.inj_succ, Z.pow_succ_r by lia. lia.
Qed.

Lemma shl_align_spec m e e' :
  e' <= e ->
  Z.pos (fst (shl_align m e e')) = Z.pos m * 2 ^ (e - e') /\ snd (shl_align m e e') = e'.
Proof.
  intros H. unfold shl_align. destruct (e' - e) as [|d|d] eqn:Hd; cbn [fst snd].
  - replace (e - e') with 0 by lia. rewrite Z.pow_0_r. lia.
  - lia.
  - rewrite iter_xO. replace (e - e') with (Z.pos d) by lia. lia.
Qed.

Lemma shl_align_F2R m e e' :
  e' <= e -> F2R (fst (shl_align m e e')) e' = F2R m e.
Proof.
  intros H. destruct (shl_align_spec m e e' H) as [Hm _].
  unfold F2R. rewrite Hm, mult_IZR, <- bpow_IZR by lia.
  rewrite Rmult_assoc, <- bpow_add. do 2 f_equal. lia.
Qed.

Lemma shl_align_above m e e' : e <= e' -> shl_align m e e' = (m, e).
Proof.
  intros H. unfold shl_align. destruct (e' - e) eqn:Hd; try reflexivity; lia.
Qed.

Lemma digits2_pos_shift m k :
  0 <= k -> forall m', Z.pos m' = Z.pos m * 2 ^ k ->
  Z.pos (digits2_pos m') = Z.pos (digits2_pos m) + k.
Proof.
  intros Hk m' Hm'. apply digits2_pos_unique. rewrite Hm'.
  pose proof (digits2_pos_bounds m) as [Hlo Hhi].
  assert (0 < 2 ^ k) by (apply Z.pow_pos_nonneg; lia).
  replace (Z.pos (digits2_pos m) + k - 1) with (Z.pos (digits2_pos m) - 1 + k) by lia.
  rewrite !Z.pow_add_r by lia. nia.
Qed.

(** [binary_round] first aligns the mantissa, then rounds. *)
Lemma binary_round_R m e :
  (F2R m e < bpow 1023)%R ->
  exists v, represents (binary_round prec emax false m e) v /\ near (F2R m e) v.
Proof.
  intros Hv. unfold binary_round.
  set (e1 := fexp prec emax (Z.pos (digits2_pos m) + e)).
  destruct (Z.le_gt_cases e e1) as [Hle|Hgt].
  - rewrite shl_align_above by exact Hle. apply binary_round_aux_R; assumption.
  - destruct (shl_align_spec m e e1) as [Hm He]; [lia|].
    pose proof (shl_align_F2R m e e1) as HF.
    destruct (shl_align m e e1) as [mz ez]. simpl in Hm, He, HF. subst ez.
    rewrite <- HF in * by lia.
    apply binary_round_aux_R; [ | assumption].
    rewrite (digits2_pos_shift m (e - e1)) by (lia || assumption).
    replace (Z.pos (digits2_pos m) + (e - e1) + e1) with (Z.pos (digits2_pos m) + e) by lia.
    fold e1. lia.
Qed.

Lemma valid_canonical f : SpecFloat.valid_binary prec emax f = true -> canonical f.
Proof.
  destruct f as [| | |s m e]; simpl; auto.
  unfold SpecFloat.bounded, canonical_mantissa. intros H.
  apply andb_prop in H as [H _]. apply Z.eqb_eq in H. exact H.
Qed.

Lemma digits2_pos_mul mx my :
  Z.pos (digits2_pos mx) + Z.pos (digits2_pos my) - 1 <= Z.pos (digits2_pos (mx * my)).
Proof.
  pose proof (digits2_pos_bounds mx) as [Hx _].
  pose proof (digits2_pos_bounds my) as [Hy _].
  pose proof (digits2_pos_bounds (mx * my)) as [_ Hxy].
  rewrite Pos2Z.inj_mul in Hxy.
  assert (H : 2 ^ (Z.pos (digits2_pos mx) - 1 + (Z.pos (digits2_pos my) - 1))
              < 2 ^ Z.pos (digits2_pos (mx * my))).
  { rewrite Z.pow_add_r by lia.
    assert (0 < 2 ^ (Z.pos (digits2_pos mx) - 1)) by (apply Z.pow_pos_nonneg; lia).
    assert (0 < 2 ^ (Z.pos (digits2_pos my) - 1)) by (apply Z.pow_pos_nonneg; lia).
    nia. }
  apply Z.pow_lt_mono_r_iff in H; lia.
Qed.

(** The product of two canonical non-negative numbers is the rounded real
    product. *)
Lemma SFmul_R x y vx vy :
  canonical x -> canonical y -> represents x vx -> represents y vy ->
  (vx * vy < bpow 1023)%R ->
  exists v, represents (SFmul prec emax x y) v /\ near (vx * vy) v.
Proof.
  intros Cx Cy Hx Hy Hv.
  destruct x as [sx| | |[] mx ex]; simpl in Hx; try contradiction;
  destruct y as [sy| | |[] my ey]; simpl in Hy; try contradiction; subst.
  - exists 0%R. split; [reflexivity|]. rewrite Rmult_0_l. apply near_refl. lra.
  - exists 0%R. split; [reflexivity|]. rewrite Rmult_0_l. apply near_refl. lra.
  - exists 0%R. split; [reflexivity|]. rewrite Rmult_0_r. apply near_refl. lra.
  - assert (HF : (F2R mx ex * F2R my ey)%R = F2R (mx * my) (ex + ey)).
    { unfold F2R. rewrite Pos2Z.inj_mul, mult_IZR, bpow_add. ring. }
    rewrite HF in *. simpl SFmul.
    apply binary_round_aux_R; [ | assumption].
    unfold canonical in Cx, Cy. pose proof (digits2_pos_mul mx my).
    assert (0 < Z.pos (digits2_pos mx)) by lia.
    assert (0 < Z.pos (digits2_pos my)) by lia.
    destruct (fexp64_cases (Z.pos (digits2_pos mx) + ex));
    destruct (fexp64_cases (Z.pos (digits2_pos my) + ey));
    destruct (fexp64_cases (Z.pos (digits2_pos (mx * my)) + (ex + ey))); lia.
Qed.

(** The sum of two non-negative numbers is the rounded real sum. *)
Lemma SFadd_R x y vx vy :
  represents x vx -> represents y vy ->
  (vx + vy < bpow 1023)%R ->
  exists v, represents (SFadd prec emax x y) v /\ near (vx + vy) v.
Proof.
  intros Hx Hy Hv.
  pose proof (represents_nonneg _ _ Hx). pose proof (represents_nonneg _ _ Hy).
  destruct x as [sx| | |[] mx ex]; simpl in Hx; try contradiction;
  destruct y as [sy| | |[] my ey]; simpl in Hy; try contradiction; subst.
  - exists 0%R. split; [destruct sx, sy; reflexivity|]. rewrite Rplus_0_l. apply near_refl. lra.
  - exists (F2R my ey). split; [reflexivity|]. rewrite Rplus_0_l. apply near_refl. lra.
  - exists (F2R mx ex). split; [reflexivity|]. rewrite Rplus_0_r. apply near_refl. lra.
  - simpl SFadd. set (ez := Z.min ex ey).
    pose proof (shl_align_F2R mx ex ez ltac:(lia)) as Hx.
    pose proof (shl_align_F2R my ey ez ltac:(lia)) as Hy.
    set (ax := fst (shl_align mx ex ez)) in *. set (ay := fst (shl_align my ey ez)) in *.
    change (Z.pos ax + Z.pos ay) with (Z.pos (ax + ay)). simpl binary_normalize.
    assert (HF : (F2R mx ex + F2R my ey)%R = F2R (ax + ay) ez).
    { rewrite <- Hx, <- Hy. unfold F2R. rewrite Pos2Z.inj_add, plus_IZR. ring. }
    rewrite HF in *. apply binary_round_R. assumption.
Qed.

(** The difference of two non-negative numbers, the larger first, is the
    rounded real difference. *)
Lemma SFsub_R x y vx vy :
  represents x vx -> represents y vy ->
  (vy <= vx)%R -> (vx < bpow 1023)%R ->
  exists v, represents (SFsub prec emax x y) v /\ near (vx - vy) v.
Proof.
  intros Hx Hy Hle Hv.
  pose proof (represents_nonneg _ _ Hx). pose proof (represents_nonneg _ _ Hy).
  destruct x as [sx| | |[] mx ex]; simpl in Hx; try contradiction;
  destruct y as [sy| | |[] my ey]; simpl in Hy; try contradiction; subst.
  - exists 0%R. split; [destruct sx, sy; reflexivity|]. rewrite Rminus_0_r. apply near_refl. lra.
  - pose proof (F2R_pos my ey). lra.
  - exists (F2R mx ex). split; [reflexivity|]. rewrite Rminus_0_r. apply near_refl. lra.
  - simpl SFsub. set (ez := Z.min ex ey).
    pose proof (shl_align_F2R mx ex ez ltac:(lia)) as Hx.
    pose proof (shl_align_F2R my ey ez ltac:(lia)) as Hy.
    set (ax := fst (shl_align mx ex ez)) in *. set (ay := fst (shl_align my ey ez)) in *.
    assert (HF : (F2R mx ex - F2R my ey)%R = (IZR (Z.pos ax - Z.pos ay) * bpow ez)%R).
    { rewrite <- Hx, <- Hy. unfold F2R. rewrite minus_IZR. ring. }
    rewrite HF in *. pose proof (bpow_pos ez).
    change (IntDef.Z.pos_sub ax ay) with (Z.pos ax - Z.pos ay).
    destruct (Z.pos ax - Z.pos ay) as [|p|p] eqn:Hp.
    + exists 0%R. split; [reflexivity|]. rewrite Rmult_0_l. apply near_refl. lra.
    + simpl binary_normalize. apply binary_round_R.
      unfold F2R. pose proof (F2R_pos my ey). lra.
    + assert (Hn : (IZR (Z.neg p) < 0)%R) by (apply IZR_lt; lia).
      rewrite <- HF in *. nra.
Qed.

(** ** The operations of [float64] *)

Lemma repr_nonneg x v : repr x v -> (0 <= v)%R.
Proof. apply represents_nonneg. Qed.

Lemma Prim2SF_canonical x : canonical (Prim2SF x).
Proof. apply valid_canonical, Prim2SF_valid. Qed.

Lemma mul_R x y vx vy :
  repr x vx -> repr y vy -> (vx * vy < bpow 1023)%R ->
  exists v, repr (x * y) v /\ near (vx * vy) v.
Proof.
  intros Hx Hy Hv. unfold repr. rewrite FloatAxioms.mul_spec.
  apply SFmul_R; auto using Prim2SF_canonical.
Qed.

Lemma add_R x y vx vy :
  repr x vx -> repr y vy -> (vx + vy < bpow 1023)%R ->
  exists v, repr (x + y) v /\ near (vx + vy) v.
Proof.
  intros Hx Hy Hv. unfold repr. rewrite FloatAxioms.add_spec.
  apply SFadd_R; auto.
Qed.

Lemma sub_R x y vx vy :
  repr x vx -> repr y vy -> (vy <= vx)%R -> (vx < bpow 1023)%R ->
  exists v, repr (x - y) v /\ near (vx - vy) v.
Proof.
  intros Hx Hy Hle Hv. unfold repr. rewrite FloatAxioms.sub_spec.
  apply SFsub_R; auto.
Qed.

(** [float64(L)] is [L] rounded once. *)
Lemma float64_of_int64_R L :
  0 < L < 2 ^ 63 ->
  exists v, repr (float64_of_int64 L) v /\ near (IZR L) v.
Proof.
  intros HL. unfold float64_of_int64, repr.
  replace (0 <=? L) with true by (symmetry; apply Z.leb_le; lia).
  rewrite of_uint63_spec, Uint63.of_Z_spec.
  rewrite Z.mod_small by (change Uint63.wB with (2 ^ 63); lia).
  destruct L as [|p|p]; try lia. simpl binary_normalize.
  replace (IZR (Z.pos p)) with (F2R p 0) by (unfold F2R; rewrite bpow_0; ring).
  apply binary_round_R. unfold F2R. rewrite bpow_0, Rmult_1_r.
  apply Rlt_trans with (bpow 63); [ | apply bpow_lt; lia].
  rewrite bpow_IZR by lia. apply IZR_lt. lia.
Qed.

Lemma compare_cont_Eq_Lt p q : Pos.compare_cont Eq p q = Lt -> Z.pos p < Z.pos q.
Proof. intros H. apply (proj1 (Pos.compare_lt_iff p q)) in H. lia. Qed.

(** A [float64] in [[0, 1)] is a zero (of either sign) or a positive finite
    number below 1. *)
Lemma unit_interval_R r :
  unit_interval r -> exists v, repr r v /\ (0 <= v < 1)%R.
Proof.
  intros [Hlo Hhi]. unfold repr.
  rewrite FloatAxioms.leb_spec in Hlo. rewrite FloatAxioms.ltb_spec in Hhi.
  pose proof (Prim2SF_canonical r) as Hc.
  change (Prim2SF 0) with (S754_zero false) in Hlo.
  change (Prim2SF 1) with (S754_finite false 4503599627370496 (-52)) in Hhi.
  destruct (Prim2SF r) as [s|s| |s m e].
  - exists 0%R. split; [reflexivity|lra].
  - destruct s; discriminate.
  - discriminate.
  - destruct s; [discriminate|].
    exists (F2R m e). split; [reflexivity|].
    pose proof (F2R_pos m e). split; [lra|].
    unfold SFltb, SFcompare in Hhi. unfold canonical in Hc.
    pose proof (F2R_digits m e) as [_ Hd].
    destruct (Z.compare_spec e (-52)) as [He|He|He].
    + subst e. destruct (Pos.compare_cont Eq m 4503599627370496) eqn:Hm; try discriminate.
      apply compare_cont_Eq_Lt in Hm.
      assert (Hm' : (IZR (Z.pos m) < bpow 52)%R).
      { rewrite bpow_IZR by lia. apply IZR_lt. change (2 ^ 52) with 4503599627370496. lia. }
      assert (Hb : (bpow 52 * bpow (-52) = 1)%R) by (rewrite <- bpow_add; apply bpow_0).
      pose proof (bpow_pos (-52)). unfold F2R. nra.
    + eapply Rlt_le_trans; [exact Hd|]. rewrite <- bpow_0. apply bpow_le.
      destruct (fexp64_cases (Z.pos (digits2_pos m) + e)); lia.
    + discriminate.
Qed.

(** The conversion to an integer is the floor of a non-negative value. *)
Lemma SFtrunc_R f v :
  represents f v ->
  exists z, SFtrunc f = Some z /\ (IZR z <= v < IZR z + 1)%R.
Proof.
  destruct f as [s| | |[] m e]; simpl represents; intros H; try contradiction; subst.
  - exists 0. split; [reflexivity|lra].
  - unfold SFtrunc, F2R. destruct e as [|p|p].
    + exists (Z.pos m * 2 ^ 0). split; [reflexivity|]. rewrite bpow_0.
      change (2 ^ 0) with 1. rewrite Z.mul_1_r. lra.
    + exists (Z.pos m * 2 ^ Z.pos p). split; [reflexivity|].
      rewrite mult_IZR, <- bpow_IZR by lia. lra.
    + exists (Z.pos m / 2 ^ Z.pos p). split; [reflexivity|].
      assert (Hp : 0 < 2 ^ Z.pos p) by (apply Z.pow_pos_nonneg; lia).
      pose proof (Z.mul_div_le (Z.pos m) _ Hp) as Hq1.
      pose proof (Z.mul_succ_div_gt (Z.pos m) _ Hp) as Hq2.
      set (q := Z.pos m / 2 ^ Z.pos p) in *.
      apply IZR_le in Hq1. apply IZR_lt in Hq2.
      rewrite mult_IZR in Hq1, Hq2. rewrite succ_IZR in Hq2.
      rewrite <- bpow_IZR in Hq1, Hq2 by lia.
      assert (Hb : (bpow (Z.pos p) * bpow (Z.neg p) = 1)%R).
      { rewrite <- bpow_add. replace (Z.pos p + Z.neg p) with 0 by lia. apply bpow_0. }
      pose proof (bpow_pos (Z.neg p)) as Hn.
      apply (Rmult_le_compat_r (bpow (Z.neg p))) in Hq1; [ | lra].
      apply (Rmult_lt_compat_r (bpow (Z.neg p))) in Hq2; [ | lra].
      replace (bpow (Z.pos p) * IZR q * bpow (Z.neg p))%R
        with (IZR q * (bpow (Z.pos p) * bpow (Z.neg p)))%R in Hq1 by ring.
      replace (bpow (Z.pos p) * (IZR q + 1) * bpow (Z.neg p))%R
        with ((IZR q + 1) * (bpow (Z.pos p) * bpow (Z.neg p)))%R in Hq2 by ring.
      rewrite Hb in Hq1, Hq2. lra.
Qed.
Lemma bpow_neg n : 0 <= n -> bpow (- n) = (/ IZR (2 ^ n))%R.
Proof.
  intros Hn. pose proof (bpow_pos n) as Hp.
  assert (H : (bpow (- n) * bpow n = 1)%R).
  { rewrite <- bpow_add. replace (- n + n) with 0 by lia. apply bpow_0. }
  rewrite <- bpow_IZR by exact Hn.
  apply Rmult_eq_reg_r with (bpow n); [ | lra].
  rewrite H, Rinv_l by lra. reflexivity.
Qed.

Lemma eps_eq : eps = (/ 4503599627370496)%R.
Proof. unfold eps. apply (bpow_neg 52). lia. Qed.

Lemma eta_le : (eta <= / 1267650600228229401496703205376)%R.
Proof.
  unfold eta. apply Rle_trans with (bpow (-100)); [apply bpow_le; lia|].
  right. apply (bpow_neg 100). lia.
Qed.

Lemma below_overflow v : (v < 1180591620717411303424)%R -> (v < bpow 1023)%R.
Proof.
  intros H. apply Rlt_trans with (bpow 70); [ | apply bpow_lt; lia].
  rewrite bpow_IZR by lia. exact H.
Qed.

Lemma repr_jitter : repr defaultRefreshJitter (7205759403792794 / 72057594037927936)%R.
Proof.
  unfold repr, defaultRefreshJitter.
  change (Prim2SF 0.1) with (S754_finite false 7205759403792794 (-56)).
  simpl represents. unfold F2R. replace (bpow (-56)) with (/ IZR (2 ^ 56))%R by (symmetry; apply (bpow_neg 56); lia). reflexivity.
Qed.

Lemma repr_multiplier : repr defaultRefreshMultiplier (7205759403792794 / 9007199254740992)%R.
Proof.
  unfold repr, defaultRefreshMultiplier.
  change (Prim2SF 0.8) with (S754_finite false 7205759403792794 (-53)).
  simpl represents. unfold F2R. replace (bpow (-53)) with (/ IZR (2 ^ 53))%R by (symmetry; apply (bpow_neg 53); lia). reflexivity.
Qed.

Lemma repr_two : repr 2 2%R.
Proof.
  unfold repr.
  change (Prim2SF 2) with (S754_finite false 4503599627370496 (-51)).
  simpl represents. unfold F2R. replace (bpow (-51)) with (/ IZR (2 ^ 51))%R by (symmetry; apply (bpow_neg 51); lia).
  change (2 ^ 51) with 2251799813685248. lra.
Qed.

(** The real number the sum [minRange + random*2*diff] stands for. *)
Lemma next_refresh_R L r :
  0 < L < 2 ^ 63 -> unit_interval r ->
  exists y,
    repr (defaultRefreshMultiplier * float64_of_int64 L
          - defaultRefreshJitter * float64_of_int64 L
          + r * 2 * (defaultRefreshJitter * float64_of_int64 L)) y /\
    (7 * IZR L - 5 / 8 * (IZR L / 70368744177664) - / 1024
     <= 10 * y <=
     9 * IZR L + 7 / 8 * (IZR L / 70368744177664) + / 1024)%R.
Proof.
  intros HL Hr.
  assert (HL1 : (1 <= IZR L)%R) by (apply IZR_le; lia).
  assert (HL2 : (IZR L < 9223372036854775808)%R) by (apply IZR_lt; change (2 ^ 63) with 9223372036854775808 in HL; lia).
  pose proof eps_eq as Heps. pose proof eta_le as Heta. pose proof eta_pos as Heta0.
  destruct (float64_of_int64_R L HL) as [x [Rx Nx]].
  destruct (unit_interval_R r Hr) as [vr [Rr Br]].
  pose proof (repr_nonneg _ _ Rx) as Px.
  unfold near in Nx. rewrite Heps in Nx.
  destruct (mul_R _ _ _ _ repr_jitter Rx) as [diff [Rdiff Ndiff]];
    [apply below_overflow; lra|].
  destruct (mul_R _ _ _ _ repr_multiplier Rx) as [center [Rcenter Ncenter]];
    [apply below_overflow; lra|].
  unfold near in Ndiff, Ncenter. rewrite Heps in Ndiff, Ncenter.
  pose proof (repr_nonneg _ _ Rdiff) as Pdiff.
  destruct (sub_R _ _ _ _ Rcenter Rdiff) as [minRange [Rmin Nmin]];
    [lra | apply below_overflow; lra | ].
  unfold near in Nmin. rewrite Heps in Nmin.
  destruct (mul_R _ _ _ _ Rr repr_two) as [t1 [Rt1 Nt1]];
    [apply below_overflow; lra|].
  unfold near in Nt1. rewrite Heps in Nt1.
  pose proof (repr_nonneg _ _ Rt1) as Pt1.
  assert (Hp : (0 <= t1 * diff <= (2 + / 1125899906842624) * diff)%R).
  { assert (t1 <= 2 + / 1125899906842624)%R by lra. split; nra. }
  set (p := (t1 * diff)%R) in *.
  destruct (mul_R _ _ _ _ Rt1 Rdiff) as [t2 [Rt2 Nt2]];
    [fold p; apply below_overflow; lra|].
  fold p in Nt2. unfold near in Nt2. rewrite Heps in Nt2.
  pose proof (repr_nonneg _ _ Rt2) as Pt2.
  pose proof (repr_nonneg _ _ Rmin) as Pmin.
  destruct (add_R _ _ _ _ Rmin Rt2) as [y [Ry Ny]];
    [apply below_overflow; lra|].
  unfold near in Ny. rewrite Heps in Ny.
  exists y. split; [exact Ry|].
  split; lra.
Qed.

Ltac push_IZR :=
  repeat (rewrite minus_IZR || rewrite plus_IZR || rewrite mult_IZR).

(** C2, amended: for every lifetime [0 < L < 2^63] (in nanoseconds) and
    every [r] in [[0, 1)], the delay [d] is an integer with [0 <= d < L],
    [0.7 * L - L / 2^46 <= d + 1] and [d <= 0.9 * L + L / 2^46] (the
    inequalities multiplied by 10, [L / 2^46] the integer quotient): the
    delay is the interval [[0.7 L, 0.9 L]] up to the truncation to whole
    nanoseconds and, for lifetimes of [2^46] ns (about 19.5 hours) and
    more, up to the rounding of the binary64 operations. *)
Theorem next_refresh_within_rounding (L : Z) (r : float) :
  0 < L < 2 ^ 63 -> unit_interval r ->
  0 <= getNextRefreshFromExpiration L r < L /\
  7 * L - L / 2 ^ 46 <= 10 * (getNextRefreshFromExpiration L r + 1) /\
  10 * getNextRefreshFromExpiration L r <= 9 * L + L / 2 ^ 46.
Proof.
  intros HL Hr.
  destruct (next_refresh_R L r HL Hr) as [y [Ry [Hlo Hhi]]].
  destruct (SFtrunc_R _ _ Ry) as [z [Hz [Hz1 Hz2]]].
  assert (Hs : 0 < 2 ^ 46) by reflexivity.
  pose proof (Z.mul_div_le L _ Hs) as Hs1.
  pose proof (Z.mul_succ_div_gt L _ Hs) as Hs2.
  assert (Hs0 : 0 <= L / 2 ^ 46) by (apply Z.div_pos; lia).
  set (s := L / 2 ^ 46) in *.
  change (2 ^ 46) with 70368744177664 in Hs1, Hs2.
  change (2 ^ 63) with 9223372036854775808 in HL.
  assert (Rs1 : (70368744177664 * IZR s <= IZR L)%R).
  { rewrite <- mult_IZR. apply IZR_le. exact Hs1. }
  assert (Rs2 : (IZR L < 70368744177664 * (IZR s + 1))%R).
  { rewrite <- succ_IZR, <- mult_IZR. apply IZR_lt. exact Hs2. }
  assert (Rs0 : (0 <= IZR s)%R) by (apply IZR_le; exact Hs0).
  assert (Hup : 10 * z < 9 * L + s + 1).
  { apply lt_IZR. push_IZR. lra. }
  assert (Hdn : 8 * (7 * L) - 5 * s - 6 < 8 * (10 * (z + 1))).
  { apply lt_IZR. push_IZR. lra. }
  assert (Hd : getNextRefreshFromExpiration L r = z).
  { unfold getNextRefreshFromExpiration, int64_of_float64. rewrite Hz.
    replace ((- 2 ^ 63 <=? z) && (z <? 2 ^ 63)) with true; [reflexivity|].
    symmetry. apply andb_true_intro. split; [apply Z.leb_le | apply Z.ltb_lt];
      change (2 ^ 63) with 9223372036854775808; lia. }
  rewrite Hd. lia.
Qed.

Lemma next_refresh_within_rounding_witness :
  0 <= getNextRefreshFromExpiration 3600000000000 0.5 < 3600000000000 /\
  7 * 3600000000000 - 3600000000000 / 2 ^ 46
    <= 10 * (getNextRefreshFromExpiration 3600000000000 0.5 + 1) /\
  10 * getNextRefreshFromExpiration 3600000000000 0.5
    <= 9 * 3600000000000 + 3600000000000 / 2 ^ 46.
Proof.
  apply (next_refresh_within_rounding 3600000000000 0.5).
  - split; reflexivity.
  - split; reflexivity.
Defined.

(** ** The delay, for the callers *)

(** The bounds of the delay for a lifetime that is positive. *)
Lemma delay_bounds (L : Z) (r : float) :
  0 < L < 2 ^ 63 -> unit_interval r ->
  0 <= getNextRefreshFromExpiration L r < L /\
  7 * L - L / 2 ^ 46 <= 10 * (getNextRefreshFromExpiration L r + 1) /\
  10 * getNextRefreshFromExpiration L r <= 9 * L + L / 2 ^ 46.
Proof.
  intros HL Hr.
  destruct (next_refresh_R L r HL Hr) as [y [Ry [Hlo Hhi]]].
  destruct (SFtrunc_R _ _ Ry) as [z [Hz [Hz1 Hz2]]].
  assert (Hs : 0 < 2 ^ 46) by reflexivity.
  pose proof (Z.mul_div_le L _ Hs) as Hs1.
  pose proof (Z.mul_succ_div_gt L _ Hs) as Hs2.
  assert (Hs0 : 0 <= L / 2 ^ 46) by (apply Z.div_pos; lia).
  set (s := L / 2 ^ 46) in *.
  change (2 ^ 46) with 70368744177664 in Hs1, Hs2.
  change (2 ^ 63) with 9223372036854775808 in HL.
  assert (Rs1 : (70368744177664 * IZR s <= IZR L)%R).
  { rewrite <- mult_IZR. apply IZR_le. exact Hs1. }
  assert (Rs2 : (IZR L < 70368744177664 * (IZR s + 1))%R).
  { rewrite <- succ_IZR, <- mult_IZR. apply IZR_lt. exact Hs2. }
  assert (Rs0 : (0 <= IZR s)%R) by (apply IZR_le; exact Hs0).
  assert (Hup : 10 * z < 9 * L + s + 1).
  { apply lt_IZR. push_IZR. lra. }
  assert (Hdn : 8 * (7 * L) - 5 * s - 6 < 8 * (10 * (z + 1))).
  { apply lt_IZR. push_IZR. lra. }
  assert (Hd : getNextRefreshFromExpiration L r = z).
  { unfold getNextRefreshFromExpiration, int64_of_float64. rewrite Hz.
    replace ((- 2 ^ 63 <=? z) && (z <? 2 ^ 63)) with true; [reflexivity|].
    symmetry. apply andb_true_intro. split; [apply Z.leb_le | apply Z.ltb_lt];
      change (2 ^ 63) with 9223372036854775808; lia. }
  rewrite Hd. lia.
Qed.

(** A lifetime of zero gives a delay of zero: the refresher's timer then
    fires at once. *)
Theorem no_lifetime_no_delay (r : float) :
  unit_interval r -> getNextRefreshFromExpiration 0 r = 0.
Proof.
  intros Hr.
  destruct (unit_interval_R r Hr) as (vr & Rr & Br).
  destruct (mul_R _ _ _ _ Rr repr_two) as (t1 & Rt1 & _).
  { apply Rlt_trans with (bpow 2); [ | apply bpow_lt; lia].
    rewrite bpow_IZR by lia. change (IZR (2 ^ 2)) with 4%R. lra. }
  unfold getNextRefreshFromExpiration, int64_of_float64.
  assert (Hx : Prim2SF (float64_of_int64 0) = S754_zero false) by reflexivity.
  assert (Hdiff : Prim2SF (defaultRefreshJitter * float64_of_int64 0) = S754_zero false).
  { rewrite FloatAxioms.mul_spec, Hx. reflexivity. }
  assert (Hcenter : Prim2SF (defaultRefreshMultiplier * float64_of_int64 0) = S754_zero false).
  { rewrite FloatAxioms.mul_spec, Hx. reflexivity. }
  assert (Hmin : Prim2SF (defaultRefreshMultiplier * float64_of_int64 0
                          - defaultRefreshJitter * float64_of_int64 0) = S754_zero false).
  { rewrite FloatAxioms.sub_spec, Hcenter, Hdiff. reflexivity. }
  assert (Ht2 : exists s, Prim2SF (r * 2 * (defaultRefreshJitter * float64_of_int64 0))
                          = S754_zero s).
  { rewrite FloatAxioms.mul_spec, Hdiff. unfold repr in Rt1.
    destruct (Prim2SF (r * 2)) as [s| | |[] m e]; simpl in Rt1; try contradiction;
      eexists; reflexivity. }
  destruct Ht2 as (s & Ht2).
  rewrite FloatAxioms.add_spec, Hmin, Ht2. destruct s; reflexivity.
Qed.

Lemma no_lifetime_no_delay_witness : getNextRefreshFromExpiration 0 0.25 = 0.
Proof. apply no_lifetime_no_delay. split; reflexivity. Defined.

End Refresh.

(** * The container runner *)

Module Launcher.

(** ** Constants of the package *)

Definition hostTokenPath : string := "/tmp/container_launcher/".
Definition containerTokenMountPath : string := "/run/container_launcher/".
Definition attestationVerifierTokenFile : string := "attestation_verifier_claims_token".
Definition containerID : string := "tee-container".
Definition snapshotID : string := "tee-snapshot".

(** [v1.MediaTypeImageConfig] and [images.MediaTypeDockerSchema2Config]. *)
Definition MediaTypeImageConfig : string := "application/vnd.oci.image.config.v1+json".
Definition MediaTypeDockerSchema2Config : string := "application/vnd.docker.container.image.v1+json".

(** ** Data *)

Record EnvVar : Type := { Name : string; Value : string }.

Record LaunchSpec : Type := {
  ImageRef : string;
  Cmd : list string;
  Envs : list EnvVar;
  RestartPolicy : string;
  ImpersonateServiceAccounts : list string;
  AttestationServiceAddr : string;
  ProjectID : string;
  Region : string;
  LogRedirect : bool
}.

(** The event types of the COS event log ([cel.CosType]). *)
Inductive CosType : Type :=
| ImageRefType | ImageDigestType | RestartPolicyType | ImageIDType
| ArgType | EnvVarType | OverrideArgType | OverrideEnvType
| LaunchSeparatorType.

Record CosTlv : Type := { EventType : CosType; EventContent : string }.

Record Descriptor : Type := {
  MediaType : string;
  Digest : string;
  Annotations : list (string * string)
}.

Record Image : Type := { image_Name : string; image_Target_Digest : string }.

Record Mount : Type := {
  Destination : string;
  mount_Type : string;
  Source : string;
  Options : list string
}.

(** The part of the OCI runtime spec the runner reads: [Process.Args] and
    [Process.Env]. *)
Record Spec : Type := { Process_Args : list string; Process_Env : list string }.

(** [specs.NetworkNamespace] of the OCI runtime spec. *)
Definition NetworkNamespace : string := "network".

(** The options of the OCI spec ([oci.SpecOpts]) that [NewRunner] gives
    to [containerd.WithNewSpec]. *)
Inductive SpecOpts : Type :=
| WithImageConfigArgs (image : Image) (args : list string)
| WithEnv (environmentVariables : list string)
| WithMounts (mounts : list Mount)
| WithHostHostsFile
| WithHostResolvconf
| WithHostNamespace (ns : string).

(** The options [NewRunner] passes to [cdClient.NewContainer]
    ([containerd.NewContainerOpts]). *)
Inductive NewContainerOpts : Type :=
| WithImage (image : Image)
| WithNewSnapshot (id : string) (image : Image)
| WithNewSpec (opts : list SpecOpts).

Record AttestationAgent : Type := {
  agent_key : string;
  agent_verifier : string;
  agent_principals : list string
}.

Record ContainerRunner : Type := {
  container : string;
  launchSpec : LaunchSpec;
  attestAgent : AttestationAgent
}.

Record RegisteredClaims : Type := { ExpiresAt : option Z }.
Definition MapClaims : Type := list (string * string).

Record ExitStatus : Type := { exit_code : Z; exit_err : option error }.

(** Modelled from the spec: the launch policy type of the package
    [launcher/spec], which is not among the sources: which operator
    overrides the image permits. *)
Record LaunchPolicy : Type := {
  AllowedCmdOverride : bool;
  AllowedEnvOverride : list string
}.

(** ** Calls *)

(** One constructor per call to a collaborator. A call carries the part of
    its reply that changes the state of the collaborator. *)
Inductive Event : Type :=
| EvLog (msg : string)
| EvPull (ref : string) (withResolver : bool)
| EvLoadContainer (id : string)
| EvContainerDelete (id : string) (deleted : bool)
| EvImageConfig
| EvReadBlob
| EvHostname
| EvNewContainer (id : string) (opts : list NewContainerOpts) (created : bool)
| EvContainerSpec
| EvContainerImage
| EvDefaultClient
| EvRestNewClient (endpoint : string)
| EvCreateAttestationAgent
| EvMeasureEvent (tlv : CosTlv) (measured : bool)
| EvMkdirAll (path : string) (perm : Z)
| EvAttest
| EvNow
| EvRand
| EvOpenFile (name : string) (perm : Z) (opened : bool)
| EvWrite (name : string) (written : string)
| EvClose (name : string)
| EvGo
| EvTimerReset (d : Z)
| EvNewTask (redirect : bool)
| EvTaskWait
| EvTaskStart
| EvTaskDelete
| EvRecv
| EvCancel.

Definition History : Type := list Event.

(** ** The monad of bodies

    A body reads the calls made before it started and yields the calls it
    makes, in order, with the way it ends. *)
Definition M (A : Type) : Type := History -> list Event * res A.

Definition ret {A} (a : A) : M A := fun _ => ([], Ret a).

Definition bind {A B} (m : M A) (f : A -> M B) : M B :=
  fun h =>
    let '(t, r) := m h in
    match r with
    | Ret a => let '(t', r') := f a (h ++ t) in (t ++ t', r')
    | Fail e => (t, Fail e)
    | Panic => (t, Panic)
    | Crash => (t, Crash)
    | Blocked => (t, Blocked)
    end.

Declare Scope go_scope.
Delimit Scope go_scope with go.
Notation "x <- m ;; k" := (bind m (fun x => k))
  (at level 61, m at next level, right associativity) : go_scope.
Notation "m ;; k" := (bind m (fun _ => k))
  (at level 61, right associativity) : go_scope.
Local Open Scope go_scope.

(** A call whose reply is not an error. *)
Definition call {A} (e : Event) (a : A) : M A := fun _ => ([e], Ret a).

(** A call that replies [(T, error)]: an error ends the body unless the
    caller catches it. *)
Definition call_result {A} (e : Event) (a : result A) : M A :=
  fun _ => ([e], match a with Ok v => Ret v | Err err => Fail err end).

(** A call that replies [error]. *)
Definition call_error (e : Event) (a : option error) : M unit :=
  fun _ => ([e], match a with None => Ret tt | Some err => Fail err end).

Definition log (msg : string) : M unit := call (EvLog msg) tt.

(** [return ..., err]. *)
Definition fail {A} (e : error) : M A := fun _ => ([], Fail e).

(** The value of a pure library function. *)
Definition pure_result {A} (a : result A) : M A :=
  fun _ => ([], match a with Ok v => Ret v | Err err => Fail err end).

Definition pure_error (a : option error) : M unit :=
  fun _ => ([], match a with None => Ret tt | Some err => Fail err end).

(** [if err != nil { return ..., wrap(err) }]. *)
Definition wrap_err {A} (wrap : error -> error) (m : M A) : M A :=
  fun h =>
    let '(t, r) := m h in
    (t, match r with Fail e => Fail (wrap e) | _ => r end).

(** [x, err := f()] with the error inspected by the caller instead of
    returned. *)
Definition catch {A} (m : M A) : M (result A) :=
  fun h =>
    let '(t, r) := m h in
    (t, match r with
        | Ret a => Ret (Ok a)
        | Fail e => Ret (Err e)
        | Panic => Panic
        | Crash => Crash
        | Blocked => Blocked
        end).

(** [defer d; body]: [d] runs when the body returns or panics; not when
    the process dies or the body never returns. The result of [d] is
    dropped. *)
Definition defer {A} (d : M unit) (body : M A) : M A :=
  fun h =>
    let '(t, r) := body h in
    match r with
    | Crash | Blocked => (t, r)
    | _ => (t ++ fst (d (h ++ t)), r)
    end.

(** Dereferencing a pointer that may be nil. *)
Definition deref {A} (p : option A) : M A :=
  fun _ => ([], match p with Some a => Ret a | None => Panic end).

(** ** Replies of the environment *)

(** The pure functions of other packages the runner calls:
    [cel.FormatEnvVar], [spec.GetLaunchPolicy], [LaunchPolicy.Verify],
    [json.Unmarshal] into [v1.Image] (its [Config.Labels]),
    [jwt.Parser.ParseUnverified] into [RegisteredClaims] and into
    [MapClaims], and [json.MarshalIndent]. *)
Record Lib : Type := {
  FormatEnvVar : string -> string -> result string;
  GetLaunchPolicy : list (string * string) -> result LaunchPolicy;
  Verify : LaunchPolicy -> LaunchSpec -> option error;
  Unmarshal_labels : string -> result (list (string * string));
  ParseRegistered : string -> result RegisteredClaims;
  ParseMap : string -> result MapClaims;
  MarshalIndent : MapClaims -> result string
}.

(** What [cdClient.NewContainer] replies: a container, or an error, possibly
    together with a non-nil container. *)
Inductive NewContainerAnswer : Type :=
| Created
| CreateFailed (leftover : bool) (e : error).

Record NewRunnerAnswers : Type := {
  token_Valid : bool;
  Pull : result Image;
  LoadContainer : option error;
  Delete_loaded : bool;
  labels_Config : result Descriptor;
  ReadBlob : result string;
  image_Config : result Descriptor;
  Hostname : result string;
  NewContainer : NewContainerAnswer;
  Delete_leftover : bool;
  new_container_Spec : result Spec;
  DefaultClient : option error;
  rest_NewClient : option error
}.

(** The replies during one [os.WriteFile]: of [OpenFile], of [Write] (on
    an error, the number of bytes that were written) and of [Close]. *)
Record WriteFileAnswers : Type := {
  OpenFile : option error;
  Write : option (nat * error);
  Close : option error
}.

(** The replies during one [refreshToken]. *)
Record RefreshAnswers : Type := {
  Attest : result string;
  Now : Z;
  WriteFile : WriteFileAnswers;
  Until_Now : Z;
  Float64 : float
}.

(** The replies during one [Run]. [MeasureEvent] may depend on the events
    measured before. [refresher k] lists the refresh attempts the background
    goroutine makes before the [k]-th later step of [Run]. *)
Record RunAnswers : Type := {
  container_Image : result Image;
  MeasureEvent : list CosTlv -> CosTlv -> option error;
  run_image_Config : result Descriptor;
  container_Spec : result Spec;
  MkdirAll : option error;
  first_refresh : RefreshAnswers;
  refresher : nat -> list RefreshAnswers;
  NewTask : option error;
  task_Wait : option error;
  task_Start : option error;
  exitStatusC : option ExitStatus
}.

(** ** State of the collaborators, read off the history *)

(** The events passed to [MeasureEvent], in order. *)
Fixpoint measured (h : History) : list CosTlv :=
  match h with
  | [] => []
  | EvMeasureEvent tlv _ :: h' => tlv :: measured h'
  | _ :: h' => measured h'
  end.

Record File : Type := { content : string; mode : Z }.

(** [OpenFile] with [O_WRONLY|O_CREATE|O_TRUNC] empties an existing file
    and keeps its mode, or creates the file with the given permission
    (the umask is taken not to clear any of its bits); [Write] appends. *)
Definition fs_step (name : string) (f : option File) (e : Event) : option File :=
  match e with
  | EvOpenFile n perm true =>
      if String.eqb n name
      then Some {| content := ""; mode := match f with Some old => mode old | None => perm end |}
      else f
  | EvWrite n w =>
      if String.eqb n name
      then option_map (fun o => {| content := (content o ++ w)%string; mode := mode o |}) f
      else f
  | _ => f
  end.

(** The file [name] after the calls of [h], from its state [f]. *)
Definition file_after (name : string) (f : option File) (h : History) : option File :=
  fold_left (fs_step name) h f.

Definition container_step (id : string) (b : bool) (e : Event) : bool :=
  match e with
  | EvNewContainer i _ true => if String.eqb i id then true else b
  | EvContainerDelete i true => if String.eqb i id then false else b
  | _ => b
  end.

(** Whether containerd holds a container [id] after the calls of [h]. *)
Definition container_exists (id : string) (b : bool) (h : History) : bool :=
  fold_left (container_step id) h b.

(** ** The functions of [container_runner.go] *)

(** [time.Until(t)], which is [t.Sub(time.Now())], for the times [t] and
    [now] in nanoseconds: their difference as a [Duration], a 64-bit
    integer. [Sub] returns the largest [Duration] ([1<<63 - 1]) or the
    smallest ([-1 << 63]) when the difference does not fit. *)
Definition time_Until (t now : Z) : Z :=
  Z.max (- 2 ^ 63) (Z.min (2 ^ 63 - 1) (t - now)).

Section Functions.

Variable L : Lib.

Definition initImage (A : NewRunnerAnswers) (lspec : LaunchSpec) : M Image :=
  if token_Valid A then
    wrap_err (Errorf_w "cannot pull the image: %w")
      (call_result (EvPull (ImageRef lspec) true) (Pull A))
  else
    wrap_err (Errorf_w "cannot pull the image (no token, only works for a public image): %w")
      (call_result (EvPull (ImageRef lspec) false) (Pull A)).

Fixpoint formatEnvVars_from (acc : list string) (envVars : list EnvVar) : result (list string) :=
  match envVars with
  | [] => Ok acc
  | envVar :: rest =>
      match FormatEnvVar L (Name envVar) (Value envVar) with
      | Err err => Err (Errorf_v "failed to format env var: %v" err)
      | Ok ociFormat => formatEnvVars_from (acc ++ [ociFormat]) rest
      end
  end.

Definition formatEnvVars (envVars : list EnvVar) : result (list string) :=
  formatEnvVars_from [] envVars.

Definition appendTokenMounts (mounts : list Mount) : list Mount :=
  mounts ++ [ {| Destination := containerTokenMountPath;
                 mount_Type := "bind";
                 Source := hostTokenPath;
                 Options := ["rbind"; "ro"] |} ].

Definition getImageLabels (A : NewRunnerAnswers) : M (list (string * string)) :=
  ic <- call_result EvImageConfig (labels_Config A) ;;
  if String.eqb (MediaType ic) MediaTypeImageConfig
     || String.eqb (MediaType ic) MediaTypeDockerSchema2Config
  then
    p <- call_result EvReadBlob (ReadBlob A) ;;
    pure_result (Unmarshal_labels L p)
  else
    fail (Errorf_s "unknown image config media type %s" (MediaType ic)).

Definition getRESTClient (A : NewRunnerAnswers) (asAddr : string) : M string :=
  wrap_err (Errorf_v "failed to create HTTP client: %v")
    (call_error EvDefaultClient (DefaultClient A)) ;;
  call_error (EvRestNewClient asAddr) (rest_NewClient A) ;;
  ret asAddr.

Definition NewRunner (A : NewRunnerAnswers) (lspec : LaunchSpec) : M ContainerRunner :=
  image <- initImage A lspec ;;
  let mounts := appendTokenMounts [] in
  envs <- pure_result (formatEnvVars (Envs lspec)) ;;
  loaded <- catch (call_error (EvLoadContainer containerID) (LoadContainer A)) ;;
  match loaded with
  | Ok _ => call (EvContainerDelete containerID (Delete_loaded A)) tt
  | Err _ => ret tt
  end ;;
  log "Operator Input Image Ref" ;;
  log "Image Digest" ;;
  log "Operator Override Env Vars" ;;
  log "Operator Override Cmd" ;;
  labels <- catch (getImageLabels A) ;;
  imageLabels <- match labels with
                 | Ok l => ret l
                 | Err _ => log "Failed to get image OCI labels" ;; ret []
                 end ;;
  log "Image Labels" ;;
  launchPolicy <- pure_result (GetLaunchPolicy L imageLabels) ;;
  pure_error (Verify L launchPolicy lspec) ;;
  imageConfig <- catch (call_result EvImageConfig (image_Config A)) ;;
  match imageConfig with
  | Err _ => log "image config error"
  | Ok _ => log "Image ID" ;; log "Image Annotations"
  end ;;
  hostname <- wrap_err (fun err => RetryableError (Errorf_w "cannot get hostname: [%w]" err))
                (call_result EvHostname (Hostname A)) ;;
  let opts := [ WithImage image;
                WithNewSnapshot snapshotID image;
                WithNewSpec [ WithImageConfigArgs image (Cmd lspec);
                              WithEnv envs;
                              WithMounts mounts;
                              WithHostHostsFile;
                              WithHostResolvconf;
                              WithHostNamespace NetworkNamespace;
                              WithEnv [("HOSTNAME=" ++ hostname)%string] ] ] in
  match NewContainer A with
  | CreateFailed leftover err =>
      call (EvNewContainer containerID opts leftover) tt ;;
      (if leftover then call (EvContainerDelete containerID (Delete_leftover A)) tt else ret tt) ;;
      fail (RetryableError (Errorf_w "failed to create a container: [%w]" err))
  | Created =>
      call (EvNewContainer containerID opts true) tt ;;
      containerSpec <- wrap_err RetryableError
                         (call_result EvContainerSpec (new_container_Spec A)) ;;
      if (List.length (Process_Args containerSpec) <=? List.length (Cmd lspec))%nat then
        fail (Errorf_dd "length of Args [%d] is shorter or equal to the length of the given Cmd [%d], maybe the Entrypoint is set to empty in the image?"
                (List.length (Process_Args containerSpec)) (List.length (Cmd lspec)))
      else
        let asAddr := AttestationServiceAddr lspec in
        verifierClient <- wrap_err (Errorf_v "failed to create REST verifier client: %v")
                            (getRESTClient A asAddr) ;;
        call EvCreateAttestationAgent tt ;;
        ret {| container := containerID;
               launchSpec := lspec;
               attestAgent := {| agent_key := "GceAttestationKeyECC";
                                 agent_verifier := verifierClient;
                                 agent_principals := ImpersonateServiceAccounts lspec |} |}
  end.

(** [r.attestAgent.MeasureEvent(tlv)]; the reply may depend on what was
    measured before. *)
Definition measureEvent (A : RunAnswers) (tlv : CosTlv) : M unit :=
  fun h =>
    let reply := MeasureEvent A (measured h) tlv in
    call_error (EvMeasureEvent tlv match reply with None => true | Some _ => false end) reply h.

(** [for _, x := range xs { if err := MeasureEvent(CosTlv{ty, x}); err != nil { return err } }] *)
Fixpoint measureEach (A : RunAnswers) (ty : CosType) (xs : list string) : M unit :=
  match xs with
  | [] => ret tt
  | x :: rest =>
      measureEvent A {| EventType := ty; EventContent := x |} ;;
      measureEach A ty rest
  end.

Definition measureContainerClaims (A : RunAnswers) (r : ContainerRunner) : M unit :=
  image <- call_result EvContainerImage (container_Image A) ;;
  measureEvent A {| EventType := ImageRefType; EventContent := image_Name image |} ;;
  measureEvent A {| EventType := ImageDigestType; EventContent := image_Target_Digest image |} ;;
  measureEvent A {| EventType := RestartPolicyType; EventContent := RestartPolicy (launchSpec r) |} ;;
  imageConfig <- catch (call_result EvImageConfig (run_image_Config A)) ;;
  match imageConfig with
  | Ok ic => measureEvent A {| EventType := ImageIDType; EventContent := Digest ic |}
  | Err _ => ret tt
  end ;;
  containerSpec <- call_result EvContainerSpec (container_Spec A) ;;
  measureEach A ArgType (Process_Args containerSpec) ;;
  measureEach A EnvVarType (Process_Env containerSpec) ;;
  envs <- pure_result (formatEnvVars (Envs (launchSpec r))) ;;
  measureEach A OverrideEnvType envs ;;
  measureEach A OverrideArgType (Cmd (launchSpec r)) ;;
  let separator := {| EventType := LaunchSeparatorType; EventContent := "" |} in
  measureEvent A separator.

(** [path.Join] of a directory and a file name without dots or doubled
    slashes: the two joined by one slash. *)
Fixpoint trim_slash (s : string) : string :=
  match s with
  | EmptyString => EmptyString
  | String c rest =>
      match trim_slash rest with
      | EmptyString => if Ascii.eqb c "/"%char then EmptyString else String c EmptyString
      | rest' => String c rest'
      end
  end.

Definition path_Join (dir file : string) : string :=
  (trim_slash dir ++ "/" ++ file)%string.

(** [os.WriteFile]: open with [O_WRONLY|O_CREATE|O_TRUNC], write, close;
    the error of the write has precedence over that of the close. *)
Definition os_WriteFile (A : WriteFileAnswers) (name data : string) (perm : Z) : M unit :=
  call_error (EvOpenFile name perm match OpenFile A with None => true | Some _ => false end)
    (OpenFile A) ;;
  call (EvWrite name match Write A with
                     | None => data
                     | Some (n, _) => substring 0 n data
                     end) tt ;;
  call (EvClose name) tt ;;
  pure_error match Write A with
             | Some (_, err) => Some err
             | None => Close A
             end.

Definition refreshToken (A : RefreshAnswers) (r : ContainerRunner) : M Z :=
  log "refreshing attestation verifier OIDC token" ;;
  token <- wrap_err (Errorf_v "failed to retrieve attestation service token: %v")
             (call_result EvAttest (Attest A)) ;;
  claims <- wrap_err (Errorf_w "failed to parse token: %w")
              (pure_result (ParseRegistered L token)) ;;
  now <- call EvNow (Now A) ;;
  expiresAt <- deref (ExpiresAt claims) ;;
  if negb (now <? expiresAt) then
    fail (errors_New "token is expired")
  else
    let filepath := path_Join hostTokenPath attestationVerifierTokenFile in
    wrap_err (Errorf_v "failed to write token to container mount source point: %v")
      (os_WriteFile (WriteFile A) filepath token 420) ;;
    mapClaims <- wrap_err (Errorf_w "failed to parse token: %w")
                   (pure_result (ParseMap L token)) ;;
    claimsString <- wrap_err (Errorf_w "failed to format claims: %w")
                      (pure_result (MarshalIndent L mapClaims)) ;;
    log claimsString ;;
    now' <- call EvNow (Until_Now A) ;;
    random <- call EvRand (Float64 A) ;;
    ret (Refresh.getNextRefreshFromExpiration (time_Until expiresAt now') random).

(** One pass of the refresher goroutine through [refreshToken]: the timer
    is reset after a success; a failure is logged and retried later; a
    panic in the goroutine ends the process. *)
Definition refresher_attempt (r : ContainerRunner) (A : RefreshAnswers) : M unit :=
  fun h =>
    let '(t, res) := refreshToken A r h in
    match res with
    | Ret d => (t ++ [EvTimerReset d], Ret tt)
    | Fail _ => (t ++ [EvLog "failed to refresh attestation service token"], Ret tt)
    | Panic | Crash => (t, Crash)
    | Blocked => (t, Blocked)
    end.

Fixpoint refresher_attempts (r : ContainerRunner) (As : list RefreshAnswers) : M unit :=
  match As with
  | [] => ret tt
  | A :: rest => refresher_attempt r A ;; refresher_attempts r rest
  end.

(** What the refresher goroutine does before the [k]-th later step of
    [Run]. *)
Definition yield (A : RunAnswers) (r : ContainerRunner) (k : nat) : M unit :=
  refresher_attempts r (refresher A k).

Definition fetchAndWriteTokenWithRetry (A : RunAnswers) (r : ContainerRunner) : M unit :=
  call_error (EvMkdirAll hostTokenPath 484) (MkdirAll A) ;;
  duration <- refreshToken (first_refresh A) r ;;
  call EvGo tt.

Definition fetchAndWriteToken (A : RunAnswers) (r : ContainerRunner) : M unit :=
  fetchAndWriteTokenWithRetry A r.

Definition Run (A : RunAnswers) (r : ContainerRunner) : M unit :=
  defer (call EvCancel tt) (
    wrap_err (Errorf_v "failed to measure container claims: %v")
      (measureContainerClaims A r) ;;
    wrap_err (Errorf_v "failed to fetch and write OIDC token: %v")
      (fetchAndWriteToken A r) ;;
    (if LogRedirect (launchSpec r)
     then log "container stdout/stderr will be redirected"
     else log "container stdout/stderr will not be redirected") ;;
    yield A r 0 ;;
    wrap_err RetryableError
      (call_error (EvNewTask (LogRedirect (launchSpec r))) (NewTask A)) ;;
    defer (call EvTaskDelete tt) (
      yield A r 1 ;;
      waited <- catch (call_error EvTaskWait (task_Wait A)) ;;
      match waited with
      | Err _ => log "task wait error"
      | Ok _ => ret tt
      end ;;
      log "workload task started" ;;
      yield A r 2 ;;
      wrap_err RetryableError (call_error EvTaskStart (task_Start A)) ;;
      yield A r 3 ;;
      match exitStatusC A with
      | None => fun _ => ([], Blocked)
      | Some status =>
          call EvRecv tt ;;
          match exit_err status with
          | Some err => fail err
          | None =>
              if negb (exit_code status =? 0) then
                log "workload task ended and returned non-zero" ;;
                fail (WorkloadError (exit_code status))
              else
                log "workload task ended and returned 0"
          end
      end)).

End Functions.

(** ** Reasoning about bodies *)

(** Every call a body makes satisfies [P], whatever happened before. *)
Definition emits {A} (P : Event -> Prop) (m : M A) : Prop :=
  forall h, Forall P (fst (m h)).

Lemma emits_ret {A} P (a : A) : emits P (ret a).
Proof. intro h. constructor. Qed.

Lemma emits_fail {A} P e : emits P (@fail A e).
Proof. intro h. constructor. Qed.

Lemma emits_pure_result {A} P (a : result A) : emits P (pure_result a).
Proof. intro h. constructor. Qed.

Lemma emits_pure_error P a : emits P (pure_error a).
Proof. intro h. constructor. Qed.

Lemma emits_deref {A} P (p : option A) : emits P (deref p).
Proof. intro h. constructor. Qed.

Lemma emits_blocked {A} P : emits P (fun _ : History => ([], @Blocked A)).
Proof. intro h. constructor. Qed.

Lemma emits_call {A} (P : Event -> Prop) e (a : A) : P e -> emits P (call e a).
Proof. intros H h. repeat constructor. exact H. Qed.

Lemma emits_call_result {A} (P : Event -> Prop) e (a : result A) :
  P e -> emits P (call_result e a).
Proof. intros H h. repeat constructor. exact H. Qed.

Lemma emits_call_error (P : Event -> Prop) e a : P e -> emits P (call_error e a).
Proof. intros H h. repeat constructor. exact H. Qed.

Lemma emits_log (P : Event -> Prop) msg : P (EvLog msg) -> emits P (log msg).
Proof. apply emits_call. Qed.

Lemma emits_bind {A B} P (m : M A) (f : A -> M B) :
  emits P m -> (forall a, emits P (f a)) -> emits P (bind m f).
Proof.
  intros Hm Hf h. unfold bind. specialize (Hm h).
  destruct (m h) as [t r]. simpl in Hm.
  destruct r; simpl; auto.
  specialize (Hf a (h ++ t)). destruct (f a (h ++ t)) as [t' r'].
  simpl in *. apply Forall_app. split; assumption.
Qed.

Lemma emits_wrap_err {A} P wrap (m : M A) : emits P m -> emits P (wrap_err wrap m).
Proof.
  intros Hm h. unfold wrap_err. specialize (Hm h).
  destruct (m h) as [t r]. exact Hm.
Qed.

Lemma emits_catch {A} P (m : M A) : emits P m -> emits P (catch m).
Proof.
  intros Hm h. unfold catch. specialize (Hm h).
  destruct (m h) as [t r]. exact Hm.
Qed.

Lemma emits_defer {A} P d (m : M A) : emits P d -> emits P m -> emits P (defer d m).
Proof.
  intros Hd Hm h. unfold defer. specialize (Hm h).
  destruct (m h) as [t r]. simpl in Hm.
  specialize (Hd (h ++ t)).
  destruct r; simpl; auto; apply Forall_app; split; assumption.
Qed.

(** Splits a goal [emits P body] along the structure of the body. *)
Ltac emits_step :=
  match goal with
  | |- emits _ (bind _ _) => apply emits_bind; [ | intro ]
  | |- emits _ (wrap_err _ _) => apply emits_wrap_err
  | |- emits _ (catch _) => apply emits_catch
  | |- emits _ (defer _ _) => apply emits_defer
  | |- emits _ (ret _) => apply emits_ret
  | |- emits _ (fail _) => apply emits_fail
  | |- emits _ (pure_result _) => apply emits_pure_result
  | |- emits _ (pure_error _) => apply emits_pure_error
  | |- emits _ (deref _) => apply emits_deref
  | |- emits _ (log _) => apply emits_log
  | |- emits _ (call _ _) => apply emits_call
  | |- emits _ (call_result _ _) => apply emits_call_result
  | |- emits _ (call_error _ _) => apply emits_call_error
  | |- emits _ (fun _ => ([], Blocked)) => apply emits_blocked
  | |- emits _ (match ?x with _ => _ end) => destruct x
  end.

Ltac emits_tac := repeat emits_step; simpl; auto.

(** Inversion of a body that returned. *)
Lemma bind_Ret {A B} (m : M A) (f : A -> M B) h t b :
  bind m f h = (t, Ret b) ->
  exists t1 a t2, m h = (t1, Ret a) /\ f a (h ++ t1) = (t2, Ret b) /\ t = t1 ++ t2.
Proof.
  unfold bind. destruct (m h) as [t1 r]. destruct r; try discriminate.
  destruct (f a (h ++ t1)) as [t2 r2] eqn:Hf. intros H. inversion H; subst.
  exists t1, a, t2. auto.
Qed.

Lemma call_result_Ret {A} e (a : result A) h t v :
  call_result e a h = (t, Ret v) -> a = Ok v /\ t = [e].
Proof. unfold call_result. destruct a; intros H; inversion H; auto. Qed.

Lemma call_error_Ret e a h t v :
  call_error e a h = (t, Ret v) -> a = None /\ t = [e].
Proof. unfold call_error. destruct a; intros H; inversion H; auto. Qed.

Lemma pure_result_Ret {A} (a : result A) h t v :
  pure_result a h = (t, Ret v) -> a = Ok v /\ t = [].
Proof. unfold pure_result. destruct a; intros H; inversion H; auto. Qed.

Lemma pure_error_Ret a h t v :
  pure_error a h = (t, Ret v) -> a = None /\ t = [].
Proof. unfold pure_error. destruct a; intros H; inversion H; auto. Qed.

Lemma wrap_err_Ret {A} wrap (m : M A) h t v :
  wrap_err wrap m h = (t, Ret v) -> m h = (t, Ret v).
Proof.
  unfold wrap_err. destruct (m h) as [t' r]. destruct r; intros H; inversion H; auto.
Qed.

(** ** Classes of calls *)

Definition is_measure (e : Event) : bool :=
  match e with EvMeasureEvent _ _ => true | _ => false end.

Definition is_task_start (e : Event) : bool :=
  match e with EvTaskStart => true | _ => false end.

Definition is_new_task (e : Event) : bool :=
  match e with EvNewTask _ => true | _ => false end.

(** A call that changes the file [name]. *)
Definition touches_file (name : string) (e : Event) : bool :=
  match e with
  | EvOpenFile n _ true => String.eqb n name
  | EvWrite n _ => String.eqb n name
  | _ => false
  end.

Definition is_container_delete (e : Event) : bool :=
  match e with EvContainerDelete _ _ => true | _ => false end.

(** The container task was started during [t]. *)
Definition task_started (t : list Event) : bool := existsb is_task_start t.

(** The container task was created during [t]. *)
Definition task_created (t : list Event) : bool := existsb is_new_task t.

Lemma measured_app h1 h2 : measured (h1 ++ h2) = measured h1 ++ measured h2.
Proof.
  induction h1 as [|e h1 IH]; simpl; auto.
  destruct e; simpl; rewrite ?IH; auto.
Qed.

Lemma measured_none t : Forall (fun e => is_measure e = false) t -> measured t = [].
Proof.
  induction 1 as [|e t He _ IH]; simpl; auto.
  destruct e; simpl in *; auto; discriminate.
Qed.

Lemma existsb_none {A} (p : A -> bool) t : Forall (fun e => p e = false) t -> existsb p t = false.
Proof.
  induction 1 as [|e t He _ IH]; simpl; auto. rewrite He, IH. reflexivity.
Qed.

Lemma file_after_app name f h1 h2 :
  file_after name f (h1 ++ h2) = file_after name (file_after name f h1) h2.
Proof. unfold file_after. apply fold_left_app. Qed.

Lemma file_after_untouched name f t :
  Forall (fun e => touches_file name e = false) t -> file_after name f t = f.
Proof.
  intros H. revert f. induction H as [|e t He _ IH]; intros f; simpl; auto.
  unfold file_after in *. simpl. rewrite <- (IH f) at 2. f_equal.
  destruct e; simpl in *; auto.
  - destruct opened; auto. rewrite He. reflexivity.
  - rewrite He. reflexivity.
Qed.

(** ** Measurement of the container claims *)

(** Inversion of the first step of a body that returned. *)
Ltac bind_inv H t1 a H1 :=
  apply bind_Ret in H;
  let t' := fresh "t" in
  destruct H as (t1 & a & t' & H1 & H & ->).

Section Measurement.

Variable L : Lib.

Lemma formatEnvVars_from_Ok acc envVars out :
  formatEnvVars_from L acc envVars = Ok out ->
  exists envs,
    out = acc ++ envs /\
    Forall2 (fun v s => FormatEnvVar L (Name v) (Value v) = Ok s) envVars envs.
Proof.
  revert acc. induction envVars as [|v rest IH]; intros acc H; simpl in H.
  - inversion H; subst. exists []. rewrite app_nil_r. split; [reflexivity | constructor].
  - destruct (FormatEnvVar L (Name v) (Value v)) as [s|e] eqn:Hv; try discriminate.
    destruct (IH _ H) as (envs & -> & Hall).
    exists (s :: envs). rewrite <- app_assoc. split; [reflexivity | constructor; assumption].
Qed.

Lemma formatEnvVars_Ok envVars out :
  formatEnvVars L envVars = Ok out ->
  Forall2 (fun v s => FormatEnvVar L (Name v) (Value v) = Ok s) envVars out.
Proof.
  intros H. destruct (formatEnvVars_from_Ok _ _ _ H) as (envs & -> & Hall). exact Hall.
Qed.

Definition tlv_of (ty : CosType) (x : string) : CosTlv :=
  {| EventType := ty; EventContent := x |}.

Lemma measureEvent_Ret A tlv h t v :
  measureEvent A tlv h = (t, Ret v) ->
  MeasureEvent A (measured h) tlv = None /\ t = [EvMeasureEvent tlv true].
Proof.
  unfold measureEvent, call_error.
  destruct (MeasureEvent A (measured h) tlv) eqn:Hm; intros H; inversion H; subst. auto.
Qed.

Lemma measureEach_Ret A ty xs h t v :
  measureEach A ty xs h = (t, Ret v) -> measured t = map (tlv_of ty) xs.
Proof.
  revert h t. induction xs as [|x rest IH]; intros h t H; simpl in H.
  - inversion H; reflexivity.
  - bind_inv H t1 u H1.
    apply measureEvent_Ret in H1. destruct H1 as [_ ->].
    rewrite measured_app. simpl. f_equal. eapply IH; eassumption.
Qed.

Lemma emits_measureEvent (P : Event -> Prop) A tlv :
  (forall b, P (EvMeasureEvent tlv b)) -> emits P (measureEvent A tlv).
Proof.
  intros HP h. unfold measureEvent, call_error. simpl.
  repeat constructor. apply HP.
Qed.

Lemma emits_measureEach (P : Event -> Prop) A ty xs :
  (forall tlv b, P (EvMeasureEvent tlv b)) -> emits P (measureEach A ty xs).
Proof.
  intros HP. induction xs as [|x rest IH]; simpl.
  - apply emits_ret.
  - apply emits_bind; [apply emits_measureEvent; intro; apply HP | intro; exact IH].
Qed.

(** The events [measureContainerClaims] is to measure. *)
Definition container_claims (image : Image) (restart : string)
    (imageConfig : result Descriptor) (spec : Spec) (envs cmd : list string) : list CosTlv :=
  [ tlv_of ImageRefType (image_Name image);
    tlv_of ImageDigestType (image_Target_Digest image);
    tlv_of RestartPolicyType restart ]
  ++ match imageConfig with
     | Ok ic => [ tlv_of ImageIDType (Digest ic) ]
     | Err _ => []
     end
  ++ map (tlv_of ArgType) (Process_Args spec)
  ++ map (tlv_of EnvVarType) (Process_Env spec)
  ++ map (tlv_of OverrideEnvType) envs
  ++ map (tlv_of OverrideArgType) cmd
  ++ [ tlv_of LaunchSeparatorType "" ].

Lemma measureContainerClaims_Ret A r h t v :
  measureContainerClaims L A r h = (t, Ret v) ->
  exists image spec envs,
    container_Image A = Ok image /\
    container_Spec A = Ok spec /\
    formatEnvVars L (Envs (launchSpec r)) = Ok envs /\
    measured t =
      container_claims image (RestartPolicy (launchSpec r)) (run_image_Config A)
        spec envs (Cmd (launchSpec r)).
Proof.
  unfold measureContainerClaims. intros H.
  bind_inv H t1 image H1.
  apply call_result_Ret in H1. destruct H1 as [Himage ->].
  bind_inv H t2 u2 H2.
  apply measureEvent_Ret in H2. destruct H2 as [_ ->].
  bind_inv H t3 ut3 H3.
  apply measureEvent_Ret in H3. destruct H3 as [_ ->].
  bind_inv H t4 ut4 H4.
  apply measureEvent_Ret in H4. destruct H4 as [_ ->].
  bind_inv H t5 ic H5.
  bind_inv H t6 ut6 H6.
  bind_inv H t7 spec H7.
  apply call_result_Ret in H7. destruct H7 as [Hspec ->].
  bind_inv H t8 ut8 H8.
  apply measureEach_Ret in H8.
  bind_inv H t9 ut9 H9.
  apply measureEach_Ret in H9.
  bind_inv H t10 envs H10.
  apply pure_result_Ret in H10. destruct H10 as [Henvs ->].
  bind_inv H t11 ut11 H11.
  apply measureEach_Ret in H11.
  bind_inv H t12 ut12 H12.
  apply measureEach_Ret in H12.
  apply measureEvent_Ret in H. destruct H as [_ ->].
  exists image, spec, envs. repeat split; try assumption.
  unfold container_claims.
  repeat rewrite measured_app. rewrite H8, H9, H11, H12. simpl.
  do 3 f_equal.
  assert (Hic : measured t5 ++ measured t6 =
                match run_image_Config A with Ok c => [tlv_of ImageIDType (Digest c)] | Err _ => [] end).
  { unfold catch, call_result in H5.
    destruct (run_image_Config A) as [c|e]; inversion H5; subst; simpl.
    - apply measureEvent_Ret in H6. destruct H6 as [_ ->]. reflexivity.
    - inversion H6; reflexivity. }
  rewrite app_assoc. rewrite Hic. reflexivity.
Qed.

Lemma emits_measureContainerClaims (P : Event -> Prop) A r :
  P EvContainerImage -> P EvImageConfig -> P EvContainerSpec ->
  (forall tlv b, P (EvMeasureEvent tlv b)) ->
  emits P (measureContainerClaims L A r).
Proof.
  intros. unfold measureContainerClaims.
  repeat first [ apply emits_measureEach; assumption
               | apply emits_measureEvent; intro; auto
               | emits_step ]; auto.
Qed.

End Measurement.

(** ** One refresh of the token *)

(** Case analysis on the replies read by [refreshToken]. *)
Ltac refresh_cases L A :=
  unfold refreshToken, os_WriteFile, bind, wrap_err, call_result, call_error, call,
    pure_result, pure_error, deref, log, fail, ret;
  repeat match goal with
         | |- context [match Attest A with _ => _ end] =>
             destruct (Attest A) eqn:?; simpl
         | |- context [match ParseRegistered L ?t with _ => _ end] =>
             destruct (ParseRegistered L t) eqn:?; simpl
         | |- context [match ExpiresAt ?c with _ => _ end] =>
             destruct (ExpiresAt c) eqn:?; simpl
         | |- context [Now A <? ?x] =>
             destruct (Now A <? x) eqn:?; simpl
         | |- context [match OpenFile (WriteFile A) with _ => _ end] =>
             destruct (OpenFile (WriteFile A)) eqn:?; simpl
         | |- context [match Write (WriteFile A) with _ => _ end] =>
             destruct (Write (WriteFile A)) as [[? ?]|] eqn:?; simpl
         | |- context [match Close (WriteFile A) with _ => _ end] =>
             destruct (Close (WriteFile A)) eqn:?; simpl
         | |- context [match ParseMap L ?t with _ => _ end] =>
             destruct (ParseMap L t) eqn:?; simpl
         | |- context [match MarshalIndent L ?m with _ => _ end] =>
             destruct (MarshalIndent L m) eqn:?; simpl
         end.

Section TokenRefresh.

Variable L : Lib.

Definition tokenFile : string := path_Join hostTokenPath attestationVerifierTokenFile.

(** The calls of a refresh: logging, attestation, clock, random source and
    the token file. *)
Definition refresh_event (e : Event) : bool :=
  match e with
  | EvLog _ | EvAttest | EvNow | EvRand
  | EvOpenFile _ _ _ | EvWrite _ _ | EvClose _ | EvTimerReset _ => true
  | _ => false
  end.

Lemma emits_os_WriteFile (P : Event -> Prop) A name data perm :
  (forall e, refresh_event e = true -> P e) -> emits P (os_WriteFile A name data perm).
Proof. intros HP. unfold os_WriteFile. emits_tac. Qed.

Lemma emits_refreshToken (P : Event -> Prop) A r :
  (forall e, refresh_event e = true -> P e) -> emits P (refreshToken L A r).
Proof.
  intros HP. unfold refreshToken.
  repeat first [ apply emits_os_WriteFile; assumption | emits_step ]; auto.
Qed.

Lemma emits_refresher_attempt (P : Event -> Prop) r A :
  (forall e, refresh_event e = true -> P e) -> emits P (refresher_attempt L r A).
Proof.
  intros HP h. unfold refresher_attempt.
  pose proof (emits_refreshToken P A r HP h) as H.
  destruct (refreshToken L A r h) as [t res]. simpl in H.
  destruct res; simpl; auto; apply Forall_app; split; auto.
Qed.

Lemma emits_refresher_attempts (P : Event -> Prop) r As :
  (forall e, refresh_event e = true -> P e) -> emits P (refresher_attempts L r As).
Proof.
  intros HP. induction As as [|A rest IH]; simpl.
  - apply emits_ret.
  - apply emits_bind; [apply emits_refresher_attempt; assumption | intro; exact IH].
Qed.

Lemma emits_yield (P : Event -> Prop) A r k :
  (forall e, refresh_event e = true -> P e) -> emits P (yield L A r k).
Proof. intros HP. apply emits_refresher_attempts. exact HP. Qed.

(** What a refresh does does not depend on the calls made before it. *)
Lemma refreshToken_history A r h h' : refreshToken L A r h = refreshToken L A r h'.
Proof. refresh_cases L A; reflexivity. Qed.

(** The calls of a refresh that returned a delay. *)
Definition refresh_calls (token claimsString : string) : list Event :=
  [ EvLog "refreshing attestation verifier OIDC token"; EvAttest; EvNow;
    EvOpenFile tokenFile 420 true; EvWrite tokenFile token; EvClose tokenFile;
    EvLog claimsString; EvNow; EvRand ].

Lemma refreshToken_Ret A r h t d :
  refreshToken L A r h = (t, Ret d) ->
  exists token claims expiresAt mapClaims claimsString,
    Attest A = Ok token /\
    ParseRegistered L token = Ok claims /\
    ExpiresAt claims = Some expiresAt /\
    Now A < expiresAt /\
    OpenFile (WriteFile A) = None /\ Write (WriteFile A) = None /\ Close (WriteFile A) = None /\
    ParseMap L token = Ok mapClaims /\
    MarshalIndent L mapClaims = Ok claimsString /\
    t = refresh_calls token claimsString /\
    d = Refresh.getNextRefreshFromExpiration (time_Until expiresAt (Until_Now A)) (Float64 A).
Proof.
  refresh_cases L A; try discriminate.
  intros H. inversion H; subst.
  match goal with Hnow : (Now A <? _) = true |- _ => apply Z.ltb_lt in Hnow end.
  do 5 eexists. repeat split; eauto.
Qed.

(** A refresh ends by returning a delay, by returning an error, or by the
    nil dereference of a token without [exp]. *)
Lemma refreshToken_ends A r h :
  match snd (refreshToken L A r h) with
  | Ret _ | Fail _ | Panic => True
  | _ => False
  end.
Proof. refresh_cases L A; exact I. Qed.

End TokenRefresh.

(** ** [Run] *)

(** How an unfinished step ends the whole body. *)
Definition abort {A B} (r : res A) : option (res B) :=
  match r with
  | Ret _ => None
  | Fail e => Some (Fail e)
  | Panic => Some Panic
  | Crash => Some Crash
  | Blocked => Some Blocked
  end.

Lemma bind_inv {A B} (m : M A) (f : A -> M B) h t r :
  bind m f h = (t, r) ->
  (exists t1 a t2, m h = (t1, Ret a) /\ f a (h ++ t1) = (t2, r) /\ t = t1 ++ t2) \/
  (exists r1, m h = (t, r1) /\ abort r1 = Some r).
Proof.
  unfold bind. destruct (m h) as [t1 r1]. destruct r1.
  - destruct (f a (h ++ t1)) as [t2 r2] eqn:Hf. intros H; inversion H; subst.
    left. exists t1, a, t2. auto.
  - intros H; inversion H; subst. right. eexists; split; reflexivity.
  - intros H; inversion H; subst. right. eexists; split; reflexivity.
  - intros H; inversion H; subst. right. eexists; split; reflexivity.
  - intros H; inversion H; subst. right. eexists; split; reflexivity.
Qed.

Lemma wrap_err_inv {A} wrap (m : M A) h t r :
  wrap_err wrap m h = (t, r) ->
  exists r1, m h = (t, r1) /\ r = match r1 with Fail e => Fail (wrap e) | _ => r1 end.
Proof.
  unfold wrap_err. destruct (m h) as [t1 r1]. intros H; inversion H; subst.
  exists r1. auto.
Qed.

Lemma defer_inv {A} e (m : M A) h t r :
  defer (call e tt) m h = (t, r) ->
  exists t1, m h = (t1, r) /\
    (t = t1 /\ (r = Crash \/ r = Blocked) \/
     t = t1 ++ [e] /\ r <> Crash /\ r <> Blocked).
Proof.
  unfold defer. destruct (m h) as [t1 r1].
  destruct r1; simpl; intros H; inversion H; subst; eexists; (split; [reflexivity | ]);
    first [ right; repeat split; discriminate | left; auto ].
Qed.

Lemma existsb_snoc {A} (p : A -> bool) t e : existsb p (t ++ [e]) = existsb p t || p e.
Proof. rewrite existsb_app. simpl. rewrite orb_false_r. reflexivity. Qed.

Section Running.

Variable L : Lib.

(** The measurement ends by returning or by returning an error. *)
Lemma measureEvent_ends A tlv h :
  match snd (measureEvent A tlv h) with Ret _ | Fail _ => True | _ => False end.
Proof. unfold measureEvent, call_error. simpl. destruct (MeasureEvent A (measured h) tlv); exact I. Qed.

(** A body that ends by returning or by returning an error. *)
Definition returns {A} (m : M A) : Prop :=
  forall h, match snd (m h) with Ret _ | Fail _ => True | _ => False end.

Lemma returns_bind {A B} (m : M A) (f : A -> M B) :
  returns m -> (forall a, returns (f a)) -> returns (bind m f).
Proof.
  intros Hm Hf h. unfold bind. specialize (Hm h). destruct (m h) as [t r].
  destruct r; simpl in *; try contradiction; auto.
  specialize (Hf a (h ++ t)). destruct (f a (h ++ t)). exact Hf.
Qed.

Lemma returns_measureEach A ty xs : returns (measureEach A ty xs).
Proof.
  induction xs as [|x rest IH]; simpl.
  - intro h; exact I.
  - apply returns_bind; [intro h; apply measureEvent_ends | intro; exact IH].
Qed.

Lemma returns_call_result {A} e (a : result A) : returns (call_result e a).
Proof. intro h. unfold call_result. destruct a; exact I. Qed.

Lemma returns_pure_result {A} (a : result A) : returns (pure_result a).
Proof. intro h. unfold pure_result. destruct a; exact I. Qed.

Lemma returns_catch {A} (m : M A) : returns m -> returns (catch m).
Proof.
  intros Hm h. unfold catch. specialize (Hm h). destruct (m h) as [t r].
  destruct r; simpl in *; auto.
Qed.

Lemma returns_measureContainerClaims A r : returns (measureContainerClaims L A r).
Proof.
  unfold measureContainerClaims.
  repeat first [ apply returns_measureEach
               | apply returns_call_result
               | apply returns_pure_result
               | apply returns_catch
               | exact (measureEvent_ends A _)
               | apply returns_bind; [ | intro ]
               | match goal with |- returns (match ?x with _ => _ end) => destruct x end
               | (intro h; exact I) ].
Qed.

(** The background refresher returns, unless a panic ends the process. *)
Lemma yield_ends A r k h :
  match snd (yield L A r k h) with Ret _ | Crash => True | _ => False end.
Proof.
  unfold yield. generalize (refresher A k) as As. intros As. revert h.
  induction As as [|RA rest IH]; intros h; simpl.
  - exact I.
  - unfold bind, refresher_attempt.
    pose proof (refreshToken_ends L RA r h) as He.
    destruct (refreshToken L RA r h) as [t res]. simpl in He.
    destruct res; simpl; try contradiction; auto.
    + specialize (IH (h ++ t ++ [EvTimerReset a])).
      destruct (refresher_attempts L r rest (h ++ t ++ [EvTimerReset a])). exact IH.
    + specialize (IH (h ++ t ++ [EvLog "failed to refresh attestation service token"])).
      destruct (refresher_attempts L r rest _). exact IH.
Qed.

(** What [Run] does once the claims are measured. *)
Definition after_measurement (A : RunAnswers) (r : ContainerRunner) : M unit :=
    wrap_err (Errorf_v "failed to fetch and write OIDC token: %v")
      (fetchAndWriteToken L A r) ;;
    (if LogRedirect (launchSpec r)
     then log "container stdout/stderr will be redirected"
     else log "container stdout/stderr will not be redirected") ;;
    yield L A r 0 ;;
    wrap_err RetryableError
      (call_error (EvNewTask (LogRedirect (launchSpec r))) (NewTask A)) ;;
    defer (call EvTaskDelete tt) (
      yield L A r 1 ;;
      waited <- catch (call_error EvTaskWait (task_Wait A)) ;;
      match waited with
      | Err _ => log "task wait error"
      | Ok _ => ret tt
      end ;;
      log "workload task started" ;;
      yield L A r 2 ;;
      wrap_err RetryableError (call_error EvTaskStart (task_Start A)) ;;
      yield L A r 3 ;;
      match exitStatusC A with
      | None => fun _ => ([], Blocked)
      | Some status =>
          call EvRecv tt ;;
          match exit_err status with
          | Some err => fail err
          | None =>
              if negb (exit_code status =? 0) then
                log "workload task ended and returned non-zero" ;;
                fail (WorkloadError (exit_code status))
              else
                log "workload task ended and returned 0"
          end
      end).

Lemma Run_unfold A r :
  Run L A r =
  defer (call EvCancel tt)
    (wrap_err (Errorf_v "failed to measure container claims: %v")
       (measureContainerClaims L A r) ;;
     after_measurement A r).
Proof. reflexivity. Qed.

Lemma emits_fetchAndWriteToken (P : Event -> Prop) A r :
  (forall e, refresh_event e = true -> P e) ->
  (forall p m, P (EvMkdirAll p m)) -> P EvGo ->
  emits P (fetchAndWriteToken L A r).
Proof.
  intros HP Hmk Hgo. unfold fetchAndWriteToken, fetchAndWriteTokenWithRetry.
  repeat first [ apply emits_refreshToken; assumption | emits_step ]; auto.
Qed.

(** Nothing is measured once the claims are measured. *)
Lemma after_measurement_measures_nothing A r :
  emits (fun e => is_measure e = false) (after_measurement A r).
Proof.
  unfold after_measurement.
  assert (HP : forall e, refresh_event e = true -> is_measure e = false)
    by (intros e; destruct e; simpl; auto; discriminate).
  repeat first [ apply emits_yield; assumption
               | apply emits_fetchAndWriteToken; auto
               | emits_step ]; auto.
Qed.

(** The measurement does not touch the task. *)
Lemma measurement_starts_nothing A r :
  emits (fun e => is_task_start e = false /\ is_new_task e = false)
    (measureContainerClaims L A r).
Proof. apply emits_measureContainerClaims; simpl; auto. Qed.

Lemma Forall_fst {P Q : Event -> Prop} t :
  Forall (fun e => P e /\ Q e) t -> Forall P t /\ Forall Q t.
Proof. intros H. split; eapply Forall_impl; try exact H; simpl; intros a [? ?]; assumption. Qed.

End Running.

(** ** A measurement that fails *)

Definition measure_failed (e : Event) : bool :=
  match e with EvMeasureEvent _ false => true | _ => false end.

(** The calls of the measurement. *)
Definition measuring_event (e : Event) : bool :=
  match e with
  | EvContainerImage | EvImageConfig | EvContainerSpec | EvMeasureEvent _ true => true
  | _ => false
  end.

(** A body that makes the calls of the measurement, and whose only call
    after a measurement that failed is none: it returns the error of the
    measurement. *)
Definition stops_at_failure {B} (A : RunAnswers) (m : M B) : Prop :=
  forall h t res, m h = (t, res) ->
    Forall (fun e => measuring_event e = true) t \/
    exists t0 tlv e,
      t = t0 ++ [EvMeasureEvent tlv false] /\
      Forall (fun e => measuring_event e = true) t0 /\
      res = Fail e /\
      MeasureEvent A (measured (h ++ t0)) tlv = Some e.

Section FailedMeasurement.

Variable L : Lib.
Variable A : RunAnswers.

Lemma stops_bind {B C} (m : M B) (f : B -> M C) :
  stops_at_failure A m -> (forall a, stops_at_failure A (f a)) ->
  stops_at_failure A (bind m f).
Proof.
  intros Hm Hf h t res H.
  apply bind_inv in H. destruct H as [(t1 & a & t2 & H1 & H2 & ->) | (r1 & H1 & Hab)].
  - destruct (Hm _ _ _ H1) as [Hq1 | (t0 & tlv & e & _ & _ & Hr & _)]; [ | discriminate].
    destruct (Hf a _ _ _ H2) as [Hq2 | (t0 & tlv & e & -> & Hq2 & -> & Hrep)].
    + left. apply Forall_app; split; assumption.
    + right. exists (t1 ++ t0), tlv, e.
      split; [rewrite app_assoc; reflexivity | ].
      split; [apply Forall_app; split; assumption | ].
      split; [reflexivity | ]. rewrite app_assoc. exact Hrep.
  - destruct (Hm _ _ _ H1) as [Hq1 | (t0 & tlv & e & -> & Hq & -> & Hrep)].
    + left. exact Hq1.
    + right. exists t0, tlv, e. simpl in Hab. inversion Hab; subst. auto.
Qed.

Lemma stops_measureEvent tlv : stops_at_failure A (measureEvent A tlv).
Proof.
  intros h t res H. unfold measureEvent, call_error in H.
  destruct (MeasureEvent A (measured h) tlv) as [e|] eqn:Hrep; inversion H; subst.
  - right. exists [], tlv, e. rewrite app_nil_r. repeat split; auto.
  - left. repeat constructor.
Qed.

Lemma stops_measureEach ty xs : stops_at_failure A (measureEach A ty xs).
Proof.
  induction xs as [|x rest IH]; simpl.
  - intros h t res H. inversion H; subst. left. constructor.
  - apply stops_bind; [apply stops_measureEvent | intro; exact IH].
Qed.

Lemma stops_quiet {B} (m : M B) :
  emits (fun e => measuring_event e = true) m -> stops_at_failure A m.
Proof. intros Hm h t res H. left. specialize (Hm h). rewrite H in Hm. exact Hm. Qed.

Lemma stops_measureContainerClaims r : stops_at_failure A (measureContainerClaims L A r).
Proof.
  unfold measureContainerClaims.
  repeat first [ apply stops_measureEach
               | apply stops_measureEvent
               | apply stops_bind; [ | intro ]
               | match goal with
                 | |- stops_at_failure _ (match ?x with _ => _ end) => destruct x
                 end
               | (apply stops_quiet; solve [emits_tac]) ].
Qed.

Lemma measuring_not_failed t :
  Forall (fun e => measuring_event e = true) t ->
  Forall (fun e => measure_failed e = false) t.
Proof.
  intros H. eapply Forall_impl; [ | exact H].
  intros e He. destruct e; simpl in *; try reflexivity.
  match goal with |- context [match ?b with _ => _ end] => destruct b end;
    [reflexivity | discriminate].
Qed.

Lemma not_failed_not_in t tlv :
  Forall (fun e => measure_failed e = false) t -> ~ In (EvMeasureEvent tlv false) t.
Proof.
  intros H Hin. rewrite Forall_forall in H. specialize (H _ Hin). discriminate.
Qed.

End FailedMeasurement.

(** The calls of the measurement that succeeded are, read off the
    history, the events that were measured. *)
Lemma measured_successfully t :
  Forall (fun e => measure_failed e = false) t ->
  filter is_measure t = map (fun tlv => EvMeasureEvent tlv true) (measured t).
Proof.
  induction 1 as [|e t He _ IH]; [reflexivity | ].
  destruct e; simpl in *; try exact IH.
  match goal with
  | H : (if ?b then _ else _) = false |- _ => destruct b; [ | discriminate]
  end.
  f_equal. exact IH.
Qed.


(** C1. Whenever [Run] gets as far as starting the container task, the
    events measured during the run are exactly: the image reference, the
    image digest, the restart policy, the image id if and only if the
    image config could be read, one [Arg] event per process argument of
    the container spec in order, one [EnvVar] event per environment entry
    of the container spec in order, one [OverrideEnv] event per
    environment variable of the launch spec in order (its formatted
    form), one [OverrideArg] event per element of the operator's [Cmd] in
    order, and last a [LaunchSeparator] event with empty content. Each of
    them was handed to [MeasureEvent] once and [MeasureEvent] returned no
    error for it; no other call of [MeasureEvent] is made, before, in
    between or after, also not by the background refresher. *)
Theorem Run_measures_claims_in_order L A r h :
  task_started (fst (Run L A r h)) = true ->
  exists image spec envs,
    container_Image A = Ok image /\
    container_Spec A = Ok spec /\
    Forall2 (fun v s => FormatEnvVar L (Name v) (Value v) = Ok s) (Envs (launchSpec r)) envs /\
    measured (fst (Run L A r h)) =
      container_claims image (RestartPolicy (launchSpec r)) (run_image_Config A)
        spec envs (Cmd (launchSpec r)) /\
    filter is_measure (fst (Run L A r h)) =
      map (fun tlv => EvMeasureEvent tlv true)
        (container_claims image (RestartPolicy (launchSpec r)) (run_image_Config A)
           spec envs (Cmd (launchSpec r))) /\
    map EventType (measured (fst (Run L A r h))) =
      [ImageRefType; ImageDigestType; RestartPolicyType]
      ++ match run_image_Config A with Ok _ => [ImageIDType] | Err _ => [] end
      ++ repeat ArgType (List.length (Process_Args spec))
      ++ repeat EnvVarType (List.length (Process_Env spec))
      ++ repeat OverrideEnvType (List.length (Envs (launchSpec r)))
      ++ repeat OverrideArgType (List.length (Cmd (launchSpec r)))
      ++ [LaunchSeparatorType].
Proof.
  intros Hs.
  assert (Hmain : exists image spec envs,
    container_Image A = Ok image /\
    container_Spec A = Ok spec /\
    Forall2 (fun v s => FormatEnvVar L (Name v) (Value v) = Ok s) (Envs (launchSpec r)) envs /\
    measured (fst (Run L A r h)) =
      container_claims image (RestartPolicy (launchSpec r)) (run_image_Config A)
        spec envs (Cmd (launchSpec r)) /\
    Forall (fun e => measure_failed e = false) (fst (Run L A r h))).
  { rewrite Run_unfold in *.
    destruct (defer _ _ h) as [t res] eqn:HR. simpl in *.
    apply defer_inv in HR. destruct HR as (t0 & Hbody & Ht).
    assert (Hs0 : task_started t0 = true).
    { destruct Ht as [[-> _] | [-> _]]; auto.
      unfold task_started in *. rewrite existsb_snoc in Hs. simpl in Hs.
      rewrite orb_false_r in Hs. exact Hs. }
    assert (Hm0 : measured t = measured t0).
    { destruct Ht as [[-> _] | [-> _]]; auto.
      rewrite measured_app. simpl. apply app_nil_r. }
    assert (Hf0 : Forall (fun e => measure_failed e = false) t0 ->
                  Forall (fun e => measure_failed e = false) t).
    { intros Hf. destruct Ht as [[-> _] | [-> _]]; auto.
      apply Forall_app. split; [exact Hf | repeat constructor]. }
    rewrite Hm0. clear Hm0 Ht Hs.
    apply bind_inv in Hbody. destruct Hbody as [(t1 & [] & t2 & H1 & H2 & ->) | (r1 & H1 & Hab)].
    - apply wrap_err_Ret in H1.
      pose proof (after_measurement_measures_nothing L A r (h ++ t1)) as Hq.
      rewrite H2 in Hq. simpl in Hq.
      rewrite measured_app, (measured_none _ Hq), app_nil_r.
      destruct (measureContainerClaims_Ret _ _ _ _ _ _ H1)
        as (image & spec & envs & Hi & Hsp & He & Hmeas).
      exists image, spec, envs. repeat split; auto.
      + apply formatEnvVars_Ok. exact He.
      + apply Hf0. apply Forall_app. split.
        * destruct (stops_measureContainerClaims L A r _ _ _ H1)
            as [Hq1 | (t0' & tlv & e & _ & _ & Hr & _)]; [ | discriminate].
          apply measuring_not_failed. exact Hq1.
        * eapply Forall_impl; [ | exact Hq].
          intros e He'. destruct e; simpl in *; try reflexivity. discriminate.
    - exfalso. apply wrap_err_inv in H1. destruct H1 as (r0 & H1 & _).
      pose proof (measurement_starts_nothing L A r h) as Hq.
      rewrite H1 in Hq. simpl in Hq. apply Forall_fst in Hq. destruct Hq as [Hq _].
      unfold task_started in Hs0. rewrite (existsb_none _ _ Hq) in Hs0. discriminate. }
  destruct Hmain as (image & spec & envs & Hi & Hsp & He & Hmeas & Hok).
  exists image, spec, envs.
  split; [exact Hi | ]. split; [exact Hsp | ]. split; [exact He | ]. split; [exact Hmeas | ].
  split; [rewrite (measured_successfully _ Hok), Hmeas; reflexivity | ].
  assert (Hrep : forall ty (xs : list string),
             map (fun x => EventType (tlv_of ty x)) xs = repeat ty (List.length xs)).
  { intros ty xs. induction xs as [|x xs IH]; [reflexivity | simpl; f_equal; exact IH]. }
  rewrite Hmeas. unfold container_claims.
  rewrite !map_app, !map_map, !Hrep, (Forall2_length He).
  destruct (run_image_Config A); reflexivity.
Qed.

(** ** The first refresh and the task *)

Section FirstRefresh.

Variable L : Lib.

Lemma existsb_app_quiet {A} (p : A -> bool) t1 t2 :
  Forall (fun e => p e = false) t1 -> existsb p (t1 ++ t2) = existsb p t2.
Proof. intros H. rewrite existsb_app, (existsb_none _ _ H). reflexivity. Qed.

Lemma Forall_and_l {P Q : Event -> Prop} t :
  Forall (fun e => P e /\ Q e) t -> Forall P t.
Proof. intros H. eapply Forall_impl; try exact H. simpl. intros a [? ?]; assumption. Qed.

Lemma Forall_and_r {P Q : Event -> Prop} t :
  Forall (fun e => P e /\ Q e) t -> Forall Q t.
Proof. intros H. eapply Forall_impl; try exact H. simpl. intros a [? ?]; assumption. Qed.

(** Neither creates nor starts the task. *)
Definition no_task (e : Event) : Prop := is_new_task e = false /\ is_task_start e = false.

Lemma no_task_created t : Forall no_task t -> task_created t = false.
Proof. intros H. apply existsb_none. exact (Forall_and_l _ H). Qed.

Lemma no_task_started t : Forall no_task t -> task_started t = false.
Proof. intros H. apply existsb_none. exact (Forall_and_r _ H). Qed.

Lemma refresh_event_no_task e : refresh_event e = true -> no_task e.
Proof. destruct e; simpl; intros H; try discriminate; split; reflexivity. Qed.

Lemma measurement_no_task A r : emits no_task (measureContainerClaims L A r).
Proof. apply emits_measureContainerClaims; intros; split; reflexivity. Qed.

Lemma fetch_no_task A r : emits no_task (fetchAndWriteToken L A r).
Proof.
  apply emits_fetchAndWriteToken;
    [ exact refresh_event_no_task | intros; split; reflexivity | split; reflexivity ].
Qed.

(** A run in which the task is created or started has been through a
    first refresh that returned a delay. *)
Lemma Run_task_after_refresh A r h :
  task_created (fst (Run L A r h)) = true \/ task_started (fst (Run L A r h)) = true ->
  exists pre tr d post,
    fst (Run L A r h) = pre ++ tr ++ post /\
    refreshToken L (first_refresh A) r (h ++ pre) = (tr, Ret d) /\
    Forall no_task (pre ++ tr) /\
    Forall (fun e => touches_file tokenFile e = false) pre.
Proof.
  intros Hs. rewrite Run_unfold in *.
  destruct (defer _ _ h) as [t res] eqn:HR. simpl in *.
  apply defer_inv in HR. destruct HR as (t0 & Hbody & Ht).
  apply bind_inv in Hbody. destruct Hbody as [(t1 & [] & t2 & H1 & H2 & ->) | (r1 & H1 & Hab)].
  - apply wrap_err_Ret in H1.
    pose proof (measurement_no_task A r h) as Hq1. rewrite H1 in Hq1. simpl in Hq1.
    pose proof (emits_measureContainerClaims L (fun e => touches_file tokenFile e = false) A r
                  eq_refl eq_refl eq_refl (fun _ _ => eq_refl) h) as Hf1.
    rewrite H1 in Hf1. simpl in Hf1.
    unfold after_measurement in H2.
    apply bind_inv in H2. destruct H2 as [(t3 & [] & t4 & H3 & H4 & ->) | (r3 & H3 & Hab)].
    + apply wrap_err_Ret in H3. unfold fetchAndWriteToken, fetchAndWriteTokenWithRetry in H3.
      bind_inv H3 t5 u5 H5. apply call_error_Ret in H5. destruct H5 as [_ ->].
      bind_inv H3 tr d Hr. unfold call in H3. inversion H3; subst. clear H3.
      pose proof (emits_refreshToken L no_task (first_refresh A) r refresh_event_no_task
                    ((h ++ t1) ++ [EvMkdirAll hostTokenPath 484])) as Hq.
      rewrite Hr in Hq. simpl in Hq.
      rewrite <- app_assoc in Hr.
      assert (Hpre : Forall no_task ((t1 ++ [EvMkdirAll hostTokenPath 484]) ++ tr)).
      { repeat (apply Forall_app; split); auto; repeat constructor. }
      assert (Hfile : Forall (fun e => touches_file tokenFile e = false)
                        (t1 ++ [EvMkdirAll hostTokenPath 484])).
      { apply Forall_app; split; auto; repeat constructor. }
      exists (t1 ++ [EvMkdirAll hostTokenPath 484]), tr, d.
      destruct Ht as [[-> _] | [-> _]].
      * exists ([EvGo] ++ t4). repeat split; auto.
        repeat rewrite <- app_assoc. reflexivity.
      * exists ([EvGo] ++ t4 ++ [EvCancel]). repeat split; auto.
        repeat rewrite <- app_assoc. reflexivity.
    + exfalso. apply wrap_err_inv in H3. destruct H3 as (r0 & H3 & _).
      pose proof (fetch_no_task A r (h ++ t1)) as Hq2. rewrite H3 in Hq2. simpl in Hq2.
      assert (Hq : Forall no_task t).
      { destruct Ht as [[-> _] | [-> _]]; repeat (apply Forall_app; split); auto;
          repeat constructor. }
      rewrite (no_task_created _ Hq), (no_task_started _ Hq) in Hs.
      destruct Hs; discriminate.
  - exfalso. apply wrap_err_inv in H1. destruct H1 as (r0 & H1 & _).
    pose proof (measurement_no_task A r h) as Hq1. rewrite H1 in Hq1. simpl in Hq1.
    assert (Hq : Forall no_task t).
    { destruct Ht as [[-> _] | [-> _]]; repeat (apply Forall_app; split); auto;
        repeat constructor. }
    rewrite (no_task_created _ Hq), (no_task_started _ Hq) in Hs.
    destruct Hs; discriminate.
Qed.

(** The token file after a refresh that returned a delay. *)
Lemma file_after_refresh_calls f token claimsString :
  file_after tokenFile f (refresh_calls token claimsString) =
  Some {| content := token; mode := match f with Some old => mode old | None => 420 end |}.
Proof.
  destruct f; reflexivity.
Qed.

End FirstRefresh.

(** C7. In every execution of [Run], if the container task is created or
    started, then the synchronous first refresh has completed before:
    the calls of the run split into a part without any task operation that
    ends with a first refresh that attested, passed the expiration check
    and left the token in the token file, and the rest. If the first
    refresh does not complete, the task is neither created nor started. *)
Theorem first_refresh_completes_before_task L A r h :
  (task_created (fst (Run L A r h)) = true \/ task_started (fst (Run L A r h)) = true ->
   exists pre tr d post token expiresAt,
     fst (Run L A r h) = pre ++ tr ++ post /\
     refreshToken L (first_refresh A) r (h ++ pre) = (tr, Ret d) /\
     task_created (pre ++ tr) = false /\ task_started (pre ++ tr) = false /\
     Attest (first_refresh A) = Ok token /\
     ParseRegistered L token = Ok {| ExpiresAt := Some expiresAt |} /\
     Now (first_refresh A) < expiresAt /\
     forall f, option_map content (file_after tokenFile f (pre ++ tr)) = Some token) /\
  ((forall h' d, snd (refreshToken L (first_refresh A) r h') <> Ret d) ->
   task_created (fst (Run L A r h)) = false /\ task_started (fst (Run L A r h)) = false).
Proof.
  split.
  - intros Hs. destruct (Run_task_after_refresh L A r h Hs) as (pre & tr & d & post & Ht & Hr & Hq & Hf).
    destruct (refreshToken_Ret _ _ _ _ _ _ Hr)
      as (token & claims & expiresAt & mc & cs & Ha & Hp & He & Hn & _ & _ & _ & _ & _ & Htr & _).
    exists pre, tr, d, post, token, expiresAt. repeat split; auto.
    + apply no_task_created; assumption.
    + apply no_task_started; assumption.
    + rewrite Hp. destruct claims as [x]. simpl in He. subst x. reflexivity.
    + intros f. rewrite file_after_app, (file_after_untouched _ _ _ Hf), Htr,
        file_after_refresh_calls. reflexivity.
  - intros Hfail.
    destruct (task_created (fst (Run L A r h))) eqn:Hc.
    + exfalso. destruct (Run_task_after_refresh L A r h (or_introl Hc))
        as (pre & tr & d & post & _ & Hr & _).
      apply (Hfail (h ++ pre) d). rewrite Hr. reflexivity.
    + split; [reflexivity | ].
      destruct (task_started (fst (Run L A r h))) eqn:Hst; [ | reflexivity ].
      exfalso. destruct (Run_task_after_refresh L A r h (or_intror Hst))
        as (pre & tr & d & post & _ & Hr & _).
      apply (Hfail (h ++ pre) d). rewrite Hr. reflexivity.
Qed.

(** ** The ways [Run] ends *)

Definition is_task_wait (e : Event) : bool :=
  match e with EvTaskWait => true | _ => false end.

Definition is_recv (e : Event) : bool :=
  match e with EvRecv => true | _ => false end.

(** The calls [Run] makes before it creates the task. *)
Definition before_task_event (e : Event) : bool :=
  match e with
  | EvContainerImage | EvImageConfig | EvContainerSpec | EvMeasureEvent _ _
  | EvMkdirAll _ _ | EvGo | EvCancel => true
  | _ => refresh_event e
  end.

(** The calls made between the creation and the start of the task. *)
Definition waiting_event (e : Event) : bool :=
  match e with
  | EvTaskWait => true
  | _ => refresh_event e
  end.

(** What [Run] returns for an exit status, and what it logs. *)
Definition exit_result (status : ExitStatus) : res unit :=
  match exit_err status with
  | Some err => Fail err
  | None =>
      if exit_code status =? 0 then Ret tt else Fail (WorkloadError (exit_code status))
  end.

Definition exit_log (status : ExitStatus) : list Event :=
  match exit_err status with
  | Some err => []
  | None =>
      if exit_code status =? 0
      then [EvLog "workload task ended and returned 0"]
      else [EvLog "workload task ended and returned non-zero"]
  end.

(** The calls of a run and its end, by the point the run reaches. *)
Inductive Run_path (A : RunAnswers) (r : ContainerRunner) : list Event -> res unit -> Prop :=
| path_before_task t res :
    Forall (fun e => before_task_event e = true) t ->
    res <> Ret tt ->
    Run_path A r t res
| path_NewTask_failed t0 e :
    Forall (fun e => before_task_event e = true) t0 ->
    NewTask A = Some e ->
    Run_path A r (t0 ++ [EvNewTask (LogRedirect (launchSpec r)); EvCancel])
      (Fail (RetryableError e))
| path_crash_before_start t0 q :
    Forall (fun e => before_task_event e = true) t0 ->
    NewTask A = None ->
    Forall (fun e => waiting_event e = true) q ->
    (existsb is_task_wait q = true ->
     forall e', task_Wait A = Some e' -> In (EvLog "task wait error") q) ->
    Run_path A r (t0 ++ [EvNewTask (LogRedirect (launchSpec r))] ++ q) Crash
| path_Start_failed t0 q e :
    Forall (fun e => before_task_event e = true) t0 ->
    NewTask A = None ->
    Forall (fun e => waiting_event e = true) q ->
    (forall e', task_Wait A = Some e' -> In (EvLog "task wait error") q) ->
    task_Start A = Some e ->
    Run_path A r
      (t0 ++ [EvNewTask (LogRedirect (launchSpec r))] ++ q
          ++ [EvTaskStart; EvTaskDelete; EvCancel])
      (Fail (RetryableError e))
| path_started t0 q y res :
    Forall (fun e => before_task_event e = true) t0 ->
    NewTask A = None ->
    Forall (fun e => waiting_event e = true) q ->
    (forall e', task_Wait A = Some e' -> In (EvLog "task wait error") q) ->
    task_Start A = None ->
    Forall (fun e => refresh_event e = true) y ->
    res = Crash \/ (res = Blocked /\ exitStatusC A = None) ->
    Run_path A r
      (t0 ++ [EvNewTask (LogRedirect (launchSpec r))] ++ q ++ [EvTaskStart] ++ y) res
| path_exited t0 q y status :
    Forall (fun e => before_task_event e = true) t0 ->
    NewTask A = None ->
    Forall (fun e => waiting_event e = true) q ->
    (forall e', task_Wait A = Some e' -> In (EvLog "task wait error") q) ->
    task_Start A = None ->
    Forall (fun e => refresh_event e = true) y ->
    exitStatusC A = Some status ->
    Run_path A r
      (t0 ++ [EvNewTask (LogRedirect (launchSpec r))] ++ q ++ [EvTaskStart] ++ y
          ++ [EvRecv] ++ exit_log status ++ [EvTaskDelete; EvCancel])
      (exit_result status).

Section Paths.

Variable L : Lib.

Lemma yield_inv (P : Event -> Prop) A r k h t res :
  (forall e, refresh_event e = true -> P e) ->
  yield L A r k h = (t, res) ->
  Forall P t /\ (res = Ret tt \/ res = Crash).
Proof.
  intros HP H. split.
  - pose proof (emits_yield L P A r k HP h) as Hq. rewrite H in Hq. exact Hq.
  - pose proof (yield_ends L A r k h) as He. rewrite H in He. simpl in He.
    destruct res as [[]| | | |]; try contradiction; auto.
Qed.

Lemma measurement_before_task A r :
  emits (fun e => before_task_event e = true) (measureContainerClaims L A r).
Proof. apply emits_measureContainerClaims; intros; reflexivity. Qed.

Lemma refresh_before_task e : refresh_event e = true -> before_task_event e = true.
Proof. destruct e; simpl; auto. Qed.

Lemma refresh_waiting e : refresh_event e = true -> waiting_event e = true.
Proof. destruct e; simpl; auto. Qed.

Lemma fetch_before_task A r :
  emits (fun e => before_task_event e = true) (fetchAndWriteToken L A r).
Proof.
  apply emits_fetchAndWriteToken;
    [ exact refresh_before_task | intros; reflexivity | reflexivity ].
Qed.

Lemma fetch_ends A r h :
  match snd (fetchAndWriteToken L A r h) with
  | Ret _ | Fail _ | Panic => True
  | _ => False
  end.
Proof.
  unfold fetchAndWriteToken, fetchAndWriteTokenWithRetry, bind, call_error, call.
  destruct (MkdirAll A); simpl; auto.
  pose proof (refreshToken_ends L (first_refresh A) r (h ++ [EvMkdirAll hostTokenPath 484])) as He.
  destruct (refreshToken L (first_refresh A) r _) as [t res]. simpl in He.
  destruct res; simpl; auto.
Qed.

End Paths.

Section RunPaths.

Variable L : Lib.

Lemma call_inv {A} e (a : A) h t res :
  call e a h = (t, res) -> t = [e] /\ res = Ret a.
Proof. unfold call. intros H; inversion H; auto. Qed.

Lemma log_inv msg h t res :
  log msg h = (t, res) -> t = [EvLog msg] /\ res = Ret tt.
Proof. unfold log, call. intros H; inversion H; auto. Qed.

Lemma call_error_inv e a h t res :
  call_error e a h = (t, res) ->
  t = [e] /\ res = match a with None => Ret tt | Some err => Fail err end.
Proof. unfold call_error. intros H; inversion H; auto. Qed.

Lemma abort_not_Ret {A B} (r : res A) (r' : res B) b : abort r = Some r' -> r' <> Ret b.
Proof. destruct r; simpl; intros H; inversion H; discriminate. Qed.

Lemma Forall_snoc {A} (P : A -> Prop) t e : Forall P t -> P e -> Forall P (t ++ [e]).
Proof. intros. apply Forall_app; split; auto. Qed.

(** The part of [Run] between the creation of the task and its deferred
    deletion. *)
Lemma task_body_paths A r h t res :
  (yield L A r 1 ;;
   waited <- catch (call_error EvTaskWait (task_Wait A)) ;;
   match waited with
   | Err _ => log "task wait error"
   | Ok _ => ret tt
   end ;;
   log "workload task started" ;;
   yield L A r 2 ;;
   wrap_err RetryableError (call_error EvTaskStart (task_Start A)) ;;
   yield L A r 3 ;;
   match exitStatusC A with
   | None => fun _ => ([], Blocked)
   | Some status =>
       call EvRecv tt ;;
       match exit_err status with
       | Some err => fail err
       | None =>
           if negb (exit_code status =? 0) then
             log "workload task ended and returned non-zero" ;;
             fail (WorkloadError (exit_code status))
           else
             log "workload task ended and returned 0"
       end
   end) h = (t, res) ->
  (res = Crash /\ Forall (fun e => waiting_event e = true) t /\
   (existsb is_task_wait t = true ->
    forall e', task_Wait A = Some e' -> In (EvLog "task wait error") t)) \/
  (exists q,
     Forall (fun e => waiting_event e = true) q /\
     (forall e', task_Wait A = Some e' -> In (EvLog "task wait error") q) /\
     ((exists e, task_Start A = Some e /\ t = q ++ [EvTaskStart] /\
                 res = Fail (RetryableError e)) \/
      (task_Start A = None /\
       exists y, Forall (fun e => refresh_event e = true) y /\
         ((t = q ++ [EvTaskStart] ++ y /\
           (res = Crash \/ (res = Blocked /\ exitStatusC A = None))) \/
          (exists status, exitStatusC A = Some status /\
             t = q ++ [EvTaskStart] ++ y ++ [EvRecv] ++ exit_log status /\
             res = exit_result status))))).
Proof.
  intros H.
  apply bind_inv in H. destruct H as [(y1 & [] & ta & Hy1 & H & ->) | (r1 & Hy1 & Hab)].
  2:{ left. pose proof Hy1 as Hy1'.
      apply (yield_inv L _ _ _ _ _ _ _ refresh_waiting) in Hy1.
      apply (yield_inv L _ _ _ _ _ _ _ (fun e H => H)) in Hy1'.
      destruct Hy1 as [Hq [-> | ->]]; inversion Hab. repeat split; auto.
      intros Hw. exfalso. destruct Hy1' as [Hq' _].
      rewrite (existsb_none is_task_wait t) in Hw; [discriminate | ].
      eapply Forall_impl; [ | exact Hq']. intros e; destruct e; simpl; auto; discriminate. }
  apply (yield_inv L _ _ _ _ _ _ _ refresh_waiting) in Hy1. destruct Hy1 as [Hq1 _].
  apply bind_inv in H. destruct H as [(w & waited & tb & Hw & H & ->) | (r1 & Hw & Hab)].
  2:{ exfalso. unfold catch, call_error in Hw. destruct (task_Wait A); inversion Hw; subst;
      simpl in Hab; discriminate. }
  assert (Hw' : w = [EvTaskWait] /\
                waited = match task_Wait A with None => Ok tt | Some e => Err e end).
  { unfold catch, call_error in Hw. destruct (task_Wait A); inversion Hw; auto. }
  destruct Hw' as [-> ->]. clear Hw.
  apply bind_inv in H. destruct H as [(wl & [] & tc & Hwl & H & ->) | (r1 & Hwl & Hab)].
  2:{ exfalso. revert Hwl.
      destruct (task_Wait A); intros Hwl;
        [ apply log_inv in Hwl; destruct Hwl as [_ ->] | inversion Hwl; subst ];
        simpl in Hab; discriminate. }
  assert (Hwl' : Forall (fun e => waiting_event e = true) wl /\
                 (forall e', task_Wait A = Some e' -> In (EvLog "task wait error") wl)).
  { revert Hwl. destruct (task_Wait A); intros Hwl.
    - apply log_inv in Hwl. destruct Hwl as [-> _]. split; [repeat constructor | ].
      intros; left; reflexivity.
    - inversion Hwl; subst. split; [constructor | intros; discriminate]. }
  destruct Hwl' as [Hqwl Hlogged]. clear Hwl.
  apply bind_inv in H. destruct H as [(lg & [] & td & Hlg & H & ->) | (r1 & Hlg & Hab)].
  2:{ exfalso. apply log_inv in Hlg. destruct Hlg as [_ ->]. simpl in Hab. discriminate. }
  apply log_inv in Hlg. destruct Hlg as [-> _].
  apply bind_inv in H. destruct H as [(y2 & [] & te & Hy2 & H & ->) | (r1 & Hy2 & Hab)].
  2:{ left. apply (yield_inv L _ _ _ _ _ _ _ refresh_waiting) in Hy2.
      destruct Hy2 as [Hq [-> | ->]]; inversion Hab. repeat split; auto.
      - repeat (apply Forall_app; split); auto; repeat constructor.
      - intros _ e' He'. rewrite !in_app_iff. right; right; left.
        eapply Hlogged; eassumption. }
  apply (yield_inv L _ _ _ _ _ _ _ refresh_waiting) in Hy2. destruct Hy2 as [Hq2 _].
  right. exists (y1 ++ [EvTaskWait] ++ wl ++ [EvLog "workload task started"] ++ y2).
  split; [repeat (apply Forall_app; split); auto; repeat constructor | ].
  split; [intros e' He'; rewrite !in_app_iff; right; right; left;
          eapply Hlogged; eassumption | ].
  apply bind_inv in H. destruct H as [(st & [] & tf & Hst & H & ->) | (r1 & Hst & Hab)].
  2:{ left. apply wrap_err_inv in Hst. destruct Hst as (r0 & Hst & ->).
      apply call_error_inv in Hst. destruct Hst as [-> ->].
      destruct (task_Start A) as [e|]; inversion Hab; subst.
      exists e. repeat split; auto. repeat rewrite <- app_assoc. reflexivity. }
  apply wrap_err_Ret in Hst. apply call_error_Ret in Hst. destruct Hst as [Hstart ->].
  right. split; [assumption | ].
  apply bind_inv in H. destruct H as [(y3 & [] & tg & Hy3 & H & ->) | (r1 & Hy3 & Hab)].
  2:{ apply (yield_inv L _ _ _ _ _ _ _ (fun e H => H)) in Hy3.
      destruct Hy3 as [Hq [-> | ->]]; inversion Hab.
      exists tf. split; auto. left. split; auto.
      repeat rewrite <- app_assoc. reflexivity. }
  apply (yield_inv L _ _ _ _ _ _ _ (fun e H => H)) in Hy3. destruct Hy3 as [Hq3 _].
  exists y3. split; auto.
  destruct (exitStatusC A) as [status|] eqn:Hexit.
  - right. exists status. split; auto.
    apply bind_inv in H. destruct H as [(rc & [] & th & Hrc & H & ->) | (r1 & Hrc & Hab)].
    2:{ exfalso. apply call_inv in Hrc. destruct Hrc as [_ ->]. simpl in Hab. discriminate. }
    apply call_inv in Hrc. destruct Hrc as [-> _].
    unfold exit_log, exit_result.
    destruct (exit_err status) as [err|].
    + inversion H; subst. split; auto. repeat rewrite <- app_assoc. reflexivity.
    + destruct (exit_code status =? 0); simpl in H.
      * apply log_inv in H. destruct H as [-> ->]. split; auto.
        repeat rewrite <- app_assoc. reflexivity.
      * unfold bind, log, call, fail in H. inversion H; subst. split; auto.
        repeat rewrite <- app_assoc. reflexivity.
  - left. inversion H; subst. split; auto.
    repeat rewrite <- app_assoc. rewrite app_nil_r. reflexivity.
Qed.

End RunPaths.

Section RunEnds.

Variable L : Lib.

Lemma exit_result_returns status : exit_result status <> Crash /\ exit_result status <> Blocked.
Proof.
  unfold exit_result. destruct (exit_err status); [split; discriminate | ].
  destruct (exit_code status =? 0); split; discriminate.
Qed.

(** Every run follows one of the paths. *)
Lemma Run_paths A r h : Run_path A r (fst (Run L A r h)) (snd (Run L A r h)).
Proof.
  rewrite Run_unfold.
  destruct (defer _ _ h) as [t res] eqn:HR. simpl.
  apply defer_inv in HR. destruct HR as (t0 & Hbody & Ht).
  assert (Hcancel : forall t', Forall (fun e => before_task_event e = true) t' ->
                               t = t' \/ t = t' ++ [EvCancel] ->
                               Forall (fun e => before_task_event e = true) t).
  { intros t' Hq [-> | ->]; auto. apply Forall_snoc; auto. }
  apply bind_inv in Hbody. destruct Hbody as [(t1 & [] & ta & H1 & H & ->) | (r1 & H1 & Hab)].
  2:{ apply wrap_err_inv in H1. destruct H1 as (r0 & H1 & ->).
      pose proof (measurement_before_task L A r h) as Hq. rewrite H1 in Hq. simpl in Hq.
      apply path_before_task.
      - apply (Hcancel t0); auto. destruct Ht as [[-> _] | [-> _]]; auto.
      - pose proof (returns_measureContainerClaims L A r h) as He. rewrite H1 in He. simpl in He.
        destruct r0; try contradiction; inversion Hab; discriminate. }
  apply wrap_err_Ret in H1.
  pose proof (measurement_before_task L A r h) as Hq1. rewrite H1 in Hq1. simpl in Hq1.
  unfold after_measurement in H.
  apply bind_inv in H. destruct H as [(t2 & [] & tb & H2 & H & ->) | (r1 & H2 & Hab)].
  2:{ apply wrap_err_inv in H2. destruct H2 as (r0 & H2 & ->).
      pose proof (fetch_before_task L A r (h ++ t1)) as Hq. rewrite H2 in Hq. simpl in Hq.
      apply path_before_task.
      - apply (Hcancel (t1 ++ ta)); [apply Forall_app; split; auto | ].
        destruct Ht as [[-> _] | [-> _]]; auto.
      - destruct r0; inversion Hab; discriminate. }
  apply wrap_err_Ret in H2.
  pose proof (fetch_before_task L A r (h ++ t1)) as Hq2. rewrite H2 in Hq2. simpl in Hq2.
  apply bind_inv in H. destruct H as [(lg & [] & tc & Hlg & H & ->) | (r1 & Hlg & Hab)].
  2:{ exfalso. revert Hlg. destruct (LogRedirect (launchSpec r)); intros Hlg;
      apply log_inv in Hlg; destruct Hlg as [_ ->]; simpl in Hab; discriminate. }
  assert (Hqlg : Forall (fun e => before_task_event e = true) lg).
  { revert Hlg. destruct (LogRedirect (launchSpec r)); intros Hlg;
      apply log_inv in Hlg; destruct Hlg as [-> _]; repeat constructor. }
  clear Hlg.
  apply bind_inv in H. destruct H as [(y0 & [] & td & Hy0 & H & ->) | (r1 & Hy0 & Hab)].
  2:{ apply (yield_inv L _ _ _ _ _ _ _ refresh_before_task) in Hy0. destruct Hy0 as [Hq Hr].
      apply path_before_task.
      - apply (Hcancel (t1 ++ t2 ++ lg ++ tc)); [repeat (apply Forall_app; split); auto | ].
        destruct Ht as [[-> _] | [-> _]]; auto.
      - destruct r1; inversion Hab; discriminate. }
  apply (yield_inv L _ _ _ _ _ _ _ refresh_before_task) in Hy0. destruct Hy0 as [Hq0 _].
  assert (Hpre : Forall (fun e => before_task_event e = true) (t1 ++ t2 ++ lg ++ y0))
    by (repeat (apply Forall_app; split); auto).
  apply bind_inv in H. destruct H as [(nt & [] & te & Hnt & H & ->) | (r1 & Hnt & Hab)].
  2:{ apply wrap_err_inv in Hnt. destruct Hnt as (r0 & Hnt & ->).
      apply call_error_inv in Hnt. destruct Hnt as [-> ->].
      destruct (NewTask A) as [e|] eqn:Hnew; inversion Hab; subst.
      destruct Ht as [[-> [Hc | Hc]] | [-> _]]; try discriminate.
      replace ((t1 ++ t2 ++ lg ++ y0 ++ [EvNewTask (LogRedirect (launchSpec r))]) ++ [EvCancel])
        with ((t1 ++ t2 ++ lg ++ y0) ++ [EvNewTask (LogRedirect (launchSpec r)); EvCancel])
        by (repeat rewrite <- app_assoc; reflexivity).
      apply path_NewTask_failed; auto. }
  apply wrap_err_Ret in Hnt. apply call_error_Ret in Hnt. destruct Hnt as [Hnew ->].
  apply defer_inv in H. destruct H as (t6 & Hbodyt & Ht6).
  apply task_body_paths in Hbodyt.
  destruct Hbodyt as [(-> & Hq6 & Hlogged) | (q & Hq & Hlogged & Hcases)].
  - destruct Ht as [[-> _] | [_ [Hc _]]]; [ | congruence].
    destruct Ht6 as [[-> _] | [_ [Hc _]]]; [ | congruence].
    replace (t1 ++ t2 ++ lg ++ y0 ++ [EvNewTask (LogRedirect (launchSpec r))] ++ t6)
      with ((t1 ++ t2 ++ lg ++ y0) ++ [EvNewTask (LogRedirect (launchSpec r))] ++ t6)
      by (repeat rewrite <- app_assoc; reflexivity).
    apply path_crash_before_start; auto.
  - destruct Hcases as [(e & Hstart & -> & ->) | (Hstart & y & Hy & Hcases)].
    + destruct Ht as [[_ [Hc | Hc]] | [-> _]]; try discriminate.
      destruct Ht6 as [[_ [Hc | Hc]] | [-> _]]; try discriminate.
      replace ((t1 ++ t2 ++ lg ++ y0 ++ [EvNewTask (LogRedirect (launchSpec r))]
                  ++ (q ++ [EvTaskStart]) ++ [EvTaskDelete]) ++ [EvCancel])
        with ((t1 ++ t2 ++ lg ++ y0) ++ [EvNewTask (LogRedirect (launchSpec r))] ++ q
                ++ [EvTaskStart; EvTaskDelete; EvCancel])
        by (repeat rewrite <- app_assoc; reflexivity).
      apply path_Start_failed; auto.
    + destruct Hcases as [[-> Hres] | (status & Hexit & -> & ->)].
      * assert (Hcb : res = Crash \/ res = Blocked) by (destruct Hres as [? | [? _]]; auto).
        destruct Ht as [[-> _] | [_ [Hc1 Hc2]]]; [ | destruct Hcb; congruence].
        destruct Ht6 as [[-> _] | [_ [Hc1 Hc2]]]; [ | destruct Hcb; congruence].
        replace (t1 ++ t2 ++ lg ++ y0 ++ [EvNewTask (LogRedirect (launchSpec r))]
                   ++ q ++ [EvTaskStart] ++ y)
          with ((t1 ++ t2 ++ lg ++ y0) ++ [EvNewTask (LogRedirect (launchSpec r))] ++ q
                  ++ [EvTaskStart] ++ y)
          by (repeat rewrite <- app_assoc; reflexivity).
        apply path_started; auto.
      * destruct (exit_result_returns status) as [Hn1 Hn2].
        destruct Ht as [[_ [Hc | Hc]] | [-> _]]; try congruence.
        destruct Ht6 as [[_ [Hc | Hc]] | [-> _]]; try congruence.
        replace ((t1 ++ t2 ++ lg ++ y0 ++ [EvNewTask (LogRedirect (launchSpec r))]
                    ++ (q ++ [EvTaskStart] ++ y ++ [EvRecv] ++ exit_log status)
                    ++ [EvTaskDelete]) ++ [EvCancel])
          with ((t1 ++ t2 ++ lg ++ y0) ++ [EvNewTask (LogRedirect (launchSpec r))] ++ q
                  ++ [EvTaskStart] ++ y ++ [EvRecv] ++ exit_log status
                  ++ [EvTaskDelete; EvCancel])
          by (repeat rewrite <- app_assoc; reflexivity).
        apply path_exited; auto.
Qed.

End RunEnds.

(** ** Errors of the task operations and exit codes *)

Section TaskErrors.

Lemma existsb_class (p c : Event -> bool) t :
  (forall e, c e = true -> p e = false) ->
  Forall (fun e => c e = true) t -> existsb p t = false.
Proof.
  intros Hc H. apply existsb_none. eapply Forall_impl; [ | exact H]. exact Hc.
Qed.

Lemma before_task_not_task e :
  before_task_event e = true ->
  is_new_task e = false /\ is_task_start e = false /\ is_task_wait e = false /\ is_recv e = false.
Proof. destruct e; simpl; intros H; try discriminate; auto. Qed.

Lemma waiting_not_task e :
  waiting_event e = true ->
  is_new_task e = false /\ is_task_start e = false /\ is_recv e = false.
Proof. destruct e; simpl; intros H; try discriminate; auto. Qed.

Lemma refresh_not_task e :
  refresh_event e = true ->
  is_new_task e = false /\ is_task_start e = false /\ is_task_wait e = false /\ is_recv e = false.
Proof. destruct e; simpl; intros H; try discriminate; auto. Qed.

End TaskErrors.

(** Rewrites the search for a call of one class in the calls of a path. *)
Ltac path_search :=
  unfold task_created, task_started in *;
  repeat rewrite existsb_app in *;
  repeat match goal with
         | Hq : Forall (fun e => before_task_event e = true) ?t |- _ =>
             rewrite ?(existsb_class is_new_task _ t (fun e H => proj1 (before_task_not_task e H)) Hq),
               ?(existsb_class is_task_start _ t (fun e H => proj1 (proj2 (before_task_not_task e H))) Hq),
               ?(existsb_class is_task_wait _ t (fun e H => proj1 (proj2 (proj2 (before_task_not_task e H)))) Hq),
               ?(existsb_class is_recv _ t (fun e H => proj2 (proj2 (proj2 (before_task_not_task e H)))) Hq) in *;
             clear Hq
         | Hq : Forall (fun e => waiting_event e = true) ?t |- _ =>
             rewrite ?(existsb_class is_new_task _ t (fun e H => proj1 (waiting_not_task e H)) Hq),
               ?(existsb_class is_task_start _ t (fun e H => proj1 (proj2 (waiting_not_task e H))) Hq),
               ?(existsb_class is_recv _ t (fun e H => proj2 (proj2 (waiting_not_task e H))) Hq) in *;
             clear Hq
         | Hq : Forall (fun e => refresh_event e = true) ?t |- _ =>
             rewrite ?(existsb_class is_new_task _ t (fun e H => proj1 (refresh_not_task e H)) Hq),
               ?(existsb_class is_task_start _ t (fun e H => proj1 (proj2 (refresh_not_task e H))) Hq),
               ?(existsb_class is_task_wait _ t (fun e H => proj1 (proj2 (proj2 (refresh_not_task e H)))) Hq),
               ?(existsb_class is_recv _ t (fun e H => proj2 (proj2 (proj2 (refresh_not_task e H)))) Hq) in *;
             clear Hq
         end;
  simpl in *.

(** C6, as the code has it. In [Run], an error of the creation of the task
    and an error of the start of the task are returned wrapped in a
    [RetryableError]. An error of [task.Wait] is not returned: it is
    logged, and the run goes on to start the task. Once an exit status is
    received, an error it carries is returned as it is, a nonzero exit code
    is returned as a [WorkloadError] with that code, and the exit code zero
    makes [Run] return without error. *)
Theorem Run_task_errors_and_exit_code L A r h :
  (forall e, task_created (fst (Run L A r h)) = true -> NewTask A = Some e ->
             snd (Run L A r h) = Fail (RetryableError e)) /\
  (forall e, task_started (fst (Run L A r h)) = true -> task_Start A = Some e ->
             snd (Run L A r h) = Fail (RetryableError e)) /\
  (forall e, existsb is_task_wait (fst (Run L A r h)) = true -> task_Wait A = Some e ->
             In (EvLog "task wait error") (fst (Run L A r h)) /\
             (task_started (fst (Run L A r h)) = true \/ snd (Run L A r h) = Crash)) /\
  (forall status, existsb is_recv (fst (Run L A r h)) = true ->
                  exitStatusC A = Some status ->
                  snd (Run L A r h) =
                    match exit_err status with
                    | Some err => Fail err
                    | None =>
                        if exit_code status =? 0 then Ret tt
                        else Fail (WorkloadError (exit_code status))
                    end).
Proof.
  pose proof (Run_paths L A r h) as Hp.
  destruct (Run L A r h) as [t res]. simpl in *.
  split; [ | split; [ | split ] ].
  - intros e Hc Hnew. inversion Hp; subst; path_search; try discriminate; congruence.
  - intros e Hc Hst. inversion Hp; subst; path_search; try discriminate; congruence.
  - intros e Hw Hwait.
    inversion Hp; subst;
      try (exfalso; path_search; discriminate);
      (assert (Hin : In (EvLog "task wait error") q) by (path_search; eauto));
      (split; [ rewrite !in_app_iff; tauto | ]).
    + right; reflexivity.
    + left. path_search. reflexivity.
    + left. path_search. reflexivity.
    + left. path_search. reflexivity.
  - intros status Hc Hex. inversion Hp; subst; path_search; try discriminate.
    assert (status0 = status) by congruence. subst. reflexivity.
Qed.

(** ** Expired tokens *)

Definition is_attest (e : Event) : bool :=
  match e with EvAttest => true | _ => false end.

(** A call on a file. *)
Definition file_call (e : Event) : bool :=
  match e with
  | EvOpenFile _ _ _ | EvWrite _ _ | EvClose _ => true
  | _ => false
  end.

Section Expired.

Variable L : Lib.

Lemma refreshToken_expired RA r token expiresAt h :
  Attest RA = Ok token ->
  ParseRegistered L token = Ok {| ExpiresAt := Some expiresAt |} ->
  expiresAt <= Now RA ->
  refreshToken L RA r h =
    ([EvLog "refreshing attestation verifier OIDC token"; EvAttest; EvNow],
     Fail (errors_New "token is expired")).
Proof.
  intros Ha Hp Hle.
  unfold refreshToken, bind, wrap_err, call_result, call, pure_result, deref, log, fail.
  rewrite Ha. simpl. rewrite Hp. simpl.
  assert (Hlt : (Now RA <? expiresAt) = false) by (apply Z.ltb_ge; exact Hle).
  rewrite Hlt. reflexivity.
Qed.

(** A run whose first refresh returns an error returns an error. *)
Lemma Run_first_refresh_fails A r h tr e :
  (forall h', refreshToken L (first_refresh A) r h' = (tr, Fail e)) ->
  (exists e', snd (Run L A r h) = Fail e') /\
  (existsb is_attest (fst (Run L A r h)) = true ->
   snd (Run L A r h) = Fail (Errorf_v "failed to fetch and write OIDC token: %v" e)).
Proof.
  intros Hfail. rewrite Run_unfold.
  destruct (defer _ _ h) as [t res] eqn:HR. simpl.
  apply defer_inv in HR. destruct HR as (t0 & Hbody & Ht).
  apply bind_inv in Hbody. destruct Hbody as [(t1 & [] & ta & H1 & H & ->) | (r1 & H1 & Hab)].
  - apply wrap_err_Ret in H1.
    assert (Hna : existsb is_attest t1 = false).
    { pose proof (emits_measureContainerClaims L (fun e => is_attest e = false) A r
                    eq_refl eq_refl eq_refl (fun _ _ => eq_refl) h) as Hq.
      rewrite H1 in Hq. apply existsb_none. exact Hq. }
    unfold after_measurement in H.
    apply bind_inv in H. destruct H as [(t2 & [] & tb & H2 & H & ->) | (r1 & H2 & Hab)].
    + exfalso. apply wrap_err_Ret in H2.
      unfold fetchAndWriteToken, fetchAndWriteTokenWithRetry in H2.
      bind_inv H2 t3 u3 H3. bind_inv H2 t4 d H4. rewrite Hfail in H4. discriminate.
    + apply wrap_err_inv in H2. destruct H2 as (r0 & H2 & ->).
      unfold fetchAndWriteToken, fetchAndWriteTokenWithRetry in H2.
      apply bind_inv in H2. destruct H2 as [(t3 & [] & tc & H3 & H2 & ->) | (r2 & H3 & Hab2)].
      * apply bind_inv in H2. destruct H2 as [(t4 & d & td & H4 & H2 & ->) | (r3 & H4 & Hab3)].
        { rewrite Hfail in H4. discriminate. }
        rewrite Hfail in H4. inversion H4; subst. inversion Hab3; subst. inversion Hab; subst.
        split; eauto.
      * apply call_error_inv in H3. destruct H3 as [-> ->].
        destruct (MkdirAll A) as [e0|]; inversion Hab2; subst. inversion Hab; subst.
        split; eauto. intros Hat. exfalso.
        destruct Ht as [[-> _] | [-> _]]; rewrite ?existsb_app, Hna in Hat; simpl in Hat;
          discriminate.
  - apply wrap_err_inv in H1. destruct H1 as (r0 & H1 & ->).
    pose proof (returns_measureContainerClaims L A r h) as He. rewrite H1 in He. simpl in He.
    destruct r0; try contradiction; inversion Hab; subst.
    split; eauto. intros Hat. exfalso.
    pose proof (emits_measureContainerClaims L (fun e => is_attest e = false) A r
                  eq_refl eq_refl eq_refl (fun _ _ => eq_refl) h) as Hq.
    rewrite H1 in Hq. simpl in Hq. apply existsb_none in Hq.
    destruct Ht as [[-> _] | [-> _]]; rewrite ?existsb_app, Hq in Hat; simpl in Hat;
      discriminate.
Qed.

End Expired.

(** C3. When the verifier returns a token whose [exp] is not strictly after
    the current time, the refresh returns the error "token is expired" and
    makes no call on any file, so that the token file is as before. When
    this is the first, synchronous refresh of [Run], then [Run] returns an
    error, the error of the refresh wrapped as a failure to fetch the token
    once the attestation was reached, and the container task is neither
    created nor started. *)
Theorem expired_token_is_refused L RA r token expiresAt :
  Attest RA = Ok token ->
  ParseRegistered L token = Ok {| ExpiresAt := Some expiresAt |} ->
  expiresAt <= Now RA ->
  (forall h,
     snd (refreshToken L RA r h) = Fail (errors_New "token is expired") /\
     existsb file_call (fst (refreshToken L RA r h)) = false /\
     forall f, file_after tokenFile f (fst (refreshToken L RA r h)) = f) /\
  (forall A h,
     first_refresh A = RA ->
     (exists e, snd (Run L A r h) = Fail e) /\
     (existsb is_attest (fst (Run L A r h)) = true ->
      snd (Run L A r h) =
        Fail (Errorf_v "failed to fetch and write OIDC token: %v"
                (errors_New "token is expired"))) /\
     task_created (fst (Run L A r h)) = false /\
     task_started (fst (Run L A r h)) = false).
Proof.
  intros Ha Hp Hle. split.
  - intros h. rewrite (refreshToken_expired L RA r token expiresAt h Ha Hp Hle).
    simpl. repeat split; reflexivity.
  - intros A h HA. subst RA.
    destruct (Run_first_refresh_fails L A r h _ _
                (fun h' => refreshToken_expired L _ r token expiresAt h' Ha Hp Hle))
      as [Hex Hat].
    split; [exact Hex | ]. split; [exact Hat | ].
    destruct (task_created (fst (Run L A r h))) eqn:Hc.
    + exfalso. destruct (Run_task_after_refresh L A r h (or_introl Hc))
        as (pre & tr & d & post & _ & Hr & _).
      rewrite (refreshToken_expired L _ r token expiresAt _ Ha Hp Hle) in Hr. discriminate.
    + split; [reflexivity | ].
      destruct (task_started (fst (Run L A r h))) eqn:Hst; [ | reflexivity ].
      exfalso. destruct (Run_task_after_refresh L A r h (or_intror Hst))
        as (pre & tr & d & post & _ & Hr & _).
      rewrite (refreshToken_expired L _ r token expiresAt _ Ha Hp Hle) in Hr. discriminate.
Qed.

(** ** The token file during and after a refresh *)

(** The states of the file [name] a reader may see while the calls of [t]
    are made: its state after each of them. *)
Definition file_states (name : string) (f : option File) (t : list Event) : list (option File) :=
  map (fun k => file_after name f (firstn k t)) (seq 0 (S (List.length t))).

(** The mode of a file that is opened with [O_CREATE] and permission
    [perm]. *)
Definition mode_after_open (f : option File) (perm : Z) : Z :=
  match f with Some old => mode old | None => perm end.

Section TokenFile.

Variable L : Lib.

Lemma refreshToken_write_failed RA r h token expiresAt n e :
  Attest RA = Ok token ->
  ParseRegistered L token = Ok {| ExpiresAt := Some expiresAt |} ->
  Now RA < expiresAt ->
  OpenFile (WriteFile RA) = None ->
  Write (WriteFile RA) = Some (n, e) ->
  snd (refreshToken L RA r h) =
    Fail (Errorf_v "failed to write token to container mount source point: %v" e) /\
  forall f, file_after tokenFile f (fst (refreshToken L RA r h)) =
            Some {| content := substring 0 n token; mode := mode_after_open f 420 |}.
Proof.
  intros Ha Hp Hlt Ho Hw.
  unfold refreshToken, os_WriteFile, bind, wrap_err, call_result, call_error, call,
    pure_result, pure_error, deref, log, fail, ret.
  rewrite Ha. simpl. rewrite Hp. simpl.
  apply Z.ltb_lt in Hlt. rewrite Hlt. simpl. rewrite Ho, Hw. simpl.
  split; [reflexivity | ]. intros f. destruct f; reflexivity.
Qed.

Lemma refreshToken_fails_after_write RA r h token expiresAt :
  Attest RA = Ok token ->
  ParseRegistered L token = Ok {| ExpiresAt := Some expiresAt |} ->
  Now RA < expiresAt ->
  OpenFile (WriteFile RA) = None -> Write (WriteFile RA) = None -> Close (WriteFile RA) = None ->
  (exists e, ParseMap L token = Err e) \/
  (exists mapClaims e, ParseMap L token = Ok mapClaims /\ MarshalIndent L mapClaims = Err e) ->
  (exists e, snd (refreshToken L RA r h) = Fail e) /\
  forall f, file_after tokenFile f (fst (refreshToken L RA r h)) =
            Some {| content := token; mode := mode_after_open f 420 |}.
Proof.
  intros Ha Hp Hlt Ho Hw Hc Hlater.
  unfold refreshToken, os_WriteFile, bind, wrap_err, call_result, call_error, call,
    pure_result, pure_error, deref, log, fail, ret.
  rewrite Ha. simpl. rewrite Hp. simpl.
  apply Z.ltb_lt in Hlt. rewrite Hlt. simpl. rewrite Ho, Hw, Hc. simpl.
  destruct Hlater as [(e & Hm) | (mc & e & Hm & Hj)].
  - rewrite Hm. simpl. split; [eexists; reflexivity | ]. intros f. destruct f; reflexivity.
  - rewrite Hm. simpl. rewrite Hj. simpl.
    split; [eexists; reflexivity | ]. intros f. destruct f; reflexivity.
Qed.

End TokenFile.

(** C9, as the code has it. A refresh that succeeds makes exactly three
    calls on files: it opens the token file
    [/tmp/container_launcher/attestation_verifier_claims_token] for writing
    with truncation and permission 0644, writes the token, and closes the
    file; afterwards the file holds the token, with mode 0644 if this
    refresh created it and with its former mode otherwise. The file is
    overwritten in place: between the open and the write a reader sees
    the file empty. *)
Theorem token_file_is_overwritten_in_place L RA r h t d :
  refreshToken L RA r h = (t, Ret d) ->
  exists token,
    Attest RA = Ok token /\
    tokenFile = "/tmp/container_launcher/attestation_verifier_claims_token" /\
    filter file_call t =
      [EvOpenFile tokenFile 420 true; EvWrite tokenFile token; EvClose tokenFile] /\
    420 = 6 * 8 * 8 + 4 * 8 + 4 /\
    forall f,
      file_after tokenFile f t =
        Some {| content := token; mode := mode_after_open f 420 |} /\
      In (Some {| content := ""; mode := mode_after_open f 420 |})
         (file_states tokenFile f t).
Proof.
  intros H.
  destruct (refreshToken_Ret _ _ _ _ _ _ H)
    as (token & claims & expiresAt & mc & cs & Ha & _ & _ & _ & _ & _ & _ & _ & _ & -> & _).
  exists token. split; [exact Ha | ]. do 3 (split; [reflexivity | ]).
  intros f. split.
  - destruct f; reflexivity.
  - unfold file_states, refresh_calls. simpl.
    do 4 right. left. destruct f; reflexivity.
Qed.

(** ** Construction of the runner *)

Definition is_container_spec (e : Event) : bool :=
  match e with EvContainerSpec => true | _ => false end.

Definition is_hostname (e : Event) : bool :=
  match e with EvHostname => true | _ => false end.

(** A body that makes a call of the class [p] only in its continuation has
    got through its first step. *)
Lemma bind_reach {A B} (p : Event -> bool) (m : M A) (f : A -> M B) h :
  emits (fun e => p e = false) m ->
  existsb p (fst (bind m f h)) = true ->
  exists t a,
    m h = (t, Ret a) /\
    fst (bind m f h) = t ++ fst (f a (h ++ t)) /\
    snd (bind m f h) = snd (f a (h ++ t)) /\
    existsb p (fst (f a (h ++ t))) = true.
Proof.
  intros Hm. unfold bind. specialize (Hm h). destruct (m h) as [t r]. simpl in Hm.
  apply existsb_none in Hm.
  destruct r; simpl; intros H; try (rewrite Hm in H; discriminate).
  exists t, a. destruct (f a (h ++ t)) as [t' r']. simpl in *.
  rewrite existsb_app, Hm in H. auto.
Qed.

Section Construction.

Variable L : Lib.

(** What [NewRunner] does from the creation of the container on. *)
Definition NewRunner_create (A : NewRunnerAnswers) (lspec : LaunchSpec)
    (image : Image) (envs : list string) (hostname : string) : M ContainerRunner :=
  let opts := [ WithImage image;
                WithNewSnapshot snapshotID image;
                WithNewSpec [ WithImageConfigArgs image (Cmd lspec);
                              WithEnv envs;
                              WithMounts (appendTokenMounts []);
                              WithHostHostsFile;
                              WithHostResolvconf;
                              WithHostNamespace NetworkNamespace;
                              WithEnv [("HOSTNAME=" ++ hostname)%string] ] ] in
  match NewContainer A with
  | CreateFailed leftover err =>
      call (EvNewContainer containerID opts leftover) tt ;;
      (if leftover then call (EvContainerDelete containerID (Delete_leftover A)) tt else ret tt) ;;
      fail (RetryableError (Errorf_w "failed to create a container: [%w]" err))
  | Created =>
      call (EvNewContainer containerID opts true) tt ;;
      containerSpec <- wrap_err RetryableError
                         (call_result EvContainerSpec (new_container_Spec A)) ;;
      if (List.length (Process_Args containerSpec) <=? List.length (Cmd lspec))%nat then
        fail (Errorf_dd "length of Args [%d] is shorter or equal to the length of the given Cmd [%d], maybe the Entrypoint is set to empty in the image?"
                (List.length (Process_Args containerSpec)) (List.length (Cmd lspec)))
      else
        let asAddr := AttestationServiceAddr lspec in
        verifierClient <- wrap_err (Errorf_v "failed to create REST verifier client: %v")
                            (getRESTClient A asAddr) ;;
        call EvCreateAttestationAgent tt ;;
        ret {| container := containerID;
               launchSpec := lspec;
               attestAgent := {| agent_key := "GceAttestationKeyECC";
                                 agent_verifier := verifierClient;
                                 agent_principals := ImpersonateServiceAccounts lspec |} |}
  end.

(** What [NewRunner] does once it has tried to read the image labels. *)
Definition NewRunner_from_labels (A : NewRunnerAnswers) (lspec : LaunchSpec)
    (image : Image) (envs : list string) (labels : result (list (string * string)))
    : M ContainerRunner :=
  imageLabels <- match labels with
                 | Ok l => ret l
                 | Err _ => log "Failed to get image OCI labels" ;; ret []
                 end ;;
  log "Image Labels" ;;
  launchPolicy <- pure_result (GetLaunchPolicy L imageLabels) ;;
  pure_error (Verify L launchPolicy lspec) ;;
  imageConfig <- catch (call_result EvImageConfig (image_Config A)) ;;
  match imageConfig with
  | Err _ => log "image config error"
  | Ok _ => log "Image ID" ;; log "Image Annotations"
  end ;;
  hostname <- wrap_err (fun err => RetryableError (Errorf_w "cannot get hostname: [%w]" err))
                (call_result EvHostname (Hostname A)) ;;
  NewRunner_create A lspec image envs hostname.

Lemma NewRunner_unfold A lspec :
  NewRunner L A lspec =
  (image <- initImage A lspec ;;
   envs <- pure_result (formatEnvVars L (Envs lspec)) ;;
   loaded <- catch (call_error (EvLoadContainer containerID) (LoadContainer A)) ;;
   match loaded with
   | Ok _ => call (EvContainerDelete containerID (Delete_loaded A)) tt
   | Err _ => ret tt
   end ;;
   log "Operator Input Image Ref" ;;
   log "Image Digest" ;;
   log "Operator Override Env Vars" ;;
   log "Operator Override Cmd" ;;
   labels <- catch (getImageLabels L A) ;;
   NewRunner_from_labels A lspec image envs labels).
Proof. reflexivity. Qed.

(** Takes [H : existsb p (fst (bind m f h)) = true] through the first step
    [m], which makes no call of the class [p]. *)
Ltac reach H :=
  apply bind_reach in H;
  [ let t := fresh "t" in
    let a := fresh "a" in
    let Hm := fresh "Hm" in
    let Hf := fresh "Hf" in
    let Hs := fresh "Hs" in
    destruct H as (t & a & Hm & Hf & Hs & H);
    rewrite Hf, Hs; clear Hf Hs; cbv beta in H |- *
  | solve [unfold initImage, getImageLabels; emits_tac] ].

Lemma NewRunner_reaches_create A lspec h :
  existsb is_container_spec (fst (NewRunner L A lspec h)) = true ->
  exists pre image envs hostname,
    fst (NewRunner L A lspec h) =
      pre ++ fst (NewRunner_create A lspec image envs hostname (h ++ pre)) /\
    snd (NewRunner L A lspec h) = snd (NewRunner_create A lspec image envs hostname (h ++ pre)) /\
    existsb is_container_spec
      (fst (NewRunner_create A lspec image envs hostname (h ++ pre))) = true.
Proof.
  intros H. rewrite NewRunner_unfold in *.
  do 9 reach H. unfold NewRunner_from_labels in *. do 7 reach H.
  repeat rewrite <- app_assoc.
  match goal with
  | |- context [NewRunner_create A lspec ?i ?e ?hn ?hh] =>
      exists (t ++ t0 ++ t1 ++ t2 ++ t3 ++ t4 ++ t5 ++ t6 ++ t7 ++ t8 ++ t9 ++ t10 ++ t11
                ++ t12 ++ t13 ++ t14), i, e, hn
  end.
  repeat rewrite <- app_assoc in *. repeat split; try reflexivity. exact H.
Qed.

End Construction.

Section ConstructionErrors.

Variable L : Lib.

Lemma container_exists_app id b t1 t2 :
  container_exists id b (t1 ++ t2) = container_exists id (container_exists id b t1) t2.
Proof. unfold container_exists. apply fold_left_app. Qed.

(** [NewRunner] from the creation of the container on, when the spec of
    the new container has too few arguments. *)
Lemma NewRunner_create_short_args A lspec image envs hostname h spec :
  existsb is_container_spec (fst (NewRunner_create A lspec image envs hostname h)) = true ->
  new_container_Spec A = Ok spec ->
  (List.length (Process_Args spec) <= List.length (Cmd lspec))%nat ->
  exists opts,
    NewRunner_create A lspec image envs hostname h =
      ([EvNewContainer containerID opts true; EvContainerSpec],
       Fail (Errorf_dd "length of Args [%d] is shorter or equal to the length of the given Cmd [%d], maybe the Entrypoint is set to empty in the image?"
               (List.length (Process_Args spec)) (List.length (Cmd lspec)))).
Proof.
  intros Hs Hspec Hlen. apply Nat.leb_le in Hlen. revert Hs.
  unfold NewRunner_create, bind, wrap_err, call, call_result, fail, ret.
  destruct (NewContainer A) as [|leftover err].
  - rewrite Hspec. cbv beta iota zeta. rewrite Hlen. intros _. eexists. reflexivity.
  - destruct leftover; cbn [fst existsb is_container_spec app orb]; discriminate.
Qed.

Lemma getImageLabels_unknown_media_type A ic h :
  labels_Config A = Ok ic ->
  MediaType ic <> MediaTypeImageConfig ->
  MediaType ic <> MediaTypeDockerSchema2Config ->
  getImageLabels L A h =
    ([EvImageConfig], Fail (Errorf_s "unknown image config media type %s" (MediaType ic))).
Proof.
  intros Hc H1 H2. unfold getImageLabels, bind, call_result, fail. rewrite Hc.
  apply String.eqb_neq in H1, H2. cbv beta iota zeta. rewrite H1, H2. reflexivity.
Qed.

(** A step that returns lets the body go on. *)
Lemma bind_run {A B} (m : M A) (f : A -> M B) h t a :
  m h = (t, Ret a) ->
  bind m f h = (t ++ fst (f a (h ++ t)), snd (f a (h ++ t))).
Proof. intros H. unfold bind. rewrite H. destruct (f a (h ++ t)); reflexivity. Qed.

Lemma bind_stop {A B} (m : M A) (f : A -> M B) h t e :
  m h = (t, Fail e) -> bind m f h = (t, Fail e).
Proof. intros H. unfold bind. rewrite H. reflexivity. Qed.

(** [NewRunner] once the reading of the labels has failed: the failure is
    logged and the launch policy is derived from no labels. *)
Lemma NewRunner_from_labels_failed A lspec image envs e h :
  In (EvLog "Failed to get image OCI labels")
     (fst (NewRunner_from_labels L A lspec image envs (Err e) h)) /\
  (forall e', GetLaunchPolicy L [] = Err e' ->
     snd (NewRunner_from_labels L A lspec image envs (Err e) h) = Fail e') /\
  (forall policy e', GetLaunchPolicy L [] = Ok policy -> Verify L policy lspec = Some e' ->
     snd (NewRunner_from_labels L A lspec image envs (Err e) h) = Fail e') /\
  (forall policy, GetLaunchPolicy L [] = Ok policy -> Verify L policy lspec = None ->
     existsb is_hostname (fst (NewRunner_from_labels L A lspec image envs (Err e) h)) = true).
Proof.
  unfold NewRunner_from_labels.
  rewrite (bind_run _ _ h [EvLog "Failed to get image OCI labels"] []) by reflexivity.
  rewrite (bind_run _ _ _ [EvLog "Image Labels"] tt) by reflexivity.
  cbv beta. split; [left; reflexivity | ].
  split; [ | split ].
  - intros e' Hg. rewrite (bind_stop _ _ _ [] e'); [reflexivity | ].
    unfold pure_result. rewrite Hg. reflexivity.
  - intros policy e' Hg Hv.
    rewrite (bind_run _ _ _ [] policy) by (unfold pure_result; rewrite Hg; reflexivity).
    rewrite (bind_stop _ _ _ [] e'); [reflexivity | ].
    unfold pure_error. rewrite Hv. reflexivity.
  - intros policy Hg Hv.
    rewrite (bind_run _ _ _ [] policy) by (unfold pure_result; rewrite Hg; reflexivity).
    rewrite (bind_run _ _ _ [] tt) by (unfold pure_error; rewrite Hv; reflexivity).
    cbv beta.
    assert (Hrest : forall h',
      existsb is_hostname
        (fst ((imageConfig <- catch (call_result EvImageConfig (image_Config A)) ;;
               match imageConfig with
               | Err _ => log "image config error"
               | Ok _ => log "Image ID" ;; log "Image Annotations"
               end ;;
               hostname <- wrap_err (fun err => RetryableError (Errorf_w "cannot get hostname: [%w]" err))
                             (call_result EvHostname (Hostname A)) ;;
               NewRunner_create A lspec image envs hostname) h')) = true).
    { intros h'.
      destruct (image_Config A) as [ic|e0] eqn:Hic.
      - rewrite (bind_run _ _ _ [EvImageConfig] (Ok ic))
          by reflexivity.
        rewrite (bind_run _ _ _ [EvLog "Image ID"; EvLog "Image Annotations"] tt)
          by reflexivity.
        destruct (Hostname A) as [hn|e1] eqn:Hhn.
        + rewrite (bind_run _ _ _ [EvHostname] hn)
            by reflexivity.
          cbn [fst]. rewrite !existsb_app. cbn [existsb is_hostname orb]. reflexivity.
        + rewrite (bind_stop _ _ _ [EvHostname]
                     (RetryableError (Errorf_w "cannot get hostname: [%w]" e1)))
            by reflexivity.
          reflexivity.
      - rewrite (bind_run _ _ _ [EvImageConfig] (Err e0))
          by reflexivity.
        rewrite (bind_run _ _ _ [EvLog "image config error"] tt) by reflexivity.
        destruct (Hostname A) as [hn|e1] eqn:Hhn.
        + rewrite (bind_run _ _ _ [EvHostname] hn)
            by reflexivity.
          cbn [fst]. rewrite !existsb_app. cbn [existsb is_hostname orb]. reflexivity.
        + rewrite (bind_stop _ _ _ [EvHostname]
                     (RetryableError (Errorf_w "cannot get hostname: [%w]" e1)))
            by reflexivity.
          reflexivity. }
    cbn [fst snd app existsb is_hostname orb]. apply Hrest.
Qed.

End ConstructionErrors.

(** C5, as the code has it. When [NewRunner] has created the container and
    fetched its spec, and the spec has no more process arguments than the
    operator's [Cmd] has elements, then [NewRunner] returns an error that
    neither is nor wraps a [RetryableError], and the fetch of the spec is
    its last call: the container it created is not deleted and stays in
    containerd. *)
Theorem missing_entrypoint_fails_construction L A lspec h spec :
  existsb is_container_spec (fst (NewRunner L A lspec h)) = true ->
  new_container_Spec A = Ok spec ->
  (List.length (Process_Args spec) <= List.length (Cmd lspec))%nat ->
  (exists e, snd (NewRunner L A lspec h) = Fail e /\
             e = Errorf_dd "length of Args [%d] is shorter or equal to the length of the given Cmd [%d], maybe the Entrypoint is set to empty in the image?"
                   (List.length (Process_Args spec)) (List.length (Cmd lspec)) /\
             is_RetryableError e = false /\ as_RetryableError e = false) /\
  (exists pre opts,
     fst (NewRunner L A lspec h) = pre ++ [EvNewContainer containerID opts true; EvContainerSpec]) /\
  forall b, container_exists containerID b (fst (NewRunner L A lspec h)) = true.
Proof.
  intros Hs Hspec Hlen.
  destruct (NewRunner_reaches_create L A lspec h Hs)
    as (pre & image & envs & hostname & Hf & Hr & Hs').
  destruct (NewRunner_create_short_args A lspec image envs hostname (h ++ pre) spec Hs' Hspec Hlen)
    as (opts & Hc).
  rewrite Hc in Hf, Hr. simpl in Hf, Hr. rewrite Hf, Hr.
  split; [eexists; repeat split; reflexivity | ].
  split; [exists pre, opts; reflexivity | ].
  intros b. rewrite container_exists_app. reflexivity.
Qed.

Section LabelsFailure.

Variable L : Lib.

Lemma bind_run_fst {A B} (m : M A) (f : A -> M B) h t a :
  m h = (t, Ret a) -> fst (bind m f h) = t ++ fst (f a (h ++ t)).
Proof. intros H. rewrite (bind_run _ _ _ _ _ H). reflexivity. Qed.

Lemma bind_run_snd {A B} (m : M A) (f : A -> M B) h t a :
  m h = (t, Ret a) -> snd (bind m f h) = snd (f a (h ++ t)).
Proof. intros H. rewrite (bind_run _ _ _ _ _ H). reflexivity. Qed.

(** [NewRunner] up to the reading of the labels, when the image is pulled
    and the environment overrides are well formed. *)
Lemma NewRunner_reaches_labels A lspec image envs h l :
  Pull A = Ok image ->
  formatEnvVars L (Envs lspec) = Ok envs ->
  (forall h', exists t, catch (getImageLabels L A) h' = (t, Ret l)) ->
  exists pre,
    fst (NewRunner L A lspec h) =
      pre ++ fst (NewRunner_from_labels L A lspec image envs l (h ++ pre)) /\
    snd (NewRunner L A lspec h) =
      snd (NewRunner_from_labels L A lspec image envs l (h ++ pre)).
Proof.
  intros Hpull Henvs Hlabels. rewrite NewRunner_unfold.
  assert (Himg : exists b, initImage A lspec h = ([EvPull (ImageRef lspec) b], Ret image)).
  { unfold initImage, wrap_err, call_result. rewrite Hpull.
    destruct (token_Valid A); eexists; reflexivity. }
  destruct Himg as (b & Himg).
  rewrite (bind_run_fst _ _ _ _ _ Himg), (bind_run_snd _ _ _ _ _ Himg). cbv beta.
  assert (Hfmt : forall h', pure_result (formatEnvVars L (Envs lspec)) h' = ([], Ret envs))
    by (intros; unfold pure_result; rewrite Henvs; reflexivity).
  rewrite (bind_run_fst _ _ _ _ _ (Hfmt _)), (bind_run_snd _ _ _ _ _ (Hfmt _)). cbv beta.
  assert (Hload : forall h', exists t loaded,
            catch (call_error (EvLoadContainer containerID) (LoadContainer A)) h' = (t, Ret loaded)).
  { intros h'. unfold catch, call_error. destruct (LoadContainer A); eexists; eexists; reflexivity. }
  destruct (Hload ((h ++ [EvPull (ImageRef lspec) b]) ++ [])) as (t1 & loaded & Hl).
  rewrite (bind_run_fst _ _ _ _ _ Hl), (bind_run_snd _ _ _ _ _ Hl). cbv beta.
  assert (Hdel : forall h', exists t,
            match loaded with
            | Ok _ => call (EvContainerDelete containerID (Delete_loaded A)) tt
            | Err _ => ret tt
            end h' = (t, Ret tt)).
  { intros h'. destruct loaded; eexists; reflexivity. }
  match goal with
  | |- context [bind _ _ ?hh] => destruct (Hdel hh) as (t2 & Hd)
  end.
  rewrite (bind_run_fst _ _ _ _ _ Hd), (bind_run_snd _ _ _ _ _ Hd). cbv beta.
  do 4 (rewrite (bind_run_fst _ _ _ _ tt (eq_refl : log _ _ = ([EvLog _], Ret tt))),
          (bind_run_snd _ _ _ _ tt (eq_refl : log _ _ = ([EvLog _], Ret tt))); cbv beta).
  match goal with
  | |- context [bind _ _ ?hh] => destruct (Hlabels hh) as (t3 & Hlab)
  end.
  rewrite (bind_run_fst _ _ _ _ _ Hlab), (bind_run_snd _ _ _ _ _ Hlab). cbv beta.
  repeat rewrite <- app_assoc.
  match goal with
  | |- context [NewRunner_from_labels L A lspec image envs l (h ++ ?p)] => exists p
  end.
  repeat rewrite <- app_assoc. split; reflexivity.
Qed.

End LabelsFailure.

(** C8, as the code has it. Reading the image labels fails with an
    unknown-media-type error for every image-config media type other than
    the OCI image config type and the Docker schema-2 config type. In
    [NewRunner] this failure does not end the construction: once the image
    is pulled and the environment overrides are formatted, the failure is
    logged, the launch policy is derived from an empty label map, and
    unless that policy is in error or refuses the launch spec the
    construction goes on to look up the host name. *)
Theorem unknown_media_type_is_only_logged L A lspec ic image envs :
  labels_Config A = Ok ic ->
  MediaType ic <> MediaTypeImageConfig ->
  MediaType ic <> MediaTypeDockerSchema2Config ->
  Pull A = Ok image ->
  formatEnvVars L (Envs lspec) = Ok envs ->
  forall h,
    getImageLabels L A h =
      ([EvImageConfig], Fail (Errorf_s "unknown image config media type %s" (MediaType ic))) /\
    In (EvLog "Failed to get image OCI labels") (fst (NewRunner L A lspec h)) /\
    (forall e, GetLaunchPolicy L [] = Err e -> snd (NewRunner L A lspec h) = Fail e) /\
    (forall policy e, GetLaunchPolicy L [] = Ok policy -> Verify L policy lspec = Some e ->
       snd (NewRunner L A lspec h) = Fail e) /\
    (forall policy, GetLaunchPolicy L [] = Ok policy -> Verify L policy lspec = None ->
       existsb is_hostname (fst (NewRunner L A lspec h)) = true).
Proof.
  intros Hc Hm1 Hm2 Hpull Henvs h.
  pose proof (getImageLabels_unknown_media_type L A ic) as Hg.
  split; [apply Hg; assumption | ].
  destruct (NewRunner_reaches_labels L A lspec image envs h
              (Err (Errorf_s "unknown image config media type %s" (MediaType ic))) Hpull Henvs)
    as (pre & Hf & Hs).
  { intros h'. unfold catch. rewrite (Hg h' Hc Hm1 Hm2). eexists; reflexivity. }
  rewrite Hf, Hs.
  destruct (NewRunner_from_labels_failed L A lspec image envs
              (Errorf_s "unknown image config media type %s" (MediaType ic)) (h ++ pre))
    as (Hin & Hpol & Hver & Hhost).
  split; [apply in_or_app; right; exact Hin | ].
  split; [exact Hpol | ]. split; [exact Hver | ].
  intros policy Hp Hv. rewrite existsb_app, (Hhost policy Hp Hv). apply orb_true_r.
Qed.

(** ** The functions of the packages [cel] and [launcher/spec] *)

(** Whether the byte [c] occurs in [s]. *)
Fixpoint contains (c : ascii) (s : string) : bool :=
  match s with
  | EmptyString => false
  | String c' rest => Ascii.eqb c c' || contains c rest
  end.

(** Modelled from the spec: [cel.FormatEnvVar], which is not among the
    sources: "Format env overrides into KEY=VALUE strings, validating
    names (no =, non-empty)". *)
Definition FormatEnvVar_spec (name value : string) : result string :=
  if String.eqb name "" then Err (errors_New "env var name is empty")
  else if contains "="%char name then Err (errors_New "env var name contains =")
  else Ok (name ++ "=" ++ value)%string.

Fixpoint lookup (key : string) (m : list (string * string)) : option string :=
  match m with
  | [] => None
  | (k, v) :: rest => if String.eqb k key then Some v else lookup key rest
  end.

(** The fields of [s] between the separators [sep]. *)
Fixpoint split_on (sep : ascii) (s : string) : list string :=
  match s with
  | EmptyString => [EmptyString]
  | String c rest =>
      if Ascii.eqb c sep then EmptyString :: split_on sep rest
      else match split_on sep rest with
           | [] => [String c EmptyString]
           | field :: fields => String c field :: fields
           end
  end.

(** Modelled from the spec: [spec.GetLaunchPolicy], which is not among the
    sources: "inspects well-known label keys for allowed overrides
    (command, environment). Missing keys yield a default-deny policy for
    overrides." The spec does not name the two keys, they are arguments;
    the command key holds a boolean, the environment key a list of names
    separated by commas. *)
Definition GetLaunchPolicy_spec (cmdKey envKey : string) (imageLabels : list (string * string))
    : result LaunchPolicy :=
  match lookup cmdKey imageLabels with
  | None =>
      Ok {| AllowedCmdOverride := false;
            AllowedEnvOverride := match lookup envKey imageLabels with
                                  | Some v => split_on ","%char v
                                  | None => []
                                  end |}
  | Some v =>
      if String.eqb v "true" || String.eqb v "false" then
        Ok {| AllowedCmdOverride := String.eqb v "true";
              AllowedEnvOverride := match lookup envKey imageLabels with
                                    | Some v => split_on ","%char v
                                    | None => []
                                    end |}
      else Err (errors_New "invalid value of the command override label")
  end.

(** Modelled from the spec: [LaunchPolicy.Verify], which is not among the
    sources: "fails if the spec's Cmd override is non-empty while command
    override is disallowed, or if any overridden environment variable is
    outside the allow-set." *)
Definition Verify_spec (policy : LaunchPolicy) (lspec : LaunchSpec) : option error :=
  if negb (AllowedCmdOverride policy) && negb (Nat.eqb (List.length (Cmd lspec)) 0)
  then Some (errors_New "CMD is not allowed to be overridden on this image")
  else if forallb (fun v => existsb (String.eqb (Name v)) (AllowedEnvOverride policy))
            (Envs lspec)
  then None
  else Some (errors_New "env var is not allowed to be overridden on this image").

(** ** Concrete runs *)

Module Scenario.

(** A token service whose tokens are listed with their [exp] claims; it
    stands for [jwt.Parser.ParseUnverified] on those tokens. *)
Definition tokens : list (string * Z) := [("token-1000", 1000); ("token-2000", 2000)].

Fixpoint exp_of (table : list (string * Z)) (token : string) : option Z :=
  match table with
  | [] => None
  | (t, e) :: rest => if String.eqb t token then Some e else exp_of rest token
  end.

Definition lib : Lib := {|
  FormatEnvVar := FormatEnvVar_spec;
  GetLaunchPolicy := GetLaunchPolicy_spec "tee.launch_policy.allow_cmd_override"
                       "tee.launch_policy.allow_env_override";
  Verify := Verify_spec;
  Unmarshal_labels := fun p =>
    if String.eqb p "labels:cmd,FOO"
    then Ok [("tee.launch_policy.allow_cmd_override", "true");
             ("tee.launch_policy.allow_env_override", "FOO")]
    else Ok [];
  ParseRegistered := fun token =>
    match exp_of tokens token with
    | Some e => Ok {| ExpiresAt := Some e |}
    | None => Err (foreign "token is malformed")
    end;
  ParseMap := fun token =>
    match exp_of tokens token with
    | Some e => Ok [("exp", token)]
    | None => Err (foreign "token is malformed")
    end;
  MarshalIndent := fun mapClaims => Ok "{ ... }"
|}.

(** The same, with a claim map that cannot be parsed. *)
Definition lib_without_map : Lib := {|
  FormatEnvVar := FormatEnvVar lib;
  GetLaunchPolicy := GetLaunchPolicy lib;
  Verify := Verify lib;
  Unmarshal_labels := Unmarshal_labels lib;
  ParseRegistered := ParseRegistered lib;
  ParseMap := fun _ => Err (foreign "claims are not a JSON object");
  MarshalIndent := MarshalIndent lib
|}.

Definition lspec : LaunchSpec := {|
  ImageRef := "gcr.io/x/app@sha256:abc";
  Cmd := ["./run"; "--flag"];
  Envs := [ {| Name := "FOO"; Value := "bar" |} ];
  RestartPolicy := "Never";
  ImpersonateServiceAccounts := [];
  AttestationServiceAddr := "";
  ProjectID := "project";
  Region := "us-central1";
  LogRedirect := false
|}.

Definition runner : ContainerRunner := {|
  container := containerID;
  launchSpec := lspec;
  attestAgent := {| agent_key := "GceAttestationKeyECC"; agent_verifier := "";
                    agent_principals := [] |}
|}.

Definition written : WriteFileAnswers := {| OpenFile := None; Write := None; Close := None |}.

(** At time 10 the verifier returns a token that expires at 1000. *)
Definition fresh_token : RefreshAnswers := {|
  Attest := Ok "token-1000";
  Now := 10;
  WriteFile := written;
  Until_Now := 11;
  Float64 := 0.5%float
|}.

(** At time 1500 the verifier returns the token that expired at 1000. *)
Definition expired_token : RefreshAnswers := {|
  Attest := Ok "token-1000";
  Now := 1500;
  WriteFile := written;
  Until_Now := 1500;
  Float64 := 0.5%float
|}.

Definition image : Image :=
  {| image_Name := "gcr.io/x/app@sha256:abc"; image_Target_Digest := "sha256:abc" |}.

Definition config : Descriptor :=
  {| MediaType := MediaTypeImageConfig; Digest := "sha256:id"; Annotations := [] |}.

(** The workload runs and exits with code 0; the refresher refreshes the
    token once while [Run] waits for the exit. *)
Definition happy : RunAnswers := {|
  container_Image := Ok image;
  MeasureEvent := fun _ _ => None;
  run_image_Config := Ok config;
  container_Spec := Ok {| Process_Args := ["/entrypoint"; "./run"; "--flag"];
                          Process_Env := ["PATH=/bin"; "FOO=bar"] |};
  MkdirAll := None;
  first_refresh := fresh_token;
  refresher := fun k => if Nat.eqb k 3 then [fresh_token] else [];
  NewTask := None;
  task_Wait := None;
  task_Start := None;
  exitStatusC := Some {| exit_code := 0; exit_err := None |}
|}.

(** The verifier returns an expired token to the first refresh. *)
Definition expired : RunAnswers := {|
  container_Image := container_Image happy;
  MeasureEvent := MeasureEvent happy;
  run_image_Config := run_image_Config happy;
  container_Spec := container_Spec happy;
  MkdirAll := None;
  first_refresh := expired_token;
  refresher := refresher happy;
  NewTask := None;
  task_Wait := None;
  task_Start := None;
  exitStatusC := exitStatusC happy
|}.

(** [task.Wait] returns an error; the task then runs and exits with 0. *)
Definition wait_fails : RunAnswers := {|
  container_Image := container_Image happy;
  MeasureEvent := MeasureEvent happy;
  run_image_Config := run_image_Config happy;
  container_Spec := container_Spec happy;
  MkdirAll := None;
  first_refresh := fresh_token;
  refresher := fun _ => [];
  NewTask := None;
  task_Wait := Some (foreign "context deadline exceeded");
  task_Start := None;
  exitStatusC := Some {| exit_code := 0; exit_err := None |}
|}.

(** [task.Wait] returns an error and a nil channel, on which nothing is
    ever received. *)
Definition wait_fails_nil_channel : RunAnswers := {|
  container_Image := container_Image happy;
  MeasureEvent := MeasureEvent happy;
  run_image_Config := run_image_Config happy;
  container_Spec := container_Spec happy;
  MkdirAll := None;
  first_refresh := fresh_token;
  refresher := fun _ => [];
  NewTask := None;
  task_Wait := Some (foreign "context deadline exceeded");
  task_Start := None;
  exitStatusC := None
|}.

(** The image has an empty [Entrypoint] and its labels permit the override
    of the command, the operator gives [Cmd = ["./run"]]: the args of the
    container are the [Cmd] alone. *)
Definition lspec_run : LaunchSpec := {|
  ImageRef := "gcr.io/x/app@sha256:abc";
  Cmd := ["./run"];
  Envs := [];
  RestartPolicy := "Never";
  ImpersonateServiceAccounts := [];
  AttestationServiceAddr := "";
  ProjectID := "project";
  Region := "us-central1";
  LogRedirect := false
|}.

Definition no_entrypoint : NewRunnerAnswers := {|
  token_Valid := true;
  Pull := Ok image;
  LoadContainer := Some (foreign "container not found");
  Delete_loaded := true;
  labels_Config := Ok config;
  ReadBlob := Ok "labels:cmd,FOO";
  image_Config := Ok config;
  Hostname := Ok "vm-1";
  NewContainer := Created;
  Delete_leftover := true;
  new_container_Spec := Ok {| Process_Args := ["./run"]; Process_Env := ["PATH=/bin"] |};
  DefaultClient := None;
  rest_NewClient := None
|}.

(** The image config has a media type that is neither of the two known
    ones; the operator overrides nothing. *)
Definition lspec_plain : LaunchSpec := {|
  ImageRef := "gcr.io/x/app@sha256:abc";
  Cmd := [];
  Envs := [];
  RestartPolicy := "Never";
  ImpersonateServiceAccounts := [];
  AttestationServiceAddr := "";
  ProjectID := "project";
  Region := "us-central1";
  LogRedirect := false
|}.

Definition other_config : Descriptor :=
  {| MediaType := "application/octet-stream"; Digest := "sha256:id"; Annotations := [] |}.

Definition other_media_type : NewRunnerAnswers := {|
  token_Valid := true;
  Pull := Ok image;
  LoadContainer := Some (foreign "container not found");
  Delete_loaded := true;
  labels_Config := Ok other_config;
  ReadBlob := Ok "";
  image_Config := Ok other_config;
  Hostname := Ok "vm-1";
  NewContainer := Created;
  Delete_leftover := true;
  new_container_Spec := Ok {| Process_Args := ["/entrypoint"]; Process_Env := ["PATH=/bin"] |};
  DefaultClient := None;
  rest_NewClient := None
|}.

End Scenario.

Example tokenFile_path :
  tokenFile = "/tmp/container_launcher/attestation_verifier_claims_token".
Proof. reflexivity. Qed.

Example happy_run_returns :
  snd (Run Scenario.lib Scenario.happy Scenario.runner []) = Ret tt.
Proof. reflexivity. Qed.

(** ** Witnesses and runs that settle the claims *)

(** The happy run gets as far as the start of the task and measures the
    eleven claims of its container in the order of C1. *)
Lemma Run_measures_claims_in_order_witness :
  task_started (fst (Run Scenario.lib Scenario.happy Scenario.runner [])) = true /\
  map EventType (measured (fst (Run Scenario.lib Scenario.happy Scenario.runner []))) =
    [ImageRefType; ImageDigestType; RestartPolicyType; ImageIDType;
     ArgType; ArgType; ArgType; EnvVarType; EnvVarType;
     OverrideEnvType; OverrideArgType; OverrideArgType; LaunchSeparatorType] /\
  filter is_measure (fst (Run Scenario.lib Scenario.happy Scenario.runner [])) =
    map (fun tlv => EvMeasureEvent tlv true)
      [tlv_of ImageRefType "gcr.io/x/app@sha256:abc"; tlv_of ImageDigestType "sha256:abc";
       tlv_of RestartPolicyType "Never"; tlv_of ImageIDType "sha256:id";
       tlv_of ArgType "/entrypoint"; tlv_of ArgType "./run"; tlv_of ArgType "--flag";
       tlv_of EnvVarType "PATH=/bin"; tlv_of EnvVarType "FOO=bar";
       tlv_of OverrideEnvType "FOO=bar";
       tlv_of OverrideArgType "./run"; tlv_of OverrideArgType "--flag";
       tlv_of LaunchSeparatorType ""].
Proof.
  split; [reflexivity | ].
  destruct (Run_measures_claims_in_order Scenario.lib Scenario.happy Scenario.runner []
              eq_refl) as (image & spec & envs & Himage & Hspec & Henvs & _ & Hcalls & Htypes).
  split.
  - rewrite Htypes. inversion Hspec. reflexivity.
  - rewrite Hcalls. inversion Himage. inversion Hspec.
    inversion Henvs as [|v s vs ss Hs Hrest]; subst. inversion Hrest; subst.
    inversion Hs. reflexivity.
Defined.

(** The run with the expired token ends with the error of the refresh and
    never touches the task. *)
Lemma expired_token_is_refused_witness :
  snd (Run Scenario.lib Scenario.expired Scenario.runner []) =
    Fail (Errorf_v "failed to fetch and write OIDC token: %v" (errors_New "token is expired")) /\
  task_created (fst (Run Scenario.lib Scenario.expired Scenario.runner [])) = false /\
  task_started (fst (Run Scenario.lib Scenario.expired Scenario.runner [])) = false /\
  file_after tokenFile None
    (fst (refreshToken Scenario.lib Scenario.expired_token Scenario.runner [])) = None.
Proof.
  destruct (expired_token_is_refused Scenario.lib Scenario.expired_token Scenario.runner
              "token-1000" 1000 eq_refl eq_refl ltac:(simpl; lia)) as [Hrefresh Hrun].
  destruct (Hrun Scenario.expired [] eq_refl) as (_ & Hattest & Hcreated & Hstarted).
  destruct (Hrefresh []) as (_ & _ & Hfile).
  repeat split; auto.
Defined.

(** The happy run creates and starts the task after its first refresh. *)
Lemma first_refresh_completes_before_task_witness :
  exists pre tr d post,
    fst (Run Scenario.lib Scenario.happy Scenario.runner []) = pre ++ tr ++ post /\
    refreshToken Scenario.lib Scenario.fresh_token Scenario.runner ([] ++ pre) = (tr, Ret d) /\
    task_created (pre ++ tr) = false /\ task_started (pre ++ tr) = false /\
    task_started post = true.
Proof.
  destruct (first_refresh_completes_before_task Scenario.lib Scenario.happy Scenario.runner [])
    as [H _].
  destruct (H (or_introl eq_refl))
    as (pre & tr & d & post & token & expiresAt & Ht & Hr & Hc & Hs & _).
  exists pre, tr, d, post. repeat split; auto.
  assert (Hall : task_started (fst (Run Scenario.lib Scenario.happy Scenario.runner [])) = true)
    by reflexivity.
  rewrite Ht, app_assoc in Hall. unfold task_started in *.
  rewrite existsb_app, Hs in Hall. exact Hall.
Defined.

(** C6 is false for the error of [task.Wait]: the run in which [task.Wait]
    returns an error goes on, starts the task and returns without error
    when the task exits with code 0; and when nothing arrives on the
    channel, it waits for ever after having started the task. In neither
    case is the error of [task.Wait] returned. *)
Lemma wait_error_is_not_returned :
  task_Wait Scenario.wait_fails = Some (foreign "context deadline exceeded") /\
  task_started (fst (Run Scenario.lib Scenario.wait_fails Scenario.runner [])) = true /\
  snd (Run Scenario.lib Scenario.wait_fails Scenario.runner []) = Ret tt /\
  task_Wait Scenario.wait_fails_nil_channel = Some (foreign "context deadline exceeded") /\
  task_started (fst (Run Scenario.lib Scenario.wait_fails_nil_channel Scenario.runner [])) = true /\
  snd (Run Scenario.lib Scenario.wait_fails_nil_channel Scenario.runner []) = Blocked.
Proof. repeat split; reflexivity. Qed.

(** The run in which [task.Wait] fails logs the error and starts the
    task. *)
Lemma Run_task_errors_and_exit_code_witness :
  In (EvLog "task wait error") (fst (Run Scenario.lib Scenario.wait_fails Scenario.runner [])) /\
  snd (Run Scenario.lib Scenario.happy Scenario.runner []) = Ret tt.
Proof.
  destruct (Run_task_errors_and_exit_code Scenario.lib Scenario.wait_fails Scenario.runner [])
    as (_ & _ & Hwait & _).
  destruct (Run_task_errors_and_exit_code Scenario.lib Scenario.happy Scenario.runner [])
    as (_ & _ & _ & Hexit).
  split.
  - exact (proj1 (Hwait _ eq_refl eq_refl)).
  - exact (Hexit _ eq_refl eq_refl).
Defined.

(** C5 is false for the deletion: with an image without [Entrypoint] and
    [Cmd = ["./run"]], [NewRunner] returns the permanent error, makes no
    call to delete a container, and the container it created exists
    afterwards. *)
Lemma created_container_is_not_deleted :
  snd (NewRunner Scenario.lib Scenario.no_entrypoint Scenario.lspec_run []) =
    Fail (Errorf_dd "length of Args [%d] is shorter or equal to the length of the given Cmd [%d], maybe the Entrypoint is set to empty in the image?" 1 1) /\
  existsb is_container_delete
    (fst (NewRunner Scenario.lib Scenario.no_entrypoint Scenario.lspec_run [])) = false /\
  container_exists containerID false
    (fst (NewRunner Scenario.lib Scenario.no_entrypoint Scenario.lspec_run [])) = true.
Proof. repeat split; reflexivity. Qed.

Lemma missing_entrypoint_fails_construction_witness :
  (exists e,
     snd (NewRunner Scenario.lib Scenario.no_entrypoint Scenario.lspec_run []) = Fail e /\
     as_RetryableError e = false) /\
  container_exists containerID false
    (fst (NewRunner Scenario.lib Scenario.no_entrypoint Scenario.lspec_run [])) = true.
Proof.
  destruct (missing_entrypoint_fails_construction Scenario.lib Scenario.no_entrypoint
              Scenario.lspec_run [] _ eq_refl eq_refl ltac:(simpl; lia))
    as ((e & He & _ & _ & Hw) & _ & Hexists).
  split; [exists e; split; assumption | apply Hexists].
Defined.

(** C8 is false for the construction: with an image config of another
    media type, reading the labels fails with the unknown-media-type
    error, and [NewRunner] returns a runner. *)
Lemma unknown_media_type_does_not_fail_construction :
  getImageLabels Scenario.lib Scenario.other_media_type [] =
    ([EvImageConfig],
     Fail (Errorf_s "unknown image config media type %s" "application/octet-stream")) /\
  snd (NewRunner Scenario.lib Scenario.other_media_type Scenario.lspec_plain []) =
    Ret {| container := containerID;
           launchSpec := Scenario.lspec_plain;
           attestAgent := {| agent_key := "GceAttestationKeyECC"; agent_verifier := "";
                             agent_principals := [] |} |}.
Proof. split; reflexivity. Qed.

Lemma unknown_media_type_is_only_logged_witness :
  In (EvLog "Failed to get image OCI labels")
     (fst (NewRunner Scenario.lib Scenario.other_media_type Scenario.lspec_plain [])) /\
  existsb is_hostname
    (fst (NewRunner Scenario.lib Scenario.other_media_type Scenario.lspec_plain [])) = true.
Proof.
  destruct (unknown_media_type_is_only_logged Scenario.lib Scenario.other_media_type
              Scenario.lspec_plain Scenario.other_config Scenario.image []
              eq_refl ltac:(discriminate) ltac:(discriminate) eq_refl eq_refl [])
    as (_ & Hlog & _ & _ & Hhost).
  split; [exact Hlog | exact (Hhost _ eq_refl eq_refl)].
Defined.

(** C9 is false for the atomicity: while a refresh replaces the token
    "token-1000" of mode 0644 by the token "token-2000", a reader may find
    the file empty, which is neither the old nor the new token. *)
Lemma token_file_is_seen_empty :
  let old := Some {| content := "token-1000"; mode := 420 |} in
  let refresh := {| Attest := Ok "token-2000"; Now := 900; WriteFile := Scenario.written;
                    Until_Now := 901; Float64 := 0.5%float |} in
  let run := refreshToken Scenario.lib refresh Scenario.runner [] in
  (exists d, snd run = Ret d) /\
  file_after tokenFile old (fst run) = Some {| content := "token-2000"; mode := 420 |} /\
  In (Some {| content := ""; mode := 420 |}) (file_states tokenFile old (fst run)) /\
  Some {| content := ""; mode := 420 |} <> old /\
  Some {| content := ""; mode := 420 |} <> Some {| content := "token-2000"; mode := 420 |}.
Proof.
  cbv zeta. split; [eexists; reflexivity | ]. split; [reflexivity | ].
  split; [ | split; discriminate ].
  vm_compute. do 4 right. left. reflexivity.
Qed.

Lemma token_file_is_overwritten_in_place_witness :
  filter file_call (fst (refreshToken Scenario.lib Scenario.fresh_token Scenario.runner [])) =
    [EvOpenFile tokenFile 420 true; EvWrite tokenFile "token-1000"; EvClose tokenFile] /\
  file_after tokenFile None
    (fst (refreshToken Scenario.lib Scenario.fresh_token Scenario.runner [])) =
    Some {| content := "token-1000"; mode := 420 |}.
Proof.
  destruct (token_file_is_overwritten_in_place Scenario.lib Scenario.fresh_token
              Scenario.runner [] _ _ eq_refl)
    as (token & Ha & _ & Hcalls & _ & Hfile).
  inversion Ha; subst. split; [exact Hcalls | exact (proj1 (Hfile None))].
Defined.

(** C10. An error returned by [refreshToken] does not tell that the token
    file is as before. Whenever the expiration check passes and the file is
    written, and then the token cannot be parsed into a claim map or the
    claims cannot be marshalled, [refreshToken] returns an error and the
    token file holds the new token. Executions of this kind exist: such a
    refresh turns an absent token file into a file holding the token.
    Likewise, when the write itself fails after it has emptied the file,
    the error is returned and the file holds only the part written. *)
Theorem refreshToken_error_after_write :
  (forall L RA r h token expiresAt,
     Attest RA = Ok token ->
     ParseRegistered L token = Ok {| ExpiresAt := Some expiresAt |} ->
     Now RA < expiresAt ->
     OpenFile (WriteFile RA) = None ->
     Write (WriteFile RA) = None ->
     Close (WriteFile RA) = None ->
     (exists e, ParseMap L token = Err e) \/
     (exists mapClaims e, ParseMap L token = Ok mapClaims /\ MarshalIndent L mapClaims = Err e) ->
     (exists e, snd (refreshToken L RA r h) = Fail e) /\
     forall f, file_after tokenFile f (fst (refreshToken L RA r h)) =
               Some {| content := token; mode := mode_after_open f 420 |}) /\
  (exists L RA r h e,
     snd (refreshToken L RA r h) = Fail e /\
     existsb file_call (fst (refreshToken L RA r h)) = true /\
     file_after tokenFile None (fst (refreshToken L RA r h)) <> None) /\
  (forall L RA r h token expiresAt n e,
     Attest RA = Ok token ->
     ParseRegistered L token = Ok {| ExpiresAt := Some expiresAt |} ->
     Now RA < expiresAt ->
     OpenFile (WriteFile RA) = None ->
     Write (WriteFile RA) = Some (n, e) ->
     snd (refreshToken L RA r h) =
       Fail (Errorf_v "failed to write token to container mount source point: %v" e) /\
     forall f, file_after tokenFile f (fst (refreshToken L RA r h)) =
               Some {| content := substring 0 n token; mode := mode_after_open f 420 |}).
Proof.
  split; [ | split ].
  - intros. apply refreshToken_fails_after_write with (expiresAt := expiresAt); assumption.
  - exists Scenario.lib_without_map, Scenario.fresh_token, Scenario.runner, [].
    eexists. split; [reflexivity | ]. split; [reflexivity | ]. discriminate.
  - intros. apply refreshToken_write_failed with (expiresAt := expiresAt); assumption.
Qed.

(** * Further properties of the launcher *)

(** ** [formatEnvVars] *)

Section FormatEnvVars.

Variable L : Lib.

Lemma formatEnvVars_from_Forall2 acc envVars envs :
  Forall2 (fun v s => FormatEnvVar L (Name v) (Value v) = Ok s) envVars envs ->
  formatEnvVars_from L acc envVars = Ok (acc ++ envs).
Proof.
  intros H. revert acc. induction H as [|v s vs ss Hv _ IH]; intros acc; simpl.
  - rewrite app_nil_r. reflexivity.
  - rewrite Hv, IH, <- app_assoc. reflexivity.
Qed.

Lemma formatEnvVars_from_Err acc envVars e :
  formatEnvVars_from L acc envVars = Err e ->
  exists pre v rest out cause,
    envVars = pre ++ v :: rest /\
    Forall2 (fun v s => FormatEnvVar L (Name v) (Value v) = Ok s) pre out /\
    FormatEnvVar L (Name v) (Value v) = Err cause /\
    e = Errorf_v "failed to format env var: %v" cause.
Proof.
  revert acc. induction envVars as [|v rest IH]; intros acc H; simpl in H; [discriminate | ].
  destruct (FormatEnvVar L (Name v) (Value v)) as [s|cause] eqn:Hv.
  - destruct (IH _ H) as (pre & v' & rest' & out & cause & -> & Hpre & Hv' & ->).
    exists (v :: pre), v', rest', (s :: out), cause.
    split; [reflexivity | ]. split; [constructor; assumption | ]. split; [assumption | reflexivity].
  - inversion H; subst. exists [], v, rest, [], cause.
    split; [reflexivity | ]. split; [constructor | ]. split; [assumption | reflexivity].
Qed.

End FormatEnvVars.

(** [formatEnvVars] gives the formatted variables, one for each variable
    and in the same order, when every variable can be formatted. Otherwise
    it gives no variable at all, and the error of the first variable that
    cannot be formatted, flattened into the text of a new error. *)
Theorem formatEnvVars_all_or_nothing L envVars :
  (forall out,
     formatEnvVars L envVars = Ok out <->
     Forall2 (fun v s => FormatEnvVar L (Name v) (Value v) = Ok s) envVars out) /\
  (forall e,
     formatEnvVars L envVars = Err e <->
     exists pre v rest out cause,
       envVars = pre ++ v :: rest /\
       Forall2 (fun v s => FormatEnvVar L (Name v) (Value v) = Ok s) pre out /\
       FormatEnvVar L (Name v) (Value v) = Err cause /\
       e = Errorf_v "failed to format env var: %v" cause).
Proof.
  split.
  - intros out. split; [apply formatEnvVars_Ok | ].
    intros H. apply (formatEnvVars_from_Forall2 L [] _ _ H).
  - intros e. split; [apply formatEnvVars_from_Err | ].
    intros (pre & v & rest & out & cause & -> & Hpre & Hv & ->).
    unfold formatEnvVars. generalize (@nil string) as acc.
    induction Hpre as [|v0 s vs ss Hv0 _ IH]; intros acc; simpl.
    + rewrite Hv. reflexivity.
    + rewrite Hv0. apply IH.
Qed.

(** ** The construction of the runner, step by step *)

Definition is_new_container (e : Event) : bool :=
  match e with EvNewContainer _ _ _ => true | _ => false end.

(** The format of the error of a failed pull. *)
Definition pull_format (A : NewRunnerAnswers) : string :=
  if token_Valid A then "cannot pull the image: %w"
  else "cannot pull the image (no token, only works for a public image): %w".

(** The calls of [NewRunner] before it reads the image labels. *)
Definition NewRunner_prefix (A : NewRunnerAnswers) (lspec : LaunchSpec) : list Event :=
  [EvPull (ImageRef lspec) (token_Valid A); EvLoadContainer containerID]
  ++ match LoadContainer A with
     | None => [EvContainerDelete containerID (Delete_loaded A)]
     | Some _ => []
     end
  ++ [EvLog "Operator Input Image Ref"; EvLog "Image Digest";
      EvLog "Operator Override Env Vars"; EvLog "Operator Override Cmd"].

(** The calls between the reading of the labels and the check of the
    launch policy, and from there to the creation of the container. *)
Definition labels_log (labels : result (list (string * string))) : list Event :=
  match labels with
  | Ok _ => []
  | Err _ => [EvLog "Failed to get image OCI labels"]
  end ++ [EvLog "Image Labels"].

Definition config_log (A : NewRunnerAnswers) : list Event :=
  [EvImageConfig]
  ++ match image_Config A with
     | Err _ => [EvLog "image config error"]
     | Ok _ => [EvLog "Image ID"; EvLog "Image Annotations"]
     end
  ++ [EvHostname].

(** The labels the launch policy is derived from. *)
Definition labels_or_none (labels : result (list (string * string))) : list (string * string) :=
  match labels with Ok l => l | Err _ => [] end.

(** The options of the container [NewRunner] creates. *)
Definition container_opts (lspec : LaunchSpec) (image : Image) (envs : list string)
    (hostname : string) : list NewContainerOpts :=
  [ WithImage image;
    WithNewSnapshot snapshotID image;
    WithNewSpec [ WithImageConfigArgs image (Cmd lspec);
                  WithEnv envs;
                  WithMounts [ {| Destination := containerTokenMountPath;
                                  mount_Type := "bind";
                                  Source := hostTokenPath;
                                  Options := ["rbind"; "ro"] |} ];
                  WithHostHostsFile;
                  WithHostResolvconf;
                  WithHostNamespace NetworkNamespace;
                  WithEnv [("HOSTNAME=" ++ hostname)%string] ] ].

(** The runner [NewRunner] returns. *)
Definition new_runner (lspec : LaunchSpec) : ContainerRunner :=
  {| container := containerID;
     launchSpec := lspec;
     attestAgent := {| agent_key := "GceAttestationKeyECC";
                       agent_verifier := AttestationServiceAddr lspec;
                       agent_principals := ImpersonateServiceAccounts lspec |} |}.

Definition args_format : string :=
  "length of Args [%d] is shorter or equal to the length of the given Cmd [%d], maybe the Entrypoint is set to empty in the image?".

Section ConstructionSteps.

Variable L : Lib.

(** Reading the labels returns them or returns an error. *)
Lemma getImageLabels_ends A h :
  exists tl labels,
    getImageLabels L A h = (tl, match labels with Ok l => Ret l | Err e => Fail e end) /\
    Forall (fun e => e = EvImageConfig \/ e = EvReadBlob) tl.
Proof.
  unfold getImageLabels, bind, call_result, pure_result, fail.
  destruct (labels_Config A) as [ic|e].
  - destruct (String.eqb (MediaType ic) MediaTypeImageConfig
              || String.eqb (MediaType ic) MediaTypeDockerSchema2Config).
    + destruct (ReadBlob A) as [p|e].
      * destruct (Unmarshal_labels L p) as [l|e].
        -- exists [EvImageConfig; EvReadBlob], (Ok l). split; [reflexivity | ].
           
           repeat (apply Forall_cons; [first [left; reflexivity | right; reflexivity] | ]); apply Forall_nil.
        -- exists [EvImageConfig; EvReadBlob], (Err e). split; [reflexivity | ].
           
           repeat (apply Forall_cons; [first [left; reflexivity | right; reflexivity] | ]); apply Forall_nil.
      * exists [EvImageConfig; EvReadBlob], (Err e). split; [reflexivity | ].
        
           repeat (apply Forall_cons; [first [left; reflexivity | right; reflexivity] | ]); apply Forall_nil.
    + eexists [EvImageConfig], (Err _). split; [reflexivity | ]. 
           repeat (apply Forall_cons; [first [left; reflexivity | right; reflexivity] | ]); apply Forall_nil.
  - exists [EvImageConfig], (Err e). split; [reflexivity | ]. 
           repeat (apply Forall_cons; [first [left; reflexivity | right; reflexivity] | ]); apply Forall_nil.
Qed.

(** [NewRunner] from the creation of the container on. *)
Lemma NewRunner_create_eq A lspec image envs hostname h :
  let created := EvNewContainer containerID (container_opts lspec image envs hostname) true in
  NewRunner_create A lspec image envs hostname h =
  match NewContainer A with
  | CreateFailed leftover err =>
      (EvNewContainer containerID (container_opts lspec image envs hostname) leftover
         :: (if leftover then [EvContainerDelete containerID (Delete_leftover A)] else []),
       Fail (RetryableError (Errorf_w "failed to create a container: [%w]" err)))
  | Created =>
      match new_container_Spec A with
      | Err e => ([created; EvContainerSpec], Fail (RetryableError e))
      | Ok spec =>
          if (List.length (Process_Args spec) <=? List.length (Cmd lspec))%nat then
            ([created; EvContainerSpec],
             Fail (Errorf_dd args_format (List.length (Process_Args spec))
                     (List.length (Cmd lspec))))
          else
            match DefaultClient A with
            | Some e =>
                ([created; EvContainerSpec; EvDefaultClient],
                 Fail (Errorf_v "failed to create REST verifier client: %v"
                         (Errorf_v "failed to create HTTP client: %v" e)))
            | None =>
                match rest_NewClient A with
                | Some e =>
                    ([created; EvContainerSpec; EvDefaultClient;
                      EvRestNewClient (AttestationServiceAddr lspec)],
                     Fail (Errorf_v "failed to create REST verifier client: %v" e))
                | None =>
                    ([created; EvContainerSpec; EvDefaultClient;
                      EvRestNewClient (AttestationServiceAddr lspec);
                      EvCreateAttestationAgent],
                     Ret (new_runner lspec))
                end
            end
      end
  end.
Proof.
  cbv zeta.
  unfold NewRunner_create, getRESTClient, bind, wrap_err, call, call_result, call_error,
    fail, ret, container_opts, new_runner, appendTokenMounts, args_format.
  destruct (NewContainer A) as [|leftover err].
  - destruct (new_container_Spec A) as [spec|e]; [ | reflexivity].
    cbv beta iota zeta.
    destruct (List.length (Process_Args spec) <=? List.length (Cmd lspec))%nat; [reflexivity | ].
    destruct (DefaultClient A); [reflexivity | ].
    destruct (rest_NewClient A); reflexivity.
  - destruct leftover; reflexivity.
Qed.

(** What [NewRunner] does from the creation on does not depend on the
    calls made before. *)
Lemma NewRunner_create_history A lspec image envs hostname h :
  NewRunner_create A lspec image envs hostname h =
  NewRunner_create A lspec image envs hostname [].
Proof. rewrite (NewRunner_create_eq A lspec image envs hostname h), NewRunner_create_eq. reflexivity. Qed.

(** [NewRunner] between the reading of the labels and the creation of the
    container. *)
Lemma NewRunner_from_labels_eq A lspec image envs labels h :
  NewRunner_from_labels L A lspec image envs labels h =
  match GetLaunchPolicy L (labels_or_none labels) with
  | Err e => (labels_log labels, Fail e)
  | Ok policy =>
      match Verify L policy lspec with
      | Some e => (labels_log labels, Fail e)
      | None =>
          match Hostname A with
          | Err cause =>
              (labels_log labels ++ config_log A,
               Fail (RetryableError (Errorf_w "cannot get hostname: [%w]" cause)))
          | Ok hostname =>
              ((labels_log labels ++ config_log A)
                 ++ fst (NewRunner_create A lspec image envs hostname []),
               snd (NewRunner_create A lspec image envs hostname []))
          end
      end
  end.
Proof.
  unfold NewRunner_from_labels.
  unfold log, bind, wrap_err, catch, call, call_result, pure_result, pure_error, ret,
    labels_log, config_log, labels_or_none.
  destruct labels as [l|e0]; cbv beta iota zeta;
    (destruct (GetLaunchPolicy L _) as [policy|e]; [ | reflexivity]);
    (destruct (Verify L policy lspec); [reflexivity | ]);
    destruct (image_Config A) as [ic|e1]; cbv beta iota zeta;
    destruct (Hostname A) as [hn|e2]; cbv beta iota zeta; try reflexivity;
    match goal with
    | |- context [NewRunner_create A lspec image envs hn ?hh] =>
        rewrite (NewRunner_create_history A lspec image envs hn hh)
    end;
    destruct (NewRunner_create A lspec image envs hn []); reflexivity.
Qed.

Lemma NewRunner_from_labels_history A lspec image envs labels h :
  NewRunner_from_labels L A lspec image envs labels h =
  NewRunner_from_labels L A lspec image envs labels [].
Proof.
  rewrite (NewRunner_from_labels_eq A lspec image envs labels h), NewRunner_from_labels_eq.
  reflexivity.
Qed.

(** [NewRunner] up to the reading of the labels. *)
Lemma NewRunner_start A lspec h :
  match Pull A with
  | Err cause =>
      NewRunner L A lspec h =
        ([EvPull (ImageRef lspec) (token_Valid A)], Fail (Errorf_w (pull_format A) cause))
  | Ok image =>
      match formatEnvVars L (Envs lspec) with
      | Err e => NewRunner L A lspec h = ([EvPull (ImageRef lspec) (token_Valid A)], Fail e)
      | Ok envs =>
          exists tl labels,
            getImageLabels L A [] =
              (tl, match labels with Ok l => Ret l | Err e => Fail e end) /\
            NewRunner L A lspec h =
              ((NewRunner_prefix A lspec ++ tl)
                 ++ fst (NewRunner_from_labels L A lspec image envs labels []),
               snd (NewRunner_from_labels L A lspec image envs labels []))
      end
  end.
Proof.
  rewrite NewRunner_unfold.
  destruct (Pull A) as [image|cause] eqn:Hpull.
  2:{ unfold initImage, pull_format, bind, wrap_err, call_result. rewrite Hpull.
      destruct (token_Valid A); reflexivity. }
  destruct (formatEnvVars L (Envs lspec)) as [envs|e] eqn:Hfmt.
  2:{ unfold initImage, bind, wrap_err, call_result, pure_result. rewrite Hpull.
      destruct (token_Valid A); reflexivity. }
  destruct (getImageLabels_ends A []) as (tl & labels & Hl & _).
  exists tl, labels. split; [exact Hl | ].
  assert (Hl' : forall h', getImageLabels L A h' =
                           (tl, match labels with Ok l => Ret l | Err e => Fail e end)).
  { intros h'. rewrite <- Hl. unfold getImageLabels, bind, call_result, pure_result, fail.
    destruct (labels_Config A); [ | reflexivity].
    destruct (_ || _); [ | reflexivity]. destruct (ReadBlob A); reflexivity. }
  unfold NewRunner_prefix, initImage, log, bind, wrap_err, catch, call, call_result, call_error,
    pure_result, ret.
  rewrite Hpull.
  destruct (token_Valid A); cbv beta iota zeta;
    destruct (LoadContainer A); cbv beta iota zeta;
    rewrite Hl'; destruct labels; cbv beta iota zeta;
    match goal with
    | |- context [NewRunner_from_labels L A lspec ?i ?e ?l ?hh] =>
        rewrite (NewRunner_from_labels_history A lspec i e l hh)
    end;
    match goal with
    | |- context [NewRunner_from_labels L A lspec ?i ?e ?l []] =>
        destruct (NewRunner_from_labels L A lspec i e l [])
    end;
    cbn [fst snd]; repeat rewrite <- app_assoc; reflexivity.
Qed.

End ConstructionSteps.

(** ** What [NewRunner] creates, and how it fails *)

(** The calls [NewRunner] makes before it creates the container. *)
Definition setup_event (e : Event) : bool :=
  match e with
  | EvPull _ _ | EvLoadContainer _ | EvContainerDelete _ _ | EvLog _
  | EvImageConfig | EvReadBlob | EvHostname => true
  | _ => false
  end.

(** The labels of the image, or the error of reading them. *)
Definition labels_read (L : Lib) (A : NewRunnerAnswers)
    (labels : result (list (string * string))) : Prop :=
  snd (getImageLabels L A []) = match labels with Ok l => Ret l | Err e => Fail e end.

(** The errors with which [NewRunner] ends before it creates a container. *)
Inductive early_failure (L : Lib) (A : NewRunnerAnswers) (lspec : LaunchSpec) : error -> Prop :=
| pull_failed cause :
    Pull A = Err cause ->
    early_failure L A lspec (Errorf_w (pull_format A) cause)
| env_failed e :
    formatEnvVars L (Envs lspec) = Err e ->
    early_failure L A lspec e
| policy_failed labels e :
    labels_read L A labels ->
    GetLaunchPolicy L (labels_or_none labels) = Err e ->
    early_failure L A lspec e
| policy_refused labels policy e :
    labels_read L A labels ->
    GetLaunchPolicy L (labels_or_none labels) = Ok policy ->
    Verify L policy lspec = Some e ->
    early_failure L A lspec e
| hostname_failed cause :
    Hostname A = Err cause ->
    early_failure L A lspec (RetryableError (Errorf_w "cannot get hostname: [%w]" cause)).

(** The errors with which [NewRunner] ends once it has asked for the
    container. *)
Inductive late_failure (A : NewRunnerAnswers) (lspec : LaunchSpec) : error -> Prop :=
| create_failed leftover cause :
    NewContainer A = CreateFailed leftover cause ->
    late_failure A lspec (RetryableError (Errorf_w "failed to create a container: [%w]" cause))
| spec_failed cause :
    NewContainer A = Created ->
    new_container_Spec A = Err cause ->
    late_failure A lspec (RetryableError cause)
| entrypoint_missing spec :
    NewContainer A = Created ->
    new_container_Spec A = Ok spec ->
    (List.length (Process_Args spec) <= List.length (Cmd lspec))%nat ->
    late_failure A lspec
      (Errorf_dd args_format (List.length (Process_Args spec)) (List.length (Cmd lspec)))
| http_client_failed cause :
    NewContainer A = Created ->
    DefaultClient A = Some cause ->
    late_failure A lspec
      (Errorf_v "failed to create REST verifier client: %v"
         (Errorf_v "failed to create HTTP client: %v" cause))
| rest_client_failed cause :
    NewContainer A = Created ->
    rest_NewClient A = Some cause ->
    late_failure A lspec (Errorf_v "failed to create REST verifier client: %v" cause).

Ltac setup_calls :=
  repeat first [ assumption
               | apply Forall_app; split ].

Section ConstructionCases.

Variable L : Lib.

Lemma setup_prefix A lspec : Forall (fun e => setup_event e = true) (NewRunner_prefix A lspec).
Proof. unfold NewRunner_prefix. destruct (LoadContainer A); repeat constructor. Qed.

Lemma setup_labels tl :
  Forall (fun e => e = EvImageConfig \/ e = EvReadBlob) tl ->
  Forall (fun e => setup_event e = true) tl.
Proof. intros H. eapply Forall_impl; [ | exact H]. intros e [-> | ->]; reflexivity. Qed.

Lemma setup_labels_log labels : Forall (fun e => setup_event e = true) (labels_log labels).
Proof. unfold labels_log. destruct labels; repeat constructor. Qed.

Lemma setup_config_log A : Forall (fun e => setup_event e = true) (config_log A).
Proof. unfold config_log. destruct (image_Config A); repeat constructor. Qed.

(** [NewRunner] ends with an error before it asks for a container, or gets
    as far as the creation with a pulled image, formatted variables, a
    launch policy that permits the launch spec, and a host name. *)
Lemma NewRunner_cases A lspec h :
  (exists pre e,
     NewRunner L A lspec h = (pre, Fail e) /\
     Forall (fun e => setup_event e = true) pre /\
     early_failure L A lspec e) \/
  (exists tl image envs labels policy hostname,
     Pull A = Ok image /\
     formatEnvVars L (Envs lspec) = Ok envs /\
     labels_read L A labels /\
     Forall (fun e => e = EvImageConfig \/ e = EvReadBlob) tl /\
     GetLaunchPolicy L (labels_or_none labels) = Ok policy /\
     Verify L policy lspec = None /\
     Hostname A = Ok hostname /\
     NewRunner L A lspec h =
       (((NewRunner_prefix A lspec ++ tl) ++ labels_log labels ++ config_log A)
          ++ fst (NewRunner_create A lspec image envs hostname []),
        snd (NewRunner_create A lspec image envs hostname []))).
Proof.
  pose proof (NewRunner_start L A lspec h) as Hstart.
  destruct (Pull A) as [image|cause] eqn:Hpull.
  2:{ left. eexists _, _. split; [exact Hstart | ]. split; [repeat constructor | ].
      apply pull_failed. exact Hpull. }
  destruct (formatEnvVars L (Envs lspec)) as [envs|e] eqn:Hfmt.
  2:{ left. eexists _, _. split; [exact Hstart | ]. split; [repeat constructor | ].
      apply env_failed. exact Hfmt. }
  destruct Hstart as (tl & labels & Hl & Hrun).
  assert (Hread : labels_read L A labels) by (unfold labels_read; rewrite Hl; reflexivity).
  assert (Htl : Forall (fun e => e = EvImageConfig \/ e = EvReadBlob) tl).
  { destruct (getImageLabels_ends L A []) as (tl' & labels' & Hl' & Hq).
    rewrite Hl in Hl'. inversion Hl'; subst. exact Hq. }
  pose proof (setup_prefix A lspec) as Hq1.
  pose proof (setup_labels tl Htl) as Hq2.
  pose proof (setup_labels_log labels) as Hq3.
  pose proof (setup_config_log A) as Hq4.
  rewrite NewRunner_from_labels_eq in Hrun.
  destruct (GetLaunchPolicy L (labels_or_none labels)) as [policy|e] eqn:Hpol.
  2:{ cbn [fst snd] in Hrun. left. eexists _, _. split; [exact Hrun | ].
      split; [setup_calls | ].
      eapply policy_failed; eassumption. }
  destruct (Verify L policy lspec) as [e|] eqn:Hver.
  { cbn [fst snd] in Hrun. left. eexists _, _. split; [exact Hrun | ].
    split; [setup_calls | ].
    eapply policy_refused; eassumption. }
  destruct (Hostname A) as [hostname|cause] eqn:Hhost.
  2:{ cbn [fst snd] in Hrun. left. eexists _, _. split; [exact Hrun | ].
      split; [setup_calls | ].
      apply hostname_failed. exact Hhost. }
  right. exists tl, image, envs, labels, policy, hostname.
  repeat (split; [first [assumption | reflexivity] | ]).
  rewrite Hrun. cbn [fst snd]. repeat rewrite <- app_assoc. reflexivity.
Qed.

Lemma setup_not_created t e :
  Forall (fun e => setup_event e = true) t -> In e t -> is_new_container e = false.
Proof.
  intros H Hin. rewrite Forall_forall in H. specialize (H e Hin).
  destruct e; simpl in *; auto; discriminate.
Qed.

Lemma setup_no_creation t :
  Forall (fun e => setup_event e = true) t -> existsb is_new_container t = false.
Proof.
  intros H. apply existsb_none. eapply Forall_impl; [ | exact H].
  intros e He. destruct e; simpl in *; auto; discriminate.
Qed.

(** The calls from the creation on: the request for the container first,
    and no other. *)
Lemma NewRunner_create_calls A lspec image envs hostname :
  exists created post,
    fst (NewRunner_create A lspec image envs hostname []) =
      EvNewContainer containerID (container_opts lspec image envs hostname) created :: post /\
    existsb is_new_container post = false /\
    (NewContainer A = Created -> created = true /\ existsb is_container_delete post = false) /\
    (forall leftover cause, NewContainer A = CreateFailed leftover cause ->
       created = leftover /\
       post = if leftover then [EvContainerDelete containerID (Delete_leftover A)] else []).
Proof.
  rewrite NewRunner_create_eq.
  destruct (NewContainer A) as [|leftover cause].
  - destruct (new_container_Spec A) as [spec|e].
    + destruct (List.length (Process_Args spec) <=? List.length (Cmd lspec))%nat.
      * eexists _, _. split; [reflexivity | ]. split; [reflexivity | ].
        split; [auto | intros; discriminate].
      * destruct (DefaultClient A); [ | destruct (rest_NewClient A)];
          (eexists _, _; split; [reflexivity | ]; split; [reflexivity | ];
           split; [auto | intros; discriminate]).
    + eexists _, _. split; [reflexivity | ]. split; [reflexivity | ].
      split; [auto | intros; discriminate].
  - eexists _, _. split; [reflexivity | ]. split; [destruct leftover; reflexivity | ].
    split; [intros; discriminate | ]. intros l c Hc. inversion Hc; subst. auto.
Qed.

Lemma NewRunner_create_fails A lspec image envs hostname e :
  snd (NewRunner_create A lspec image envs hostname []) = Fail e -> late_failure A lspec e.
Proof.
  rewrite NewRunner_create_eq.
  destruct (NewContainer A) as [|leftover cause] eqn:Hnc.
  - destruct (new_container_Spec A) as [spec|e0] eqn:Hspec.
    + destruct (List.length (Process_Args spec) <=? List.length (Cmd lspec))%nat eqn:Hlen.
      * intros H; inversion H; subst. apply Nat.leb_le in Hlen.
        apply entrypoint_missing; auto.
      * destruct (DefaultClient A) eqn:Hdc; [intros H; inversion H; subst;
                                             apply http_client_failed; auto | ].
        destruct (rest_NewClient A) eqn:Hrc; intros H; inversion H; subst.
        apply rest_client_failed; auto.
    + intros H; inversion H; subst. apply spec_failed; auto.
  - intros H; inversion H; subst. eapply create_failed; eauto.
Qed.

End ConstructionCases.

Section ConstructionFacts.

Variable L : Lib.

Lemma container_exists_quiet id b t :
  Forall (fun e => is_new_container e = false /\ is_container_delete e = false) t ->
  container_exists id b t = b.
Proof.
  intros H. revert b. induction H as [|e t [He1 He2] _ IH]; intros b; [reflexivity | ].
  unfold container_exists in *. simpl. rewrite IH.
  destruct e; simpl in *; try reflexivity; discriminate.
Qed.

Lemma quiet_labels tl :
  Forall (fun e => e = EvImageConfig \/ e = EvReadBlob) tl ->
  Forall (fun e => is_new_container e = false /\ is_container_delete e = false) tl.
Proof. intros H. eapply Forall_impl; [ | exact H]. intros e [-> | ->]; split; reflexivity. Qed.

Lemma quiet_labels_log labels :
  Forall (fun e => is_new_container e = false /\ is_container_delete e = false)
    (labels_log labels).
Proof. unfold labels_log. destruct labels; repeat constructor. Qed.

Lemma quiet_config_log A :
  Forall (fun e => is_new_container e = false /\ is_container_delete e = false) (config_log A).
Proof. unfold config_log. destruct (image_Config A); repeat constructor. Qed.

(** The container [containerID] when [NewRunner] asks for the new one. *)
Lemma container_before_creation A lspec tl labels b :
  Forall (fun e => e = EvImageConfig \/ e = EvReadBlob) tl ->
  container_exists containerID b
    ((NewRunner_prefix A lspec ++ tl) ++ labels_log labels ++ config_log A) =
  match LoadContainer A with
  | None => if Delete_loaded A then false else b
  | Some _ => b
  end.
Proof.
  intros Htl.
  rewrite !container_exists_app.
  rewrite (container_exists_quiet _ _ _ (quiet_config_log A)).
  rewrite (container_exists_quiet _ _ _ (quiet_labels_log labels)).
  rewrite (container_exists_quiet _ _ _ (quiet_labels tl Htl)).
  unfold NewRunner_prefix. destruct (LoadContainer A); [reflexivity | ].
  destruct (Delete_loaded A); reflexivity.
Qed.

Lemma deletions_before_creation A lspec tl labels :
  Forall (fun e => e = EvImageConfig \/ e = EvReadBlob) tl ->
  filter is_container_delete
    ((NewRunner_prefix A lspec ++ tl) ++ labels_log labels ++ config_log A) =
  match LoadContainer A with
  | None => [EvContainerDelete containerID (Delete_loaded A)]
  | Some _ => []
  end.
Proof.
  intros Htl.
  assert (Hq : forall t,
    Forall (fun e => is_new_container e = false /\ is_container_delete e = false) t ->
    filter is_container_delete t = []).
  { intros t H. induction H as [|e t [_ He] _ IH]; simpl; [reflexivity | ].
    rewrite He. exact IH. }
  rewrite !filter_app.
  rewrite (Hq _ (quiet_config_log A)), (Hq _ (quiet_labels_log labels)),
    (Hq _ (quiet_labels tl Htl)), !app_nil_r.
  unfold NewRunner_prefix. destruct (LoadContainer A); reflexivity.
Qed.

End ConstructionFacts.

(** [NewRunner] asks containerd for a container only once the image is
    pulled, the operator's environment variables are formatted, the launch
    policy derived from the image labels (from no labels when they cannot
    be read) permits the launch spec, and the host name is known. It asks
    for it with the fixed name and exactly these options, in this order:
    the image; a new snapshot of the fixed name; and a new spec made of
    the arguments of the image config with the operator's [Cmd], the
    operator's variables, the token directory as the one mount that
    [WithMounts] adds (a read-only bind mount), the hosts file, the
    resolver configuration and the network namespace of the host, and
    the variable [HOSTNAME]. *)
Theorem NewRunner_creates_what_the_policy_permits L A lspec h id opts created :
  In (EvNewContainer id opts created) (fst (NewRunner L A lspec h)) ->
  exists image envs labels policy hostname,
    Pull A = Ok image /\
    formatEnvVars L (Envs lspec) = Ok envs /\
    snd (getImageLabels L A []) = match labels with Ok l => Ret l | Err e => Fail e end /\
    GetLaunchPolicy L (match labels with Ok l => l | Err _ => [] end) = Ok policy /\
    Verify L policy lspec = None /\
    Hostname A = Ok hostname /\
    id = "tee-container" /\
    opts = [ WithImage image;
             WithNewSnapshot "tee-snapshot" image;
             WithNewSpec [ WithImageConfigArgs image (Cmd lspec);
                           WithEnv envs;
                           WithMounts [ {| Destination := "/run/container_launcher/";
                                           mount_Type := "bind";
                                           Source := "/tmp/container_launcher/";
                                           Options := ["rbind"; "ro"] |} ];
                           WithHostHostsFile;
                           WithHostResolvconf;
                           WithHostNamespace NetworkNamespace;
                           WithEnv [("HOSTNAME=" ++ hostname)%string] ] ].
Proof.
  intros Hin.
  destruct (NewRunner_cases L A lspec h)
    as [(pre & e & Hrun & Hpre & _) |
        (tl & image & envs & labels & policy & hostname
           & Hpull & Hfmt & Hread & Htl & Hpol & Hver & Hhost & Hrun)];
    rewrite Hrun in Hin; cbn [fst] in Hin.
  - apply (setup_not_created _ _ Hpre) in Hin. discriminate.
  - exists image, envs, labels, policy, hostname.
    repeat (split; [assumption | ]).
    apply in_app_or in Hin. destruct Hin as [Hin | Hin].
    + exfalso.
      assert (Hq : Forall (fun e => setup_event e = true)
                     ((NewRunner_prefix A lspec ++ tl) ++ labels_log labels ++ config_log A)).
      { pose proof (setup_prefix A lspec). pose proof (setup_labels tl Htl).
        pose proof (setup_labels_log labels). pose proof (setup_config_log A).
        setup_calls. }
      apply (setup_not_created _ _ Hq) in Hin. discriminate.
    + destruct (NewRunner_create_calls A lspec image envs hostname)
        as (c & post & Hcalls & Hpost & _).
      rewrite Hcalls in Hin. destruct Hin as [Hin | Hin].
      * inversion Hin; subst. split; reflexivity.
      * exfalso. assert (Hex : existsb is_new_container post = true).
        { apply existsb_exists. eexists. split; [exact Hin | reflexivity]. }
        congruence.
Qed.

(** Before [NewRunner] asks for the new container, it has tried to delete
    a container of the same name exactly when [LoadContainer] found one,
    and it has made no other deletion. The result of that deletion is not
    looked at: the old container is gone only when the deletion
    succeeded, and the new container is asked for in either case. *)
Theorem stale_container_is_deleted_first L A lspec h :
  existsb is_new_container (fst (NewRunner L A lspec h)) = true ->
  exists pre opts created post,
    fst (NewRunner L A lspec h) = pre ++ EvNewContainer containerID opts created :: post /\
    existsb is_new_container pre = false /\
    existsb is_new_container post = false /\
    filter is_container_delete pre =
      match LoadContainer A with
      | None => [EvContainerDelete containerID (Delete_loaded A)]
      | Some _ => []
      end /\
    forall b, container_exists containerID b pre =
              match LoadContainer A with
              | None => if Delete_loaded A then false else b
              | Some _ => b
              end.
Proof.
  intros Hex.
  destruct (NewRunner_cases L A lspec h)
    as [(pre & e & Hrun & Hpre & _) |
        (tl & image & envs & labels & policy & hostname
           & Hpull & Hfmt & Hread & Htl & Hpol & Hver & Hhost & Hrun)];
    rewrite Hrun in *; cbn [fst] in *.
  - rewrite (setup_no_creation _ Hpre) in Hex. discriminate.
  - destruct (NewRunner_create_calls A lspec image envs hostname)
      as (c & post & Hcalls & Hpost & _).
    rewrite Hcalls.
    exists ((NewRunner_prefix A lspec ++ tl) ++ labels_log labels ++ config_log A),
      (container_opts lspec image envs hostname), c, post.
    split; [reflexivity | ]. split.
    { apply setup_no_creation.
      pose proof (setup_prefix A lspec). pose proof (setup_labels tl Htl).
      pose proof (setup_labels_log labels). pose proof (setup_config_log A).
      setup_calls. }
    split; [exact Hpost | ].
    split; [apply deletions_before_creation; exact Htl | ].
    intros b. apply container_before_creation. exact Htl.
Qed.

(** Every error of [NewRunner] is one of ten. [NewRunner] marks as
    retryable the failures of [os.Hostname], of [NewContainer] and of
    [container.Spec], and no other of its own: an error it returns is a
    [RetryableError] only for one of these three, or when the launch
    policy functions themselves returned such an error. *)
Theorem NewRunner_errors L A lspec h e :
  snd (NewRunner L A lspec h) = Fail e ->
  (early_failure L A lspec e \/ late_failure A lspec e) /\
  (is_RetryableError e = true ->
   (exists cause,
      Hostname A = Err cause /\
      e = RetryableError (Errorf_w "cannot get hostname: [%w]" cause)) \/
   (exists leftover cause,
      NewContainer A = CreateFailed leftover cause /\
      e = RetryableError (Errorf_w "failed to create a container: [%w]" cause)) \/
   (exists cause, new_container_Spec A = Err cause /\ e = RetryableError cause) \/
   (exists labels, GetLaunchPolicy L labels = Err e) \/
   (exists policy, Verify L policy lspec = Some e)).
Proof.
  intros Hfail.
  assert (Hclass : early_failure L A lspec e \/ late_failure A lspec e).
  { destruct (NewRunner_cases L A lspec h)
      as [(pre & e' & Hrun & _ & Hearly) |
          (tl & image & envs & labels & policy & hostname & _ & _ & _ & _ & _ & _ & _ & Hrun)];
      rewrite Hrun in Hfail; cbn [snd] in Hfail.
    - inversion Hfail; subst. left; exact Hearly.
    - right. eapply NewRunner_create_fails. exact Hfail. }
  split; [exact Hclass | ].
  intros Hretry. destruct Hclass as [Hearly | Hlate].
  - destruct Hearly as [cause Hp | e Hf | labels e Hl Hg | labels policy e Hl Hg Hv | cause Hh].
    + discriminate.
    + apply formatEnvVars_from_Err in Hf.
      destruct Hf as (pre & v & rest & out & cause & _ & _ & _ & ->). discriminate.
    + right; right; right; left. eauto.
    + right; right; right; right. eauto.
    + left. eauto.
  - destruct Hlate as [leftover cause Hc | cause Hc Hs | spec Hc Hs Hlen | cause Hc Hd | cause Hc Hr];
      try discriminate.
    + right; left. eauto.
    + right; right; left. eauto.
Qed.

(** When [NewContainer] fails, [NewRunner] returns a retryable error that
    wraps the cause, and when a container came back with the error it asks
    for its deletion, as its last call; no other call follows the
    request for the container. *)
Theorem failed_creation_is_cleaned_up L A lspec h leftover cause :
  NewContainer A = CreateFailed leftover cause ->
  existsb is_new_container (fst (NewRunner L A lspec h)) = true ->
  snd (NewRunner L A lspec h) =
    Fail (RetryableError (Errorf_w "failed to create a container: [%w]" cause)) /\
  exists pre opts,
    fst (NewRunner L A lspec h) =
      pre ++ EvNewContainer containerID opts leftover
          :: (if leftover then [EvContainerDelete containerID (Delete_leftover A)] else []) /\
    existsb is_new_container pre = false /\
    forall b,
      container_exists containerID b (fst (NewRunner L A lspec h)) =
        if leftover then negb (Delete_leftover A) else container_exists containerID b pre.
Proof.
  intros Hnc Hex.
  destruct (NewRunner_cases L A lspec h)
    as [(pre & e & Hrun & Hpre & _) |
        (tl & image & envs & labels & policy & hostname
           & Hpull & Hfmt & Hread & Htl & Hpol & Hver & Hhost & Hrun)];
    rewrite Hrun in *; cbn [fst snd] in *.
  - rewrite (setup_no_creation _ Hpre) in Hex. discriminate.
  - rewrite NewRunner_create_eq, Hnc. cbn [fst snd]. split; [reflexivity | ].
    eexists _, _. split; [reflexivity | ]. split.
    { apply setup_no_creation.
      pose proof (setup_prefix A lspec). pose proof (setup_labels tl Htl).
      pose proof (setup_labels_log labels). pose proof (setup_config_log A).
      setup_calls. }
    intros b. rewrite container_exists_app.
    destruct leftover; [ | reflexivity].
    unfold container_exists. simpl. destruct (Delete_leftover A); reflexivity.
Qed.

(** When [NewRunner] returns a runner, it is the runner of the container
    ["tee-container"] with the given launch spec; the container exists,
    its spec has strictly more process arguments than the operator's
    [Cmd] has elements, and the last calls of [NewRunner] are the creation
    of the container, the fetch of its spec, and the creation of the HTTP
    client, of the REST client for the given address and of the
    attestation agent. *)
Theorem NewRunner_returns_a_runner L A lspec h r :
  snd (NewRunner L A lspec h) = Ret r ->
  container r = "tee-container" /\
  launchSpec r = lspec /\
  agent_principals (attestAgent r) = ImpersonateServiceAccounts lspec /\
  (exists spec,
     new_container_Spec A = Ok spec /\
     (List.length (Cmd lspec) < List.length (Process_Args spec))%nat) /\
  (exists pre opts,
     fst (NewRunner L A lspec h) =
       pre ++ [EvNewContainer containerID opts true; EvContainerSpec; EvDefaultClient;
               EvRestNewClient (AttestationServiceAddr lspec); EvCreateAttestationAgent] /\
     existsb is_new_container pre = false) /\
  forall b, container_exists containerID b (fst (NewRunner L A lspec h)) = true.
Proof.
  intros Hret.
  destruct (NewRunner_cases L A lspec h)
    as [(pre & e & Hrun & Hpre & _) |
        (tl & image & envs & labels & policy & hostname
           & Hpull & Hfmt & Hread & Htl & Hpol & Hver & Hhost & Hrun)];
    rewrite Hrun in *; cbn [fst snd] in *; [discriminate | ].
  rewrite NewRunner_create_eq in *.
  destruct (NewContainer A); [ | discriminate].
  destruct (new_container_Spec A) as [spec|]; [ | discriminate].
  destruct (List.length (Process_Args spec) <=? List.length (Cmd lspec))%nat eqn:Hlen;
    [discriminate | ].
  destruct (DefaultClient A); [discriminate | ].
  destruct (rest_NewClient A); [discriminate | ].
  cbn [fst snd] in *. inversion Hret; subst.
  do 3 (split; [reflexivity | ]).
  split; [exists spec; split; [reflexivity | apply Nat.leb_gt; exact Hlen] | ].
  split.
  - eexists _, _. split; [reflexivity | ].
    apply setup_no_creation.
    pose proof (setup_prefix A lspec). pose proof (setup_labels tl Htl).
    pose proof (setup_labels_log labels). pose proof (setup_config_log A).
    setup_calls.
  - intros b. rewrite container_exists_app. reflexivity.
Qed.

(** [NewRunner] never deletes a container it has created: once
    [NewContainer] has succeeded, no deletion follows, and the container
    exists when [NewRunner] ends, whether it returns the runner or an
    error (of the fetch of the spec, of the check of the entry point, or
    of the creation of a client). *)
Theorem created_container_is_kept L A lspec h :
  NewContainer A = Created ->
  existsb is_new_container (fst (NewRunner L A lspec h)) = true ->
  (exists pre opts post,
     fst (NewRunner L A lspec h) = pre ++ EvNewContainer containerID opts true :: post /\
     existsb is_container_delete post = false) /\
  forall b, container_exists containerID b (fst (NewRunner L A lspec h)) = true.
Proof.
  intros Hnc Hex.
  destruct (NewRunner_cases L A lspec h)
    as [(pre & e & Hrun & Hpre & _) |
        (tl & image & envs & labels & policy & hostname
           & Hpull & Hfmt & Hread & Htl & Hpol & Hver & Hhost & Hrun)];
    rewrite Hrun in *; cbn [fst snd] in *.
  - rewrite (setup_no_creation _ Hpre) in Hex. discriminate.
  - destruct (NewRunner_create_calls A lspec image envs hostname)
      as (c & post & Hcalls & Hpost & Hcreated & _).
    destruct (Hcreated Hnc) as [-> Hnodel]. rewrite Hcalls.
    split; [eexists _, _, _; split; [reflexivity | exact Hnodel] | ].
    intros b. rewrite container_exists_app.
    change (EvNewContainer containerID (container_opts lspec image envs hostname) true :: post)
      with ([EvNewContainer containerID (container_opts lspec image envs hostname) true] ++ post).
    rewrite container_exists_app.
    apply container_exists_quiet.
    clear Hcalls. induction post as [|e post IH]; [constructor | ].
    simpl in Hpost, Hnodel. apply orb_false_elim in Hpost, Hnodel.
    destruct Hpost, Hnodel. constructor; auto.
Qed.

(** ** Constructions *)

Module Construction.

(** An image with an entry point whose labels permit the overrides of
    [Scenario.lspec]; a container of an earlier launch is still there. *)
Definition stale : NewRunnerAnswers := {|
  token_Valid := false;
  Pull := Ok Scenario.image;
  LoadContainer := None;
  Delete_loaded := true;
  labels_Config := Ok Scenario.config;
  ReadBlob := Ok "labels:cmd,FOO";
  image_Config := Ok Scenario.config;
  Hostname := Ok "vm-1";
  NewContainer := Created;
  Delete_leftover := true;
  new_container_Spec := Ok {| Process_Args := ["/entrypoint"; "./run"; "--flag"];
                              Process_Env := ["PATH=/bin"; "FOO=bar"] |};
  DefaultClient := None;
  rest_NewClient := None
|}.

(** The same, but containerd fails to create the container and hands back
    the container it had begun. *)
Definition create_fails : NewRunnerAnswers := {|
  token_Valid := false;
  Pull := Ok Scenario.image;
  LoadContainer := None;
  Delete_loaded := true;
  labels_Config := Ok Scenario.config;
  ReadBlob := Ok "labels:cmd,FOO";
  image_Config := Ok Scenario.config;
  Hostname := Ok "vm-1";
  NewContainer := CreateFailed true (foreign "snapshot tee-snapshot: already exists");
  Delete_leftover := true;
  new_container_Spec := new_container_Spec stale;
  DefaultClient := None;
  rest_NewClient := None
|}.

(** The options of the container of [stale] and [create_fails]. *)
Definition opts : list NewContainerOpts :=
  container_opts Scenario.lspec Scenario.image ["FOO=bar"] "vm-1".

End Construction.

Ltac find_call := simpl; repeat first [ left; reflexivity | right ].

Lemma NewRunner_creates_what_the_policy_permits_witness :
  exists image envs labels policy hostname,
    Pull Construction.stale = Ok image /\
    formatEnvVars Scenario.lib (Envs Scenario.lspec) = Ok envs /\
    snd (getImageLabels Scenario.lib Construction.stale []) =
      match labels with Ok l => Ret l | Err e => Fail e end /\
    GetLaunchPolicy Scenario.lib (match labels with Ok l => l | Err _ => [] end) = Ok policy /\
    Verify Scenario.lib policy Scenario.lspec = None /\
    Hostname Construction.stale = Ok hostname /\
    "tee-container" = "tee-container" /\
    Construction.opts =
      [ WithImage image;
        WithNewSnapshot "tee-snapshot" image;
        WithNewSpec [ WithImageConfigArgs image (Cmd Scenario.lspec);
                      WithEnv envs;
                      WithMounts [ {| Destination := "/run/container_launcher/";
                                      mount_Type := "bind";
                                      Source := "/tmp/container_launcher/";
                                      Options := ["rbind"; "ro"] |} ];
                      WithHostHostsFile;
                      WithHostResolvconf;
                      WithHostNamespace NetworkNamespace;
                      WithEnv [("HOSTNAME=" ++ hostname)%string] ] ].
Proof.
  apply (NewRunner_creates_what_the_policy_permits Scenario.lib Construction.stale
           Scenario.lspec [] "tee-container" Construction.opts true).
  find_call.
Defined.

Lemma stale_container_is_deleted_first_witness :
  exists pre opts created post,
    fst (NewRunner Scenario.lib Construction.stale Scenario.lspec []) =
      pre ++ EvNewContainer containerID opts created :: post /\
    existsb is_new_container pre = false /\
    existsb is_new_container post = false /\
    filter is_container_delete pre = [EvContainerDelete containerID true] /\
    forall b, container_exists containerID b pre = false.
Proof.
  apply (stale_container_is_deleted_first Scenario.lib Construction.stale Scenario.lspec []).
  reflexivity.
Defined.

Lemma NewRunner_errors_witness :
  (early_failure Scenario.lib Construction.create_fails Scenario.lspec
     (RetryableError (Errorf_w "failed to create a container: [%w]"
                        (foreign "snapshot tee-snapshot: already exists"))) \/
   late_failure Construction.create_fails Scenario.lspec
     (RetryableError (Errorf_w "failed to create a container: [%w]"
                        (foreign "snapshot tee-snapshot: already exists")))) /\
  (exists leftover cause,
     NewContainer Construction.create_fails = CreateFailed leftover cause /\
     snd (NewRunner Scenario.lib Construction.create_fails Scenario.lspec []) =
       Fail (RetryableError (Errorf_w "failed to create a container: [%w]" cause))).
Proof.
  destruct (NewRunner_errors Scenario.lib Construction.create_fails Scenario.lspec [] _ eq_refl)
    as [Hclass Hretry].
  split; [exact Hclass | ].
  destruct (Hretry eq_refl)
    as [(c & Hc & _) | [(l & c & Hc & He) | [(c & Hc & _) | [(l & Hc) | (p & Hc)]]]];
    try discriminate.
  - exists l, c. split; [exact Hc | ]. inversion He; subst. reflexivity.
  - exfalso. revert Hc. unfold Scenario.lib, GetLaunchPolicy, GetLaunchPolicy_spec.
    destruct (lookup _ l) as [v|]; [ | discriminate].
    destruct (String.eqb v "true" || String.eqb v "false"); discriminate.
  - exfalso. revert Hc. unfold Scenario.lib, Verify, Verify_spec.
    destruct (negb (AllowedCmdOverride p) && _); [discriminate | ].
    destruct (forallb _ _); discriminate.
Defined.

Lemma failed_creation_is_cleaned_up_witness :
  snd (NewRunner Scenario.lib Construction.create_fails Scenario.lspec []) =
    Fail (RetryableError (Errorf_w "failed to create a container: [%w]"
                            (foreign "snapshot tee-snapshot: already exists"))) /\
  exists pre opts,
    fst (NewRunner Scenario.lib Construction.create_fails Scenario.lspec []) =
      pre ++ [EvNewContainer containerID opts true; EvContainerDelete containerID true] /\
    existsb is_new_container pre = false /\
    forall b,
      container_exists containerID b
        (fst (NewRunner Scenario.lib Construction.create_fails Scenario.lspec [])) = false.
Proof.
  apply (failed_creation_is_cleaned_up Scenario.lib Construction.create_fails Scenario.lspec []
           true (foreign "snapshot tee-snapshot: already exists")); reflexivity.
Defined.

Lemma NewRunner_returns_a_runner_witness :
  container (new_runner Scenario.lspec) = "tee-container" /\
  launchSpec (new_runner Scenario.lspec) = Scenario.lspec /\
  agent_principals (attestAgent (new_runner Scenario.lspec)) =
    ImpersonateServiceAccounts Scenario.lspec /\
  (exists spec,
     new_container_Spec Construction.stale = Ok spec /\
     (List.length (Cmd Scenario.lspec) < List.length (Process_Args spec))%nat) /\
  (exists pre opts,
     fst (NewRunner Scenario.lib Construction.stale Scenario.lspec []) =
       pre ++ [EvNewContainer containerID opts true; EvContainerSpec; EvDefaultClient;
               EvRestNewClient (AttestationServiceAddr Scenario.lspec);
               EvCreateAttestationAgent] /\
     existsb is_new_container pre = false) /\
  forall b, container_exists containerID b
              (fst (NewRunner Scenario.lib Construction.stale Scenario.lspec [])) = true.
Proof.
  apply (NewRunner_returns_a_runner Scenario.lib Construction.stale Scenario.lspec []).
  reflexivity.
Defined.

Lemma created_container_is_kept_witness :
  (exists pre opts post,
     fst (NewRunner Scenario.lib Scenario.no_entrypoint Scenario.lspec_run []) =
       pre ++ EvNewContainer containerID opts true :: post /\
     existsb is_container_delete post = false) /\
  forall b, container_exists containerID b
              (fst (NewRunner Scenario.lib Scenario.no_entrypoint Scenario.lspec_run [])) = true.
Proof.
  apply (created_container_is_kept Scenario.lib Scenario.no_entrypoint Scenario.lspec_run []);
    reflexivity.
Defined.

(** When a measurement fails during [Run], it is the last one: [Run]
    makes no further call but the deferred cancellation, and returns the
    error of the measurement, flattened into the text of a new error.
    Before, it has only made calls of the measurement, all measurements
    successful: no token is fetched and no task is created. *)
Theorem failed_measurement_ends_the_run L A r h tlv :
  In (EvMeasureEvent tlv false) (fst (Run L A r h)) ->
  exists t0 e,
    fst (Run L A r h) = t0 ++ [EvMeasureEvent tlv false; EvCancel] /\
    Forall (fun e => measuring_event e = true) t0 /\
    MeasureEvent A (measured (h ++ t0)) tlv = Some e /\
    snd (Run L A r h) = Fail (Errorf_v "failed to measure container claims: %v" e).
Proof.
  intros Hin. rewrite Run_unfold in *.
  destruct (defer _ _ h) as [t res] eqn:HR. cbn [fst snd] in *.
  apply defer_inv in HR. destruct HR as (tb & Hbody & Ht).
  assert (Hinb : In (EvMeasureEvent tlv false) tb).
  { destruct Ht as [[-> _] | [-> _]]; [exact Hin | ].
    apply in_app_or in Hin. destruct Hin as [Hin | [Hin | []]]; [exact Hin | discriminate]. }
  apply bind_inv in Hbody. destruct Hbody as [(t1 & [] & t2 & H1 & H2 & ->) | (r1 & H1 & Hab)].
  - exfalso. apply wrap_err_Ret in H1.
    destruct (stops_measureContainerClaims L A r _ _ _ H1)
      as [Hq1 | (t0 & tlv' & e & _ & _ & Hr & _)]; [ | discriminate].
    pose proof (after_measurement_measures_nothing L A r (h ++ t1)) as Hq2.
    rewrite H2 in Hq2. cbn [fst] in Hq2.
    apply in_app_or in Hinb. destruct Hinb as [Hinb | Hinb].
    + exact (not_failed_not_in _ _ (measuring_not_failed _ Hq1) Hinb).
    + rewrite Forall_forall in Hq2. specialize (Hq2 _ Hinb). discriminate.
  - apply wrap_err_inv in H1. destruct H1 as (r0 & H1 & ->).
    destruct (stops_measureContainerClaims L A r _ _ _ H1)
      as [Hq1 | (t0 & tlv' & e & -> & Hq0 & -> & Hrep)].
    + exfalso. exact (not_failed_not_in _ _ (measuring_not_failed _ Hq1) Hinb).
    + apply in_app_or in Hinb. destruct Hinb as [Hinb | [Hinb | []]].
      * exfalso. exact (not_failed_not_in _ _ (measuring_not_failed _ Hq0) Hinb).
      * inversion Hinb; subst tlv'. simpl in Hab. inversion Hab; subst.
        destruct Ht as [[_ [Hc | Hc]] | [-> _]]; try discriminate.
        exists t0, e. rewrite <- app_assoc. repeat split; auto.
Qed.

(** ** The order of measurement and attestation *)

Section MeasureThenAttest.

Variable L : Lib.

(** A body begins with the calls of its first step. *)
Lemma bind_begins {B C} (m : M B) (f : B -> M C) h :
  exists rest, fst (bind m f h) = fst (m h) ++ rest.
Proof.
  unfold bind. destruct (m h) as [t res].
  destruct res; try (exists []; rewrite app_nil_r; reflexivity).
  destruct (f a (h ++ t)) as [t' r']. exists t'. reflexivity.
Qed.

(** A refresh begins by asking the attestation agent for a token. *)
Lemma refreshToken_begins RA r h :
  exists rest,
    fst (refreshToken L RA r h) =
      [EvLog "refreshing attestation verifier OIDC token"; EvAttest] ++ rest.
Proof.
  unfold refreshToken.
  rewrite (bind_run _ _ h [EvLog "refreshing attestation verifier OIDC token"] tt) by reflexivity.
  cbn [fst].
  match goal with |- context [bind ?m ?f ?hh] => destruct (bind_begins m f hh) as (rest & Hb) end.
  rewrite Hb.
  assert (Ha : forall h', fst (wrap_err (Errorf_v "failed to retrieve attestation service token: %v")
                                 (call_result EvAttest (Attest RA)) h') = [EvAttest]).
  { intros h'. unfold wrap_err, call_result. reflexivity. }
  rewrite Ha. exists rest. reflexivity.
Qed.

End MeasureThenAttest.

(** [Run] asks for a token only after the measurement is complete: before
    the first call of [Attest], every claim of the container, up to and
    including the launch separator, has been measured successfully and the
    token directory has been made; nothing is measured afterwards. So
    every token is issued over an event log that is closed by the
    separator. *)
Theorem token_is_fetched_after_the_measurement L A r h :
  existsb is_attest (fst (Run L A r h)) = true ->
  exists pre post image spec envs,
    fst (Run L A r h) =
      pre ++ [EvMkdirAll "/tmp/container_launcher/" 484;
              EvLog "refreshing attestation verifier OIDC token"; EvAttest] ++ post /\
    484 = 7 * 8 * 8 + 4 * 8 + 4 /\
    existsb is_attest pre = false /\
    Forall (fun e => measuring_event e = true) pre /\
    container_Image A = Ok image /\
    container_Spec A = Ok spec /\
    formatEnvVars L (Envs (launchSpec r)) = Ok envs /\
    measured pre =
      container_claims image (RestartPolicy (launchSpec r)) (run_image_Config A)
        spec envs (Cmd (launchSpec r)) /\
    measured post = [].
Proof.
  intros Hat. rewrite Run_unfold in *.
  destruct (defer _ _ h) as [t res] eqn:HR. cbn [fst snd] in *.
  apply defer_inv in HR. destruct HR as (tb & Hbody & Ht).
  assert (Hnat : forall t', Forall (fun e => measuring_event e = true) t' ->
                            existsb is_attest t' = false).
  { intros t' Hq. apply existsb_none. eapply Forall_impl; [ | exact Hq].
    intros e He. destruct e; simpl in *; auto; discriminate. }
  apply bind_inv in Hbody. destruct Hbody as [(t1 & [] & t2 & H1 & H2 & ->) | (r1 & H1 & Hab)].
  2:{ exfalso. apply wrap_err_inv in H1. destruct H1 as (r0 & H1 & _).
      assert (Hq : Forall (fun e => before_task_event e = true /\ is_attest e = false) tb).
      { pose proof (emits_measureContainerClaims L
                      (fun e => before_task_event e = true /\ is_attest e = false) A r
                      (conj eq_refl eq_refl) (conj eq_refl eq_refl) (conj eq_refl eq_refl)
                      (fun _ _ => conj eq_refl eq_refl) h) as Hq.
        rewrite H1 in Hq. exact Hq. }
      apply Forall_and_r in Hq. apply existsb_none in Hq.
      destruct Ht as [[-> _] | [-> _]]; rewrite ?existsb_app, Hq in Hat; discriminate. }
  apply wrap_err_Ret in H1.
  destruct (stops_measureContainerClaims L A r _ _ _ H1)
    as [Hq1 | (t0 & tlv' & e & _ & _ & Hr & _)]; [ | discriminate].
  destruct (measureContainerClaims_Ret L A r h t1 tt H1)
    as (image & spec & envs & Hi & Hsp & He & Hmeas).
  pose proof (after_measurement_measures_nothing L A r (h ++ t1)) as Hq2.
  rewrite H2 in Hq2. cbn [fst] in Hq2.
  assert (Hshape : exists post0,
            t2 = [EvMkdirAll hostTokenPath 484] ++ post0 /\
            (MkdirAll A <> None -> post0 = []) /\
            (MkdirAll A = None ->
             exists post1, post0 = [EvLog "refreshing attestation verifier OIDC token"; EvAttest]
                                     ++ post1)).
  { unfold after_measurement in H2.
    match type of H2 with
    | bind ?m ?f ?hh = _ =>
        destruct (bind_begins m f hh) as (rest & Hb); rewrite H2 in Hb; cbn [fst] in Hb
    end.
    unfold fetchAndWriteToken, fetchAndWriteTokenWithRetry, wrap_err, bind, call_error in Hb, H2.
    destruct (MkdirAll A) as [e0|] eqn:Hmk.
    - cbn [fst] in Hb. inversion H2; subst. exists []. split; [reflexivity | ].
      split; [reflexivity | intros; discriminate].
    - destruct (refreshToken_begins L (first_refresh A) r
                  ((h ++ t1) ++ [EvMkdirAll hostTokenPath 484])) as (rest' & Hrb).
      destruct (refreshToken L (first_refresh A) r ((h ++ t1) ++ [EvMkdirAll hostTokenPath 484]))
        as [tr rr].
      cbn [fst] in Hrb. subst tr.
      destruct rr; cbn [fst call] in Hb;
        (eexists; split; [rewrite Hb; cbn [app]; reflexivity | ];
         split; [intros Hc; congruence | ]; intros _; eexists; cbn [app]; reflexivity). }
  destruct Hshape as (post0 & -> & Hfail & Hok).
  destruct (MkdirAll A) as [e0|] eqn:Hmk.
  { exfalso. rewrite (Hfail ltac:(discriminate)) in *.
    destruct Ht as [[-> _] | [-> _]];
      rewrite ?existsb_app, (Hnat _ Hq1) in Hat; discriminate. }
  destruct (Hok eq_refl) as (post1 & ->).
  assert (Hm1 : measured post1 = []).
  { apply measured_none. apply Forall_app in Hq2. destruct Hq2 as [_ Hq2].
    apply Forall_app in Hq2. destruct Hq2 as [_ Hq2]. exact Hq2. }
  assert (Hfinal : forall post,
            t = t1 ++ [EvMkdirAll hostTokenPath 484;
                       EvLog "refreshing attestation verifier OIDC token"; EvAttest] ++ post ->
            measured post = [] ->
            exists pre post image spec envs,
              t = pre ++ [EvMkdirAll "/tmp/container_launcher/" 484;
                          EvLog "refreshing attestation verifier OIDC token"; EvAttest] ++ post /\
              484 = 7 * 8 * 8 + 4 * 8 + 4 /\
              existsb is_attest pre = false /\
              Forall (fun e => measuring_event e = true) pre /\
              container_Image A = Ok image /\
              container_Spec A = Ok spec /\
              formatEnvVars L (Envs (launchSpec r)) = Ok envs /\
              measured pre =
                container_claims image (RestartPolicy (launchSpec r)) (run_image_Config A)
                  spec envs (Cmd (launchSpec r)) /\
              measured post = []).
  { intros post Hshape Hpost. exists t1, post, image, spec, envs.
    split; [exact Hshape | ]. split; [reflexivity | ].
    split; [apply Hnat; exact Hq1 | ]. split; [exact Hq1 | ].
    do 4 (split; [assumption | ]). exact Hpost. }
  destruct Ht as [[-> _] | [-> _]].
  - apply (Hfinal post1); [repeat rewrite <- app_assoc; reflexivity | exact Hm1].
  - apply (Hfinal (post1 ++ [EvCancel])); [repeat rewrite <- app_assoc; reflexivity | ].
    rewrite measured_app, Hm1. reflexivity.
Qed.

(** ** What [Run] leaves behind *)

Definition is_cancel (e : Event) : bool :=
  match e with EvCancel => true | _ => false end.

Definition is_task_delete (e : Event) : bool :=
  match e with EvTaskDelete => true | _ => false end.

Section CleanUp.

Variable L : Lib.

Lemma refresh_not_cancel e : refresh_event e = true -> is_cancel e = false.
Proof. destruct e; simpl; auto; discriminate. Qed.

(** The body of [Run] does not cancel its context. *)
Lemma Run_body_does_not_cancel A r :
  emits (fun e => is_cancel e = false)
    (wrap_err (Errorf_v "failed to measure container claims: %v")
       (measureContainerClaims L A r) ;;
     after_measurement L A r).
Proof.
  unfold after_measurement.
  repeat first [ apply emits_yield; exact refresh_not_cancel
               | apply emits_fetchAndWriteToken; [exact refresh_not_cancel | reflexivity | reflexivity]
               | apply emits_measureContainerClaims; reflexivity
               | emits_step ]; auto.
Qed.

Lemma before_task_not_deleted e : before_task_event e = true -> is_task_delete e = false.
Proof. destruct e; simpl; auto; discriminate. Qed.

Lemma waiting_not_deleted e : waiting_event e = true -> is_task_delete e = false.
Proof. destruct e; simpl; auto; discriminate. Qed.

Lemma refresh_not_deleted e : refresh_event e = true -> is_task_delete e = false.
Proof. destruct e; simpl; auto; discriminate. Qed.

Lemma exit_log_not_deleted status : existsb is_task_delete (exit_log status) = false.
Proof.
  unfold exit_log. destruct (exit_err status); [reflexivity | ].
  destruct (exit_code status =? 0); reflexivity.
Qed.

Lemma exit_log_not_created status : existsb is_new_task (exit_log status) = false.
Proof.
  unfold exit_log. destruct (exit_err status); [reflexivity | ].
  destruct (exit_code status =? 0); reflexivity.
Qed.

End CleanUp.

(** Rewrites the search for a deletion of the task in the calls of a path. *)
Ltac delete_search :=
  repeat rewrite existsb_app;
  repeat match goal with
         | Hq : Forall (fun e => before_task_event e = true) ?t |- _ =>
             rewrite ?(existsb_class is_task_delete _ t before_task_not_deleted Hq),
               ?(existsb_class is_new_task _ t (fun e H => proj1 (before_task_not_task e H)) Hq);
             clear Hq
         | Hq : Forall (fun e => waiting_event e = true) ?t |- _ =>
             rewrite ?(existsb_class is_task_delete _ t waiting_not_deleted Hq); clear Hq
         | Hq : Forall (fun e => refresh_event e = true) ?t |- _ =>
             rewrite ?(existsb_class is_task_delete _ t refresh_not_deleted Hq); clear Hq
         end;
  rewrite ?exit_log_not_deleted; simpl.

(** Whenever [Run] ends, also with an error or in a panic of its own, its
    last call is the cancellation of its context, and it is the only one.
    When the task had been created, the call before is the deletion of
    the task, and it is the only one; when the creation of the task failed
    or was not reached, no deletion of a task is asked for. *)
Theorem Run_cleans_up L A r h :
  snd (Run L A r h) <> Crash ->
  snd (Run L A r h) <> Blocked ->
  exists t,
    fst (Run L A r h) = t ++ [EvCancel] /\
    existsb is_cancel t = false /\
    ((NewTask A = None /\ task_created t = true /\
      exists t', t = t' ++ [EvTaskDelete] /\ existsb is_task_delete t' = false) \/
     ((NewTask A <> None \/ task_created t = false) /\ existsb is_task_delete t = false)).
Proof.
  intros Hnc Hnb.
  pose proof (Run_paths L A r h) as Hp.
  rewrite Run_unfold in *.
  destruct (defer _ _ h) as [t res] eqn:HR. cbn [fst snd] in *.
  apply defer_inv in HR. destruct HR as (tb & Hbody & Ht).
  destruct Ht as [[_ [Hc | Hc]] | [-> _]]; try contradiction.
  pose proof (Run_body_does_not_cancel L A r h) as Hq. rewrite Hbody in Hq. cbn [fst] in Hq.
  apply existsb_none in Hq.
  exists tb. split; [reflexivity | ]. split; [exact Hq | ].
  inversion Hp as [t0 res0 Hq0 Hres Ht0 Hr0
                  | t0 e Hq0 Hnew Ht0 Hr0
                  | t0 q Hq0 Hnew Hqq Hlog Ht0 Hr0
                  | t0 q e Hq0 Hnew Hqq Hlog Hstart Ht0 Hr0
                  | t0 q y res0 Hq0 Hnew Hqq Hlog Hstart Hy Hres Ht0 Hr0
                  | t0 q y status Hq0 Hnew Hqq Hlog Hstart Hy Hexit Ht0 Hr0].
  - right. subst t0. apply Forall_app in Hq0. destruct Hq0 as [Hq0 _].
    split; [right | ]; unfold task_created; delete_search; reflexivity.
  - right.
    assert (Heq : (t0 ++ [EvNewTask (LogRedirect (launchSpec r))]) ++ [EvCancel]
                  = tb ++ [EvCancel])
      by (rewrite <- Ht0; repeat rewrite <- app_assoc; reflexivity).
    apply app_inj_tail in Heq. destruct Heq as [<- _]. clear Ht0.
    split; [left; congruence | ]. delete_search. reflexivity.
  - congruence.
  - left.
    assert (Heq : ((t0 ++ [EvNewTask (LogRedirect (launchSpec r))] ++ q ++ [EvTaskStart])
                     ++ [EvTaskDelete]) ++ [EvCancel] = tb ++ [EvCancel])
      by (rewrite <- Ht0; repeat rewrite <- app_assoc; reflexivity).
    apply app_inj_tail in Heq. destruct Heq as [<- _]. clear Ht0.
    split; [exact Hnew | ]. split.
    + unfold task_created. rewrite !existsb_app. simpl. rewrite orb_true_r. reflexivity.
    + eexists. split; [reflexivity | ]. delete_search. reflexivity.
  - destruct Hres as [-> | [-> _]]; congruence.
  - left.
    assert (Heq : ((t0 ++ [EvNewTask (LogRedirect (launchSpec r))] ++ q ++ [EvTaskStart] ++ y
                       ++ [EvRecv] ++ exit_log status) ++ [EvTaskDelete]) ++ [EvCancel]
                  = tb ++ [EvCancel])
      by (rewrite <- Ht0; repeat rewrite <- app_assoc; reflexivity).
    apply app_inj_tail in Heq. destruct Heq as [<- _]. clear Ht0.
    split; [exact Hnew | ]. split.
    + unfold task_created. rewrite !existsb_app. simpl. rewrite orb_true_r. reflexivity.
    + eexists. split; [reflexivity | ]. delete_search. reflexivity.
Qed.

(** ** What a refresh writes, and when it panics *)

(** A refresh opens the token file only for a token that the agent
    returned, that could be parsed, that has an expiration time, and that
    is not expired at the time of the check; it opens no other file, with
    permission 0644, and what it writes is the token, or the part of it
    that was written when the write failed. *)
Theorem token_file_is_written_only_with_a_fresh_token L RA r h :
  existsb file_call (fst (refreshToken L RA r h)) = true ->
  exists token claims expiresAt,
    Attest RA = Ok token /\
    ParseRegistered L token = Ok claims /\
    ExpiresAt claims = Some expiresAt /\
    Now RA < expiresAt /\
    ((OpenFile (WriteFile RA) <> None /\
      filter file_call (fst (refreshToken L RA r h)) =
        [EvOpenFile "/tmp/container_launcher/attestation_verifier_claims_token" 420 false]) \/
     (OpenFile (WriteFile RA) = None /\
      exists written,
        filter file_call (fst (refreshToken L RA r h)) =
          [EvOpenFile "/tmp/container_launcher/attestation_verifier_claims_token" 420 true;
           EvWrite "/tmp/container_launcher/attestation_verifier_claims_token" written;
           EvClose "/tmp/container_launcher/attestation_verifier_claims_token"] /\
        match Write (WriteFile RA) with
        | None => written = token
        | Some (n, _) => written = substring 0 n token
        end)).
Proof.
  refresh_cases L RA; intros H; try discriminate;
    match goal with
    | Hnow : (Now RA <? _) = true |- _ => apply Z.ltb_lt in Hnow
    end;
    eexists _, _, _; (do 4 (split; [eassumption || reflexivity | ]));
    first [ left; split; [discriminate | reflexivity]
          | right; split; [reflexivity | ]; eexists; split; reflexivity ].
Qed.

(** A token that can be parsed but has no expiration time makes the
    refresh dereference the nil [ExpiresAt]: the refresh panics after it
    has read the clock, before any call on a file. In the background
    refresher the panic ends the process; in the first refresh of [Run]
    it ends [Run] in a panic, and no task is created. *)
Theorem token_without_expiry_panics L RA r token claims :
  Attest RA = Ok token ->
  ParseRegistered L token = Ok claims ->
  ExpiresAt claims = None ->
  (forall h,
     refreshToken L RA r h =
       ([EvLog "refreshing attestation verifier OIDC token"; EvAttest; EvNow], Panic)) /\
  (forall h, snd (refresher_attempt L r RA h) = Crash) /\
  (forall A h,
     first_refresh A = RA ->
     existsb is_attest (fst (Run L A r h)) = true ->
     snd (Run L A r h) = Panic /\
     task_created (fst (Run L A r h)) = false).
Proof.
  intros Ha Hp He.
  assert (Hrefresh : forall h,
     refreshToken L RA r h =
       ([EvLog "refreshing attestation verifier OIDC token"; EvAttest; EvNow], Panic)).
  { intros h.
    unfold refreshToken, bind, wrap_err, call_result, call, pure_result, deref, log.
    rewrite Ha. cbv beta iota zeta. rewrite Hp. cbv beta iota zeta. rewrite He. reflexivity. }
  split; [exact Hrefresh | ]. split.
  { intros h. unfold refresher_attempt. rewrite Hrefresh. reflexivity. }
  intros A h HA Hat. subst RA.
  assert (Hnc : task_created (fst (Run L A r h)) = false).
  { destruct (task_created (fst (Run L A r h))) eqn:Hc; [ | reflexivity].
    destruct (Run_task_after_refresh L A r h (or_introl Hc)) as (pre & tr & d & post & _ & Hr & _).
    rewrite Hrefresh in Hr. discriminate. }
  split; [ | exact Hnc]. clear Hnc.
  rewrite Run_unfold in *.
  destruct (defer _ _ h) as [t res] eqn:HR. cbn [fst snd] in *.
  apply defer_inv in HR. destruct HR as (tb & Hbody & Ht).
  assert (Hquiet : forall h', existsb is_attest (fst (measureContainerClaims L A r h')) = false).
  { intros h'. apply existsb_none.
    apply (emits_measureContainerClaims L (fun e => is_attest e = false) A r
             eq_refl eq_refl eq_refl (fun _ _ => eq_refl) h'). }
  apply bind_inv in Hbody. destruct Hbody as [(t1 & [] & t2 & H1 & H2 & ->) | (r1 & H1 & Hab)].
  2:{ exfalso. apply wrap_err_inv in H1. destruct H1 as (r0 & H1 & _).
      specialize (Hquiet h). rewrite H1 in Hquiet. cbn [fst] in Hquiet.
      destruct Ht as [[-> _] | [-> _]]; rewrite ?existsb_app, Hquiet in Hat; discriminate. }
  apply wrap_err_Ret in H1.
  specialize (Hquiet h). rewrite H1 in Hquiet. cbn [fst] in Hquiet.
  unfold after_measurement in H2.
  apply bind_inv in H2. destruct H2 as [(t3 & [] & t4 & H3 & H4 & ->) | (r3 & H3 & Hab)].
  { exfalso. apply wrap_err_Ret in H3.
    unfold fetchAndWriteToken, fetchAndWriteTokenWithRetry in H3.
    bind_inv H3 t5 u5 H5. bind_inv H3 t6 d H6. rewrite Hrefresh in H6. discriminate. }
  apply wrap_err_inv in H3. destruct H3 as (r0 & H3 & ->).
  unfold fetchAndWriteToken, fetchAndWriteTokenWithRetry in H3.
  apply bind_inv in H3. destruct H3 as [(t5 & [] & t6 & H5 & H3 & ->) | (r5 & H5 & Hab5)].
  - apply bind_inv in H3. destruct H3 as [(t7 & d & t8 & H7 & H3 & ->) | (r7 & H7 & Hab7)].
    + rewrite Hrefresh in H7. discriminate.
    + rewrite Hrefresh in H7. inversion H7; subst. simpl in Hab7. inversion Hab7; subst.
      simpl in Hab. inversion Hab; subst.
      destruct Ht as [[_ [Hc | Hc]] | [_ _]]; try discriminate. reflexivity.
  - exfalso. apply call_error_inv in H5. destruct H5 as [-> ->].
    destruct Ht as [[-> _] | [-> _]]; rewrite ?existsb_app, Hquiet in Hat; discriminate.
Qed.

(** [time.Until] is the difference when the difference is a [Duration]. *)
Lemma time_Until_fits t now :
  - 2 ^ 63 <= t - now < 2 ^ 63 -> time_Until t now = t - now.
Proof. unfold time_Until. lia. Qed.

(** When a refresh returns a delay and the token is not yet expired at
    the second reading of the clock, the delay is at least zero and
    strictly less than the rest of the lifetime of the token: the
    refresher, which resets its timer to this delay, comes back before
    the token expires. The delay is the one of
    [getNextRefreshFromExpiration] for the rest of the lifetime. *)
Theorem refresh_is_scheduled_before_expiry L RA r h t d token expiresAt :
  refreshToken L RA r h = (t, Ret d) ->
  Attest RA = Ok token ->
  ParseRegistered L token = Ok {| ExpiresAt := Some expiresAt |} ->
  0 < expiresAt - Until_Now RA < 2 ^ 63 ->
  Refresh.unit_interval (Float64 RA) ->
  d = Refresh.getNextRefreshFromExpiration (expiresAt - Until_Now RA) (Float64 RA) /\
  0 <= d < expiresAt - Until_Now RA /\
  10 * d <= 9 * (expiresAt - Until_Now RA) + (expiresAt - Until_Now RA) / 2 ^ 46 /\
  refresher_attempt L r RA h = (t ++ [EvTimerReset d], Ret tt).
Proof.
  intros Hr Ha Hp Hlife Hrand.
  destruct (refreshToken_Ret _ _ _ _ _ _ Hr)
    as (token' & claims & expiresAt' & mc & cs & Ha' & Hp' & He & _ & _ & _ & _ & _ & _ & _ & Hd).
  rewrite Ha in Ha'. inversion Ha'; subst token'.
  rewrite Hp in Hp'. inversion Hp'; subst claims. simpl in He. inversion He; subst expiresAt'.
  rewrite time_Until_fits in Hd by lia.
  destruct (Refresh.delay_bounds _ _ Hlife Hrand) as (Hb1 & _ & Hb3).
  rewrite <- Hd in Hb1, Hb3.
  split; [exact Hd | ]. split; [exact Hb1 | ]. split; [exact Hb3 | ].
  unfold refresher_attempt. rewrite Hr. reflexivity.
Qed.

(** ** The background refresher and the run *)

(** The answers of a run in which the refresher does nothing. *)
Definition without_refresher (A : RunAnswers) : RunAnswers := {|
  container_Image := container_Image A;
  MeasureEvent := MeasureEvent A;
  run_image_Config := run_image_Config A;
  container_Spec := container_Spec A;
  MkdirAll := MkdirAll A;
  first_refresh := first_refresh A;
  refresher := fun _ => [];
  NewTask := NewTask A;
  task_Wait := task_Wait A;
  task_Start := task_Start A;
  exitStatusC := exitStatusC A
|}.

(** The calls that are not those of a refresh: the calls on the image,
    the container, the event log, the token directory and the task. *)
Definition own_call (e : Event) : bool := negb (refresh_event e).

(** Two executions end alike and make the same calls of their own. *)
Definition agree {B} (x y : list Event * res B) : Prop :=
  snd x = snd y /\ filter own_call (fst x) = filter own_call (fst y).

Definition alike {B} (m m' : M B) : Prop := forall h h', agree (m h) (m' h').

Section Refresher.

Variable L : Lib.
Variable r : ContainerRunner.

Lemma alike_leaf {B} (m : M B) : (forall h h', m h = m h') -> alike m m.
Proof. intros H h h'. rewrite (H h h'). split; reflexivity. Qed.

Lemma alike_bind {B C} (m m' : M B) (f f' : B -> M C) :
  alike m m' -> (forall a, alike (f a) (f' a)) -> alike (bind m f) (bind m' f').
Proof.
  intros Hm Hf h h'. unfold bind. specialize (Hm h h'). unfold agree in *.
  destruct (m h) as [t1 r1], (m' h') as [t1' r1']. cbn [fst snd] in Hm.
  destruct Hm as [<- Ht]. destruct r1; cbn [fst snd]; auto.
  specialize (Hf a (h ++ t1) (h' ++ t1')). unfold agree in Hf.
  destruct (f a (h ++ t1)) as [t2 r2], (f' a (h' ++ t1')) as [t2' r2']. cbn [fst snd] in *.
  destruct Hf as [<- Ht2]. split; [reflexivity | ].
  rewrite !filter_app, Ht, Ht2. reflexivity.
Qed.

Lemma alike_wrap_err {B} wrap (m m' : M B) : alike m m' -> alike (wrap_err wrap m) (wrap_err wrap m').
Proof.
  intros Hm h h'. unfold wrap_err. specialize (Hm h h'). unfold agree in *.
  destruct (m h) as [t1 r1], (m' h') as [t1' r1']. cbn [fst snd] in *.
  destruct Hm as [<- Ht]. auto.
Qed.

Lemma alike_catch {B} (m m' : M B) : alike m m' -> alike (catch m) (catch m').
Proof.
  intros Hm h h'. unfold catch. specialize (Hm h h'). unfold agree in *.
  destruct (m h) as [t1 r1], (m' h') as [t1' r1']. cbn [fst snd] in *.
  destruct Hm as [<- Ht]. auto.
Qed.

Lemma alike_defer {B} e (m m' : M B) :
  alike m m' -> alike (defer (call e tt) m) (defer (call e tt) m').
Proof.
  intros Hm h h'. unfold defer. specialize (Hm h h'). unfold agree in *.
  destruct (m h) as [t1 r1], (m' h') as [t1' r1']. cbn [fst snd] in *.
  destruct Hm as [<- Ht]. destruct r1; cbn [fst snd call]; split; auto;
    rewrite !filter_app, Ht; reflexivity.
Qed.

(** No refresh of the background refresher panics. *)
Definition refresher_never_panics (A : RunAnswers) : Prop :=
  forall k RA h, In RA (refresher A k) -> snd (refreshToken L RA r h) <> Panic.

Lemma quiet_attempts As h :
  (forall RA h', In RA As -> snd (refreshToken L RA r h') <> Panic) ->
  snd (refresher_attempts L r As h) = Ret tt /\
  filter own_call (fst (refresher_attempts L r As h)) = [].
Proof.
  intros Hnp. split.
  - revert h. induction As as [|RA rest IH]; intros h; [reflexivity | ].
    simpl. unfold bind, refresher_attempt.
    pose proof (refreshToken_ends L RA r h) as He.
    pose proof (Hnp RA h (or_introl eq_refl)) as Hn.
    destruct (refreshToken L RA r h) as [t res]. cbn [snd] in *.
    destruct res; try contradiction; try congruence;
      match goal with
      | |- context [refresher_attempts L r rest ?hh] =>
          specialize (IH (fun RA' h' Hin => Hnp RA' h' (or_intror Hin)) hh);
          destruct (refresher_attempts L r rest hh); exact IH
      end.
  - pose proof (emits_refresher_attempts L (fun e => refresh_event e = true) r As
                  (fun e H => H) h) as Hq.
    induction Hq as [|e t He _ IH]; [reflexivity | ].
    simpl. unfold own_call at 1. rewrite He. exact IH.
Qed.

Lemma alike_yield A k :
  refresher_never_panics A ->
  alike (yield L A r k) (yield L (without_refresher A) r k).
Proof.
  intros Hnp h h'. unfold yield.
  destruct (quiet_attempts (refresher A k) h (fun RA h' Hin => Hnp k RA h' Hin)) as [Hr Ht].
  split; [rewrite Hr; reflexivity | rewrite Ht; reflexivity].
Qed.

Lemma bind_same {B C} (m m' : M B) (f f' : B -> M C) :
  (forall h, m h = m' h) -> (forall a h, f a h = f' a h) ->
  forall h, bind m f h = bind m' f' h.
Proof.
  intros Hm Hf h. unfold bind. rewrite <- Hm. destruct (m h) as [t1 r1].
  destruct r1; try reflexivity. rewrite Hf. reflexivity.
Qed.

Lemma measureEach_without_refresher A ty xs h :
  measureEach (without_refresher A) ty xs h = measureEach A ty xs h.
Proof.
  revert h. induction xs as [|x rest IH]; intros h; [reflexivity | ].
  simpl. apply bind_same; [reflexivity | intros _ h'; apply IH].
Qed.

Lemma measureContainerClaims_without_refresher A h :
  measureContainerClaims L (without_refresher A) r h = measureContainerClaims L A r h.
Proof.
  revert h. unfold measureContainerClaims.
  cbn [without_refresher container_Image run_image_Config container_Spec].
  repeat first [ (intros h; apply measureEach_without_refresher)
               | (intros h; reflexivity)
               | (apply bind_same; [ | intro ]) ].
Qed.

Lemma alike_after_measurement A :
  refresher_never_panics A ->
  alike (after_measurement L A r) (after_measurement L (without_refresher A) r).
Proof.
  intros Hnp. unfold after_measurement, fetchAndWriteToken, fetchAndWriteTokenWithRetry.
  cbn [without_refresher MkdirAll first_refresh NewTask task_Wait task_Start exitStatusC].
  repeat first [ apply alike_yield; exact Hnp
               | apply alike_bind; [ | intro ]
               | apply alike_wrap_err
               | apply alike_catch
               | apply alike_defer
               | (apply alike_leaf; intros; apply refreshToken_history)
               | (apply alike_leaf; reflexivity)
               | match goal with
                 | |- alike (match ?x with _ => _ end) _ => destruct x
                 | |- alike (if ?x then _ else _) _ => destruct x
                 end ].
Qed.

End Refresher.

(** A background refresh that fails does not change the run. As long as
    no refresh of the background refresher panics, [Run] ends as it would
    without any refresher, and makes the same calls on the image, the
    container, the event log, the token directory and the task, in the
    same order: errors of the refresher are only logged. *)
Theorem failed_background_refresh_is_harmless L A r h :
  refresher_never_panics L r A ->
  snd (Run L A r h) = snd (Run L (without_refresher A) r h) /\
  filter own_call (fst (Run L A r h)) =
    filter own_call (fst (Run L (without_refresher A) r h)).
Proof.
  intros Hnp. rewrite !Run_unfold.
  assert (Hbody : agree
            ((wrap_err (Errorf_v "failed to measure container claims: %v")
                (measureContainerClaims L A r) ;; after_measurement L A r) h)
            ((wrap_err (Errorf_v "failed to measure container claims: %v")
                (measureContainerClaims L (without_refresher A) r) ;;
              after_measurement L (without_refresher A) r) h)).
  { unfold bind, wrap_err.
    rewrite (measureContainerClaims_without_refresher L r A h).
    fold (wrap_err (Errorf_v "failed to measure container claims: %v")
            (measureContainerClaims L A r) h).
    destruct (wrap_err _ (measureContainerClaims L A r) h) as [t1 r1].
    destruct r1; try (split; reflexivity).
    pose proof (alike_after_measurement L r A Hnp (h ++ t1) (h ++ t1)) as Ha.
    unfold agree in *.
    destruct (after_measurement L A r (h ++ t1)) as [t2 r2],
             (after_measurement L (without_refresher A) r (h ++ t1)) as [t2' r2'].
    cbn [fst snd] in *. destruct Ha as [<- Ht]. split; [reflexivity | ].
    rewrite !filter_app, Ht. reflexivity. }
  unfold defer.
  match type of Hbody with
  | agree (?m h) (?m' h) => destruct (m h) as [t1 r1], (m' h) as [t1' r1']
  end.
  unfold agree in Hbody. cbn [fst snd] in Hbody. destruct Hbody as [<- Ht].
  destruct r1; cbn [fst snd call]; split; auto; rewrite !filter_app, Ht; reflexivity.
Qed.

(** ** Runs *)

Module Running.

(** The event log takes two measurements and refuses the third. *)
Definition log_full : RunAnswers := {|
  container_Image := container_Image Scenario.happy;
  MeasureEvent := fun prev _ =>
    if Nat.eqb (List.length prev) 2 then Some (foreign "event log is full") else None;
  run_image_Config := run_image_Config Scenario.happy;
  container_Spec := container_Spec Scenario.happy;
  MkdirAll := None;
  first_refresh := Scenario.fresh_token;
  refresher := refresher Scenario.happy;
  NewTask := None;
  task_Wait := None;
  task_Start := None;
  exitStatusC := exitStatusC Scenario.happy
|}.

(** While [Run] waits for the exit, the refresher gets an expired token
    and then a fresh one. *)
Definition refresher_fails : RunAnswers := {|
  container_Image := container_Image Scenario.happy;
  MeasureEvent := MeasureEvent Scenario.happy;
  run_image_Config := run_image_Config Scenario.happy;
  container_Spec := container_Spec Scenario.happy;
  MkdirAll := None;
  first_refresh := Scenario.fresh_token;
  refresher := fun k => if Nat.eqb k 3 then [Scenario.expired_token; Scenario.fresh_token]
                        else [];
  NewTask := None;
  task_Wait := None;
  task_Start := None;
  exitStatusC := exitStatusC Scenario.happy
|}.

(** A parser for which no token has an expiration time. *)
Definition lib_without_exp : Lib := {|
  FormatEnvVar := FormatEnvVar Scenario.lib;
  GetLaunchPolicy := GetLaunchPolicy Scenario.lib;
  Verify := Verify Scenario.lib;
  Unmarshal_labels := Unmarshal_labels Scenario.lib;
  ParseRegistered := fun _ => Ok {| ExpiresAt := None |};
  ParseMap := ParseMap Scenario.lib;
  MarshalIndent := MarshalIndent Scenario.lib
|}.

Definition restart_policy : CosTlv :=
  {| EventType := RestartPolicyType; EventContent := "Never" |}.

End Running.

Lemma failed_measurement_ends_the_run_witness :
  exists t0 e,
    fst (Run Scenario.lib Running.log_full Scenario.runner []) =
      t0 ++ [EvMeasureEvent Running.restart_policy false; EvCancel] /\
    Forall (fun e => measuring_event e = true) t0 /\
    MeasureEvent Running.log_full (measured ([] ++ t0)) Running.restart_policy = Some e /\
    snd (Run Scenario.lib Running.log_full Scenario.runner []) =
      Fail (Errorf_v "failed to measure container claims: %v" e).
Proof.
  apply (failed_measurement_ends_the_run Scenario.lib Running.log_full Scenario.runner []
           Running.restart_policy).
  find_call.
Defined.

Lemma token_is_fetched_after_the_measurement_witness :
  exists pre post image spec envs,
    fst (Run Scenario.lib Scenario.happy Scenario.runner []) =
      pre ++ [EvMkdirAll "/tmp/container_launcher/" 484;
              EvLog "refreshing attestation verifier OIDC token"; EvAttest] ++ post /\
    484 = 7 * 8 * 8 + 4 * 8 + 4 /\
    existsb is_attest pre = false /\
    Forall (fun e => measuring_event e = true) pre /\
    container_Image Scenario.happy = Ok image /\
    container_Spec Scenario.happy = Ok spec /\
    formatEnvVars Scenario.lib (Envs (launchSpec Scenario.runner)) = Ok envs /\
    measured pre =
      container_claims image (RestartPolicy (launchSpec Scenario.runner))
        (run_image_Config Scenario.happy) spec envs (Cmd (launchSpec Scenario.runner)) /\
    measured post = [].
Proof.
  apply (token_is_fetched_after_the_measurement Scenario.lib Scenario.happy Scenario.runner []).
  vm_compute. reflexivity.
Defined.

Lemma Run_cleans_up_witness :
  exists t,
    fst (Run Scenario.lib Scenario.happy Scenario.runner []) = t ++ [EvCancel] /\
    existsb is_cancel t = false /\
    ((NewTask Scenario.happy = None /\ task_created t = true /\
      exists t', t = t' ++ [EvTaskDelete] /\ existsb is_task_delete t' = false) \/
     ((NewTask Scenario.happy <> None \/ task_created t = false) /\
      existsb is_task_delete t = false)).
Proof.
  apply (Run_cleans_up Scenario.lib Scenario.happy Scenario.runner []);
    vm_compute; discriminate.
Defined.

Lemma token_file_is_written_only_with_a_fresh_token_witness :
  exists token claims expiresAt,
    Attest Scenario.fresh_token = Ok token /\
    ParseRegistered Scenario.lib token = Ok claims /\
    ExpiresAt claims = Some expiresAt /\
    Now Scenario.fresh_token < expiresAt /\
    ((OpenFile (WriteFile Scenario.fresh_token) <> None /\
      filter file_call (fst (refreshToken Scenario.lib Scenario.fresh_token Scenario.runner [])) =
        [EvOpenFile "/tmp/container_launcher/attestation_verifier_claims_token" 420 false]) \/
     (OpenFile (WriteFile Scenario.fresh_token) = None /\
      exists written,
        filter file_call (fst (refreshToken Scenario.lib Scenario.fresh_token Scenario.runner [])) =
          [EvOpenFile "/tmp/container_launcher/attestation_verifier_claims_token" 420 true;
           EvWrite "/tmp/container_launcher/attestation_verifier_claims_token" written;
           EvClose "/tmp/container_launcher/attestation_verifier_claims_token"] /\
        match Write (WriteFile Scenario.fresh_token) with
        | None => written = token
        | Some (n, _) => written = substring 0 n token
        end)).
Proof.
  apply (token_file_is_written_only_with_a_fresh_token Scenario.lib Scenario.fresh_token
           Scenario.runner []).
  vm_compute. reflexivity.
Defined.

Lemma token_without_expiry_panics_witness :
  (forall h,
     refreshToken Running.lib_without_exp Scenario.fresh_token Scenario.runner h =
       ([EvLog "refreshing attestation verifier OIDC token"; EvAttest; EvNow], Panic)) /\
  (forall h,
     snd (refresher_attempt Running.lib_without_exp Scenario.runner Scenario.fresh_token h)
       = Crash) /\
  (forall A h,
     first_refresh A = Scenario.fresh_token ->
     existsb is_attest (fst (Run Running.lib_without_exp A Scenario.runner h)) = true ->
     snd (Run Running.lib_without_exp A Scenario.runner h) = Panic /\
     task_created (fst (Run Running.lib_without_exp A Scenario.runner h)) = false).
Proof.
  apply (token_without_expiry_panics Running.lib_without_exp Scenario.fresh_token
           Scenario.runner "token-1000" {| ExpiresAt := None |}); reflexivity.
Defined.

Lemma refresh_is_scheduled_before_expiry_witness :
  791 = Refresh.getNextRefreshFromExpiration (1000 - 11) 0.5 /\
  0 <= 791 < 1000 - 11 /\
  10 * 791 <= 9 * (1000 - 11) + (1000 - 11) / 2 ^ 46 /\
  refresher_attempt Scenario.lib Scenario.runner Scenario.fresh_token [] =
    (fst (refreshToken Scenario.lib Scenario.fresh_token Scenario.runner [])
       ++ [EvTimerReset 791], Ret tt).
Proof.
  apply (refresh_is_scheduled_before_expiry Scenario.lib Scenario.fresh_token Scenario.runner
           [] _ 791 "token-1000" 1000).
  - vm_compute. reflexivity.
  - reflexivity.
  - reflexivity.
  - split; reflexivity.
  - split; reflexivity.
Defined.

Lemma failed_background_refresh_is_harmless_witness :
  snd (Run Scenario.lib Running.refresher_fails Scenario.runner []) =
    snd (Run Scenario.lib (without_refresher Running.refresher_fails) Scenario.runner []) /\
  filter own_call (fst (Run Scenario.lib Running.refresher_fails Scenario.runner [])) =
    filter own_call
      (fst (Run Scenario.lib (without_refresher Running.refresher_fails) Scenario.runner [])).
Proof.
  apply (failed_background_refresh_is_harmless Scenario.lib Running.refresher_fails
           Scenario.runner []).
  intros k RA h. unfold Running.refresher_fails, refresher.
  destruct (Nat.eqb k 3); [ | intros []].
  intros [<- | [<- | []]];
    rewrite (refreshToken_history Scenario.lib _ Scenario.runner h []); discriminate.
Defined.

(** ** The end of the runner *)

(** [Close]: [r.container.Delete(ctx, containerd.WithSnapshotCleanup)];
    the error of the deletion is dropped, and nothing is returned. *)
Definition runner_Close (deleted : bool) (r : ContainerRunner) : M unit :=
  call (EvContainerDelete (container r) deleted) tt.

Section Closing.

Variable L : Lib.

(** The runner that [NewRunner] returns is that of the container it has
    created. *)
Lemma NewRunner_Ret_container A lspec h r :
  snd (NewRunner L A lspec h) = Ret r ->
  container r = containerID /\
  forall b, container_exists containerID b (fst (NewRunner L A lspec h)) = true.
Proof.
  intros Hret.
  destruct (NewRunner_cases L A lspec h)
    as [(pre & e & Hrun & Hpre & _) |
        (tl & image & envs & labels & policy & hostname
           & Hpull & Hfmt & Hread & Htl & Hpol & Hver & Hhost & Hrun)];
    rewrite Hrun in *; cbn [fst snd] in *; [discriminate | ].
  rewrite NewRunner_create_eq in *.
  destruct (NewContainer A); [ | discriminate].
  destruct (new_container_Spec A) as [spec|]; [ | discriminate].
  destruct (List.length (Process_Args spec) <=? List.length (Cmd lspec))%nat;
    [discriminate | ].
  destruct (DefaultClient A); [discriminate | ].
  destruct (rest_NewClient A); [discriminate | ].
  cbn [fst snd] in *. inversion Hret; subst.
  split; [reflexivity | ].
  intros b. rewrite container_exists_app. reflexivity.
Qed.

(** [Run] neither creates nor deletes a container. *)
Lemma Run_keeps_containers A r :
  emits (fun e => is_new_container e = false /\ is_container_delete e = false) (Run L A r).
Proof.
  assert (HP : forall e, refresh_event e = true ->
                         is_new_container e = false /\ is_container_delete e = false)
    by (intros e; destruct e; simpl; auto; discriminate).
  rewrite Run_unfold. unfold after_measurement.
  repeat first [ apply emits_yield; exact HP
               | apply emits_fetchAndWriteToken; [exact HP | split; reflexivity | split; reflexivity]
               | apply emits_measureContainerClaims; split; reflexivity
               | emits_step ]; auto.
Qed.

End Closing.

(** The life of the container. When [NewRunner] has returned a runner,
    its container exists, and it still exists after [Run], however [Run]
    ends: [Run] deletes the task, never the container. [Close] makes one
    call, the deletion of the container of the runner, and ends without a
    result: afterwards the container is gone when the deletion succeeded
    and is still there when it failed, which the caller is not told. *)
Theorem Close_deletes_the_container L A lspec h r RA deleted h' :
  snd (NewRunner L A lspec h) = Ret r ->
  let created := fst (NewRunner L A lspec h) in
  let ran := fst (Run L RA r (h ++ created)) in
  (forall b, container_exists containerID b (created ++ ran) = true) /\
  runner_Close deleted r h' = ([EvContainerDelete "tee-container" deleted], Ret tt) /\
  (forall b,
     container_exists containerID b (created ++ ran ++ fst (runner_Close deleted r h'))
       = negb deleted).
Proof.
  intros Hret created ran.
  destruct (NewRunner_Ret_container L A lspec h r Hret) as [Hid Hex].
  assert (Hran : forall b, container_exists containerID b (created ++ ran) = true).
  { intros b. rewrite container_exists_app. subst created. rewrite Hex.
    apply container_exists_quiet. apply Run_keeps_containers. }
  split; [exact Hran | ].
  unfold runner_Close, call. rewrite Hid. split; [reflexivity | ].
  intros b. cbn [fst]. rewrite app_assoc, container_exists_app, Hran.
  destruct deleted; reflexivity.
Qed.

Lemma Close_deletes_the_container_witness :
  let created := fst (NewRunner Scenario.lib Construction.stale Scenario.lspec []) in
  let ran := fst (Run Scenario.lib Scenario.happy (new_runner Scenario.lspec) ([] ++ created)) in
  (forall b, container_exists containerID b (created ++ ran) = true) /\
  runner_Close true (new_runner Scenario.lspec) [] =
    ([EvContainerDelete "tee-container" true], Ret tt) /\
  (forall b,
     container_exists containerID b
       (created ++ ran ++ fst (runner_Close true (new_runner Scenario.lspec) []))
       = negb true).
Proof.
  apply (Close_deletes_the_container Scenario.lib Construction.stale Scenario.lspec []
           (new_runner Scenario.lspec) Scenario.happy true []).
  reflexivity.
Defined.

(** ** The principal fetcher *)

(** The calls of the closure [principalFetcher] of [NewRunner] and of
    [fetchImpersonatedToken]: the GET on the metadata server, with the
    path and the query values of its URL, [impersonate.IDTokenSource],
    with the fields of its configuration, and [tokenSource.Token]. *)
Inductive FetcherCall : Type :=
| CallMdsGet (path : string) (query : list (string * list string))
| CallIDTokenSource (audience targetPrincipal : string) (includeEmail : bool)
| CallToken.

(** The replies during one call of the fetcher: of the metadata server,
    and, for the service account at each position of the list, of
    [impersonate.IDTokenSource] and of [tokenSource.Token]. *)
Record FetcherAnswers : Type := {
  mds_Get : result string;
  IDTokenSource : nat -> option error;
  Token : nat -> result string
}.

(** The errors of the fetcher: an error with one operand or none, or
    [fmt.Errorf] with a first operand formatted by [%v] and the cause
    by [%w]. *)
Inductive fetcher_error : Type :=
| an_error (e : error)
| Errorf_vw (format : string) (arg : string) (cause : error).

(** [errors.Unwrap]. *)
Definition Unwrap (e : fetcher_error) : option error :=
  match e with
  | Errorf_vw _ _ cause => Some cause
  | an_error (Errorf_w _ cause) => Some cause
  | an_error _ => None
  end.

Definition fetchImpersonatedToken (A : FetcherAnswers) (i : nat)
    (serviceAccount audience : string) : list FetcherCall * result string :=
  match IDTokenSource A i with
  | Some err =>
      ([CallIDTokenSource audience serviceAccount true],
       Err (Errorf_v "error creating token source: %v" err))
  | None =>
      match Token A i with
      | Err err =>
          ([CallIDTokenSource audience serviceAccount true; CallToken],
           Err (Errorf_v "error retrieving token: %v" err))
      | Ok token =>
          ([CallIDTokenSource audience serviceAccount true; CallToken], Ok token)
      end
  end.

(** [for _, sa := range launchSpec.ImpersonateServiceAccounts { ... }],
    from the account at position [i], with the tokens gathered so far. *)
Fixpoint impersonated_tokens (A : FetcherAnswers) (audience : string) (i : nat)
    (accounts : list string) (tokens : list string)
    : list FetcherCall * (list string + fetcher_error) :=
  match accounts with
  | [] => ([], inl tokens)
  | sa :: rest =>
      let '(t, r) := fetchImpersonatedToken A i sa audience in
      match r with
      | Err err =>
          (t, inr (Errorf_vw "failed to get impersonated token for %v: %w" sa err))
      | Ok idToken =>
          let '(t', r') := impersonated_tokens A audience (S i) rest (tokens ++ [idToken]) in
          (t ++ t', r')
      end
  end.

Definition principalFetcher (A : FetcherAnswers) (lspec : LaunchSpec) (audience : string)
    : list FetcherCall * (list string + fetcher_error) :=
  let get := CallMdsGet "instance/service-accounts/default/identity"
               [("audience", [audience]); ("format", ["full"])] in
  match mds_Get A with
  | Err err => ([get], inr (an_error (Errorf_w "failed to get principal tokens: %w" err)))
  | Ok idToken =>
      let '(t, r) :=
        impersonated_tokens A audience 0 (ImpersonateServiceAccounts lspec) [idToken] in
      (get :: t, r)
  end.

(** The two calls for the token of one service account. *)
Definition impersonation_calls (audience : string) (sa : string) : list FetcherCall :=
  [CallIDTokenSource audience sa true; CallToken].

(** The token of the account at position [i] is obtained. *)
Definition impersonated (A : FetcherAnswers) (i : nat) (token : string) : Prop :=
  IDTokenSource A i = None /\ Token A i = Ok token.

(** The impersonation of [sa], at position [i], fails with [cause] after
    the calls [t]. *)
Definition impersonation_fails (A : FetcherAnswers) (audience : string) (i : nat)
    (sa : string) (cause : error) (t : list FetcherCall) : Prop :=
  (exists err, IDTokenSource A i = Some err /\
     cause = Errorf_v "error creating token source: %v" err /\
     t = [CallIDTokenSource audience sa true]) \/
  (exists err, IDTokenSource A i = None /\ Token A i = Err err /\
     cause = Errorf_v "error retrieving token: %v" err /\
     t = [CallIDTokenSource audience sa true; CallToken]).

Section Fetcher.

Variable A : FetcherAnswers.
Variable audience : string.

Lemma impersonated_tokens_cases accounts : forall i tokens,
  (exists more,
     Forall2 (impersonated A) (seq i (List.length accounts)) more /\
     impersonated_tokens A audience i accounts tokens =
       (flat_map (impersonation_calls audience) accounts, inl (tokens ++ more))) \/
  (exists k sa more cause t,
     nth_error accounts k = Some sa /\
     Forall2 (impersonated A) (seq i k) more /\
     impersonation_fails A audience (i + k) sa cause t /\
     impersonated_tokens A audience i accounts tokens =
       (flat_map (impersonation_calls audience) (firstn k accounts) ++ t,
        inr (Errorf_vw "failed to get impersonated token for %v: %w" sa cause))).
Proof.
  induction accounts as [|sa rest IH]; intros i tokens.
  - left. exists []. split; [constructor | ]. simpl. rewrite app_nil_r. reflexivity.
  - simpl. unfold fetchImpersonatedToken.
    destruct (IDTokenSource A i) as [err|] eqn:Hs.
    { right. exists 0%nat, sa, [], (Errorf_v "error creating token source: %v" err),
               [CallIDTokenSource audience sa true].
      split; [reflexivity | ]. split; [constructor | ]. rewrite Nat.add_0_r.
      split; [left; exists err; auto | reflexivity]. }
    destruct (Token A i) as [token|err] eqn:Ht.
    2:{ right. exists 0%nat, sa, [], (Errorf_v "error retrieving token: %v" err),
                 [CallIDTokenSource audience sa true; CallToken].
        split; [reflexivity | ]. split; [constructor | ]. rewrite Nat.add_0_r.
        split; [right; exists err; auto | reflexivity]. }
    destruct (IH (S i) (tokens ++ [token]))
      as [(more & Hall & Hrun) | (k & sa' & more & cause & t & Hnth & Hall & Hfail & Hrun)];
      rewrite Hrun.
    + left. exists (token :: more). split.
      * constructor; [split; assumption | exact Hall].
      * rewrite <- app_assoc. reflexivity.
    + right. exists (S k), sa', (token :: more), cause, t.
      split; [exact Hnth | ]. split.
      * simpl. constructor; [split; assumption | exact Hall].
      * split; [rewrite Nat.add_succ_r; exact Hfail | reflexivity].
Qed.

Lemma impersonated_at i n more k :
  Forall2 (impersonated A) (seq i n) more -> (k < n)%nat ->
  exists token, impersonated A (i + k) token.
Proof.
  revert i more k. induction n as [|n IH]; intros i more k H Hk; [lia | ].
  simpl in H. inversion H as [|j token js toks Hj Hrest]; subst.
  destruct k as [|k].
  - exists token. rewrite Nat.add_0_r. exact Hj.
  - destruct (IH (S i) toks k Hrest ltac:(lia)) as (token' & Ht).
    exists token'. rewrite Nat.add_succ_r. exact Ht.
Qed.

Lemma impersonated_unique l more more' :
  Forall2 (impersonated A) l more -> Forall2 (impersonated A) l more' -> more = more'.
Proof.
  intros H. revert more'. induction H as [|j token js toks [_ Hj] _ IH]; intros more' H';
    inversion H' as [|j' token' js' toks' [_ Hj'] Hrest]; subst; [reflexivity | ].
  rewrite Hj in Hj'. inversion Hj'; subst. f_equal. apply IH. exact Hrest.
Qed.

Lemma not_both i sa cause t token :
  impersonation_fails A audience i sa cause t -> impersonated A i token -> False.
Proof.
  intros [(err & Hs & _) | (err & _ & Ht & _)] [Hs' Ht']; congruence.
Qed.

End Fetcher.

(** The fetcher returns tokens exactly when the metadata server returns
    the identity token of the default service account and the
    impersonation of every account of the launch spec succeeds. It then
    returns the token of the default account first, followed by the
    tokens of the impersonated accounts in the order of the launch spec,
    one each, and it has asked the metadata server once and for each
    account for a token source and its token, in this order. *)
Theorem principalFetcher_returns_every_token A lspec audience tokens :
  snd (principalFetcher A lspec audience) = inl tokens <->
  exists idToken more,
    mds_Get A = Ok idToken /\
    Forall2 (impersonated A)
      (seq 0 (List.length (ImpersonateServiceAccounts lspec))) more /\
    tokens = idToken :: more /\
    fst (principalFetcher A lspec audience) =
      CallMdsGet "instance/service-accounts/default/identity"
        [("audience", [audience]); ("format", ["full"])]
      :: flat_map (impersonation_calls audience) (ImpersonateServiceAccounts lspec).
Proof.
  unfold principalFetcher.
  destruct (mds_Get A) as [idToken|err] eqn:Hget.
  2:{ split; [discriminate | intros (i & m & H & _); discriminate]. }
  destruct (impersonated_tokens_cases A audience (ImpersonateServiceAccounts lspec) 0 [idToken])
    as [(more & Hall & Hrun) | (k & sa & more & cause & t & Hnth & Hall & Hfail & Hrun)];
    rewrite Hrun; cbn [fst snd].
  - split.
    + intros H. inversion H; subst. exists idToken, more. auto.
    + intros (idToken' & more' & Hi & Hall' & -> & _). inversion Hi; subst.
      rewrite (impersonated_unique A _ _ _ Hall Hall'). reflexivity.
  - split; [discriminate | ].
    intros (idToken' & more' & _ & Hall' & _). exfalso.
    assert (Hk : (k < List.length (ImpersonateServiceAccounts lspec))%nat)
      by (apply nth_error_Some; congruence).
    destruct (impersonated_at A _ _ _ _ Hall' Hk) as (token & Htok).
    exact (not_both A audience _ _ _ _ _ Hfail Htok).
Qed.

(** When the fetcher fails, it returns no token, also not those it had
    obtained. Either the metadata server failed: then no impersonation
    is tried, and the error wraps that of the server. Or the
    impersonation of one account failed, after that of all accounts
    before it succeeded: then the accounts after it are not tried, the
    error names the account, and what it wraps is the error of
    [fetchImpersonatedToken], in which the error of the library is
    flattened into text. *)
Theorem principalFetcher_stops_at_the_first_failure A lspec audience e :
  snd (principalFetcher A lspec audience) = inr e ->
  let get := CallMdsGet "instance/service-accounts/default/identity"
               [("audience", [audience]); ("format", ["full"])] in
  (exists err,
     mds_Get A = Err err /\
     e = an_error (Errorf_w "failed to get principal tokens: %w" err) /\
     Unwrap e = Some err /\
     fst (principalFetcher A lspec audience) = [get]) \/
  (exists idToken k sa more cause t,
     mds_Get A = Ok idToken /\
     nth_error (ImpersonateServiceAccounts lspec) k = Some sa /\
     Forall2 (impersonated A) (seq 0 k) more /\
     impersonation_fails A audience k sa cause t /\
     e = Errorf_vw "failed to get impersonated token for %v: %w" sa cause /\
     Unwrap e = Some cause /\
     fst (principalFetcher A lspec audience) =
       get :: flat_map (impersonation_calls audience)
                (firstn k (ImpersonateServiceAccounts lspec)) ++ t).
Proof.
  unfold principalFetcher.
  destruct (mds_Get A) as [idToken|err] eqn:Hget; cbn zeta.
  2:{ intros H. inversion H; subst. left. exists err. auto. }
  destruct (impersonated_tokens_cases A audience (ImpersonateServiceAccounts lspec) 0 [idToken])
    as [(more & Hall & Hrun) | (k & sa & more & cause & t & Hnth & Hall & Hfail & Hrun)];
    rewrite Hrun; cbn [fst snd]; intros H; [discriminate | ].
  inversion H; subst. right. exists idToken, k, sa, more, cause, t. auto 10.
Qed.

Module Fetching.

(** The launch spec of [Scenario.lspec] with two accounts to impersonate. *)
Definition lspec : LaunchSpec := {|
  ImageRef := ImageRef Scenario.lspec;
  Cmd := Cmd Scenario.lspec;
  Envs := Envs Scenario.lspec;
  RestartPolicy := RestartPolicy Scenario.lspec;
  ImpersonateServiceAccounts := ["a@project.iam"; "b@project.iam"];
  AttestationServiceAddr := AttestationServiceAddr Scenario.lspec;
  ProjectID := ProjectID Scenario.lspec;
  Region := Region Scenario.lspec;
  LogRedirect := LogRedirect Scenario.lspec
|}.

(** Every token is obtained. *)
Definition granted : FetcherAnswers := {|
  mds_Get := Ok "default-token";
  IDTokenSource := fun _ => None;
  Token := fun i => if Nat.eqb i 0 then Ok "token-a" else Ok "token-b"
|}.

(** The first account is impersonated; the token of the second is
    refused. *)
Definition second_refused : FetcherAnswers := {|
  mds_Get := Ok "default-token";
  IDTokenSource := fun _ => None;
  Token := fun i => if Nat.eqb i 0 then Ok "token-a"
                    else Err (foreign "iam.serviceAccounts.getOpenIdToken denied")
|}.

End Fetching.

Lemma principalFetcher_returns_every_token_witness :
  snd (principalFetcher Fetching.granted Fetching.lspec "https://sts.googleapis.com")
    = inl ["default-token"; "token-a"; "token-b"].
Proof.
  apply (principalFetcher_returns_every_token Fetching.granted Fetching.lspec
           "https://sts.googleapis.com" ["default-token"; "token-a"; "token-b"]).
  exists "default-token", ["token-a"; "token-b"].
  split; [reflexivity | ]. split; [ | split; reflexivity].
  repeat constructor.
Defined.

Lemma principalFetcher_stops_at_the_first_failure_witness :
  let e := Errorf_vw "failed to get impersonated token for %v: %w" "b@project.iam"
             (Errorf_v "error retrieving token: %v"
                (foreign "iam.serviceAccounts.getOpenIdToken denied")) in
  let get := CallMdsGet "instance/service-accounts/default/identity"
               [("audience", ["https://sts.googleapis.com"]); ("format", ["full"])] in
  (exists err,
     mds_Get Fetching.second_refused = Err err /\
     e = an_error (Errorf_w "failed to get principal tokens: %w" err) /\
     Unwrap e = Some err /\
     fst (principalFetcher Fetching.second_refused Fetching.lspec "https://sts.googleapis.com")
       = [get]) \/
  (exists idToken k sa more cause t,
     mds_Get Fetching.second_refused = Ok idToken /\
     nth_error (ImpersonateServiceAccounts Fetching.lspec) k = Some sa /\
     Forall2 (impersonated Fetching.second_refused) (seq 0 k) more /\
     impersonation_fails Fetching.second_refused "https://sts.googleapis.com" k sa cause t /\
     e = Errorf_vw "failed to get impersonated token for %v: %w" sa cause /\
     Unwrap e = Some cause /\
     fst (principalFetcher Fetching.second_refused Fetching.lspec "https://sts.googleapis.com")
       = get :: flat_map (impersonation_calls "https://sts.googleapis.com")
                  (firstn k (ImpersonateServiceAccounts Fetching.lspec)) ++ t).
Proof.
  apply (principalFetcher_stops_at_the_first_failure Fetching.second_refused Fetching.lspec
           "https://sts.googleapis.com").
  reflexivity.
Defined.

End Launcher.

(** * The quote verifier *)

Module Quote.

(** ** Data of [go-tpm] and of the protocol buffers *)

(** [tpm2.Algorithm] is a 16-bit identifier. *)
Definition Algorithm : Type := Z.
Definition AlgRSASSA : Algorithm := 20.
Definition AlgRSAPSS : Algorithm := 22.
Definition AlgECDSA : Algorithm := 24.
Definition AlgSHA1 : Algorithm := 4.
Definition AlgSHA256 : Algorithm := 11.

(** [tpm2.TagAttestQuote]. *)
Definition TagAttestQuote : Z := 32792.

(** [crypto.Hash]. *)
Inductive Hash : Type := SHA1 | SHA256 | SHA384 | SHA512.

Record SignatureRSA : Type := { rsa_HashAlg : Algorithm; rsa_Signature : string }.
Record SignatureECC : Type := { ecc_HashAlg : Algorithm; ecc_R : Z; ecc_S : Z }.

(** [tpm2.Signature]: [RSA] and [ECC] are pointers, of which the decoder
    sets the one that goes with [Alg] and leaves the other nil. *)
Record Signature : Type := {
  Alg : Algorithm;
  RSA : option SignatureRSA;
  ECC : option SignatureECC
}.

Record PCRSelection : Type := { sel_Hash : Algorithm; sel_PCRs : list Z }.

Record QuoteInfo : Type := { PCRSelection_ : PCRSelection; PCRDigest_ : string }.

Record AttestationData : Type := {
  Type_ : Z;
  ExtraData : string;
  AttestedQuoteInfo : option QuoteInfo
}.

(** [pb.PCRs]: the bank and the values by index; a map is a list of
    bindings with distinct keys. *)
Record PCRs : Type := { pcrs_Hash : Z; pcrs_Pcrs : list (Z * string) }.

Record pbQuote : Type := { Quote_ : string; RawSig : string; Pcrs : option PCRs }.

(** The getters of a protocol buffer message accept the nil message. *)
Definition GetRawSig (q : option pbQuote) : string :=
  match q with Some m => RawSig m | None => "" end.

Definition GetQuote (q : option pbQuote) : string :=
  match q with Some m => Quote_ m | None => "" end.

Definition GetPcrs (q : option pbQuote) : option PCRs :=
  match q with Some m => Pcrs m | None => None end.

Definition GetHash (p : option PCRs) : Z :=
  match p with Some m => pcrs_Hash m | None => 0 end.

Definition GetPcrs_map (p : option PCRs) : list (Z * string) :=
  match p with Some m => pcrs_Pcrs m | None => [] end.

(** [crypto.PublicKey] is an interface; the verifier knows two of its
    implementations. *)
Inductive PublicKey : Type :=
| ecdsa_PublicKey (key : string)
| rsa_PublicKey (key : string)
| other_PublicKey (type : string).

(** ** The library functions the verifier calls *)

(** [tpm2.DecodeSignature], [Algorithm.Hash], the digest of a message
    ([hash.New], [Write], [Sum]), [ecdsa.Verify], [rsa.VerifyPKCS1v15] and
    [tpm2.DecodeAttestationData]. *)
Record Crypto : Type := {
  DecodeSignature : string -> result Signature;
  Algorithm_Hash : Algorithm -> result Hash;
  Sum : Hash -> string -> string;
  ecdsa_Verify : string -> string -> Z -> Z -> bool;
  rsa_VerifyPKCS1v15 : string -> Hash -> string -> string -> option error;
  DecodeAttestationData : string -> result AttestationData
}.

(** [subtle.ConstantTimeCompare]: 1 when the two slices have the same
    length and contents, 0 otherwise. *)
Definition ConstantTimeCompare (x y : string) : Z :=
  if String.eqb x y then 1 else 0.

(** The bindings of a map by ascending key. *)
Fixpoint insert_binding (b : Z * string) (m : list (Z * string)) : list (Z * string) :=
  match m with
  | [] => [b]
  | b' :: rest => if fst b <=? fst b' then b :: m else b' :: insert_binding b rest
  end.

Definition by_index (m : list (Z * string)) : list (Z * string) :=
  fold_right insert_binding [] m.

(** [r] and then, when it returned, [k]. *)
Definition and_then {A B} (r : res A) (k : A -> res B) : res B :=
  match r with
  | Ret a => k a
  | Fail e => Fail e
  | Panic => Panic
  | Crash => Crash
  | Blocked => Blocked
  end.

Section Verifier.

Variable C : Crypto.

(** Modelled from the spec: [PCRDigest] of the package [internal], which
    is not among the sources: the digest is "computed by hashing the
    concatenation of selected PCR values under the signature's hash
    algorithm"; the values are taken by ascending index. *)
Definition PCRDigest (p : option PCRs) (hashAlg : Hash) : string :=
  Sum C hashAlg (String.concat "" (map snd (by_index (GetPcrs_map p)))).

(** Modelled from the spec: [SamePCRSelection] of the package [internal],
    which is not among the sources: the provided PCRs and the quote have
    an "identical PCR selection": the same bank and the same indices. *)
Definition SamePCRSelection (p : option PCRs) (sel : PCRSelection) : bool :=
  (GetHash p =? sel_Hash sel)
  && (List.length (GetPcrs_map p) =? List.length (sel_PCRs sel))%nat
  && forallb (fun pcr => existsb (fun b => fst b =? pcr) (GetPcrs_map p)) (sel_PCRs sel).

Definition verifyECDSAQuoteSignature (ecdsaPub : string) (hash : Hash) (quoted : string)
    (sig : Signature) : res unit :=
  if negb (Alg sig =? AlgECDSA) then
    Fail (errors_New "signature scheme is not supported, only ECDSA is supported")
  else
    match ECC sig with
    | None => Panic
    | Some ecc =>
        if negb (ecdsa_Verify C ecdsaPub (Sum C hash quoted) (ecc_R ecc) (ecc_S ecc)) then
          Fail (errors_New "ECC signature verification failed")
        else Ret tt
    end.

Definition verifyRSASSAQuoteSignature (rsaPub : string) (hash : Hash) (quoted : string)
    (sig : Signature) : res unit :=
  if negb (Alg sig =? AlgRSASSA) then
    Fail (errors_New "signature scheme is not supported, only RSASSA (PKCS#1 v1.5) is supported")
  else
    match RSA sig with
    | None => Panic
    | Some rsa =>
        match rsa_VerifyPKCS1v15 C rsaPub hash (Sum C hash quoted) (rsa_Signature rsa) with
        | Some err => Fail (Errorf_v "RSASSA signature verification failed: %v" err)
        | None => Ret tt
        end
    end.

Definition validatePCRDigest (quoteInfo : QuoteInfo) (pcrs : option PCRs) (hash : Hash)
    : res unit :=
  if negb (SamePCRSelection pcrs (PCRSelection_ quoteInfo)) then
    Fail (errors_New "given PCRs and Quote do not have the same PCR selection")
  else
    let pcrDigest := PCRDigest pcrs hash in
    if ConstantTimeCompare (PCRDigest_ quoteInfo) pcrDigest =? 0 then
      Fail (errors_New "given PCRs digest not matching")
    else Ret tt.

(** The [switch] on the type of the key: the hash of the signature, once
    the signature is verified. *)
Definition verify_signature (q : option pbQuote) (trustedPub : PublicKey) (sig : Signature)
    : res Hash :=
  match trustedPub with
  | ecdsa_PublicKey pub =>
      match ECC sig with
      | None => Panic
      | Some ecc =>
          match Algorithm_Hash C (ecc_HashAlg ecc) with
          | Err err => Fail err
          | Ok hash =>
              and_then (verifyECDSAQuoteSignature pub hash (GetQuote q) sig)
                (fun _ => Ret hash)
          end
      end
  | rsa_PublicKey pub =>
      match RSA sig with
      | None => Panic
      | Some rsa =>
          match Algorithm_Hash C (rsa_HashAlg rsa) with
          | Err err => Fail err
          | Ok hash =>
              and_then (verifyRSASSAQuoteSignature pub hash (GetQuote q) sig)
                (fun _ => Ret hash)
          end
      end
  | other_PublicKey type =>
      Fail (Errorf_s "only RSA and ECC public keys are currently supported, received type: %T"
              type)
  end.

Definition VerifyQuote (q : option pbQuote) (trustedPub : PublicKey) (extraData : string)
    : res unit :=
  match DecodeSignature C (GetRawSig q) with
  | Err err => Fail (Errorf_v "signature decoding failed: %v" err)
  | Ok sig =>
      and_then (verify_signature q trustedPub sig) (fun hash =>
        match DecodeAttestationData C (GetQuote q) with
        | Err err => Fail (Errorf_v "decoding attestation data failed: %v" err)
        | Ok attestationData =>
            if negb (Type_ attestationData =? TagAttestQuote) then
              Fail (errors_New "expected quote tag")
            else
              match AttestedQuoteInfo attestationData with
              | None => Fail (errors_New "attestation data does not contain quote info")
              | Some attestedQuoteInfo =>
                  if ConstantTimeCompare (ExtraData attestationData) extraData =? 0 then
                    Fail (errors_New "quote extraData did not match expected extraData")
                  else validatePCRDigest attestedQuoteInfo (GetPcrs q) hash
              end
        end)
  end.

(** ** What a verified quote satisfies *)

(** The conditions of the verification, for a signature [sig], a hash
    [hash] and attestation data [ad]. *)
Definition signature_matches_key (trustedPub : PublicKey) (sig : Signature) (hash : Hash)
    (quoted : string) : Prop :=
  match trustedPub with
  | ecdsa_PublicKey pub =>
      Alg sig = AlgECDSA /\
      exists ecc, ECC sig = Some ecc /\
        Algorithm_Hash C (ecc_HashAlg ecc) = Ok hash /\
        ecdsa_Verify C pub (Sum C hash quoted) (ecc_R ecc) (ecc_S ecc) = true
  | rsa_PublicKey pub =>
      Alg sig = AlgRSASSA /\
      exists rsa, RSA sig = Some rsa /\
        Algorithm_Hash C (rsa_HashAlg rsa) = Ok hash /\
        rsa_VerifyPKCS1v15 C pub hash (Sum C hash quoted) (rsa_Signature rsa) = None
  | other_PublicKey _ => False
  end.

(** The part of a decoded signature that goes with the key is set. *)
Definition part_for_key (trustedPub : PublicKey) (sig : Signature) : bool :=
  match trustedPub with
  | ecdsa_PublicKey _ => match ECC sig with Some _ => true | None => false end
  | rsa_PublicKey _ => match RSA sig with Some _ => true | None => false end
  | other_PublicKey _ => true
  end.

Definition quote_is_valid (q : option pbQuote) (trustedPub : PublicKey) (extraData : string)
    : Prop :=
  exists sig hash ad info,
    DecodeSignature C (GetRawSig q) = Ok sig /\
    signature_matches_key trustedPub sig hash (GetQuote q) /\
    DecodeAttestationData C (GetQuote q) = Ok ad /\
    Type_ ad = TagAttestQuote /\
    AttestedQuoteInfo ad = Some info /\
    ExtraData ad = extraData /\
    SamePCRSelection (GetPcrs q) (PCRSelection_ info) = true /\
    PCRDigest (GetPcrs q) hash = PCRDigest_ info.

Lemma ConstantTimeCompare_eq x y : (ConstantTimeCompare x y =? 0) = false <-> x = y.
Proof.
  unfold ConstantTimeCompare. destruct (String.eqb x y) eqn:E.
  - apply String.eqb_eq in E. split; auto.
  - apply String.eqb_neq in E. split; [discriminate | contradiction].
Qed.

(** The outcomes of the two signature checks. *)
Lemma verifyECDSAQuoteSignature_cases pub hash quoted sig :
  (verifyECDSAQuoteSignature pub hash quoted sig = Ret tt /\
   Alg sig = AlgECDSA /\
   exists ecc, ECC sig = Some ecc /\
     ecdsa_Verify C pub (Sum C hash quoted) (ecc_R ecc) (ecc_S ecc) = true) \/
  (exists err, verifyECDSAQuoteSignature pub hash quoted sig = Fail err /\
     (Alg sig <> AlgECDSA \/
      exists ecc, ECC sig = Some ecc /\
        ecdsa_Verify C pub (Sum C hash quoted) (ecc_R ecc) (ecc_S ecc) = false)) \/
  (verifyECDSAQuoteSignature pub hash quoted sig = Panic /\ ECC sig = None).
Proof.
  unfold verifyECDSAQuoteSignature.
  destruct (Alg sig =? AlgECDSA) eqn:Halg; simpl.
  - apply Z.eqb_eq in Halg. destruct (ECC sig) as [ecc|]; [ | right; right; auto].
    destruct (ecdsa_Verify C pub (Sum C hash quoted) (ecc_R ecc) (ecc_S ecc)) eqn:Hv; simpl.
    + left. repeat split; auto. exists ecc. auto.
    + right; left. eexists. split; [reflexivity | right; exists ecc; auto].
  - apply Z.eqb_neq in Halg. right; left. eexists. split; [reflexivity | left; exact Halg].
Qed.

Lemma verifyRSASSAQuoteSignature_cases pub hash quoted sig :
  (verifyRSASSAQuoteSignature pub hash quoted sig = Ret tt /\
   Alg sig = AlgRSASSA /\
   exists rsa, RSA sig = Some rsa /\
     rsa_VerifyPKCS1v15 C pub hash (Sum C hash quoted) (rsa_Signature rsa) = None) \/
  (exists err, verifyRSASSAQuoteSignature pub hash quoted sig = Fail err /\
     (Alg sig <> AlgRSASSA \/
      exists rsa e, RSA sig = Some rsa /\
        rsa_VerifyPKCS1v15 C pub hash (Sum C hash quoted) (rsa_Signature rsa) = Some e)) \/
  (verifyRSASSAQuoteSignature pub hash quoted sig = Panic /\ RSA sig = None).
Proof.
  unfold verifyRSASSAQuoteSignature.
  destruct (Alg sig =? AlgRSASSA) eqn:Halg; simpl.
  - apply Z.eqb_eq in Halg. destruct (RSA sig) as [rsa|]; [ | right; right; auto].
    destruct (rsa_VerifyPKCS1v15 C pub hash (Sum C hash quoted) (rsa_Signature rsa)) eqn:Hv.
    + right; left. eexists. split; [reflexivity | right; exists rsa; eauto].
    + left. repeat split; auto. exists rsa. auto.
  - apply Z.eqb_neq in Halg. right; left. eexists. split; [reflexivity | left; exact Halg].
Qed.

(** The check of the signature returns the hash of a signature that
    matches the key, returns an error, or dereferences the nil part of the
    signature. *)
Lemma verify_signature_cases q trustedPub sig :
  (exists hash, verify_signature q trustedPub sig = Ret hash /\
     signature_matches_key trustedPub sig hash (GetQuote q)) \/
  (exists err, verify_signature q trustedPub sig = Fail err /\
     forall hash, ~ signature_matches_key trustedPub sig hash (GetQuote q)) \/
  (verify_signature q trustedPub sig = Panic /\ part_for_key trustedPub sig = false).
Proof.
  unfold verify_signature, signature_matches_key, part_for_key.
  destruct trustedPub as [pub|pub|ty].
  - destruct (ECC sig) as [ecc|] eqn:Hecc; [ | right; right; auto].
    destruct (Algorithm_Hash C (ecc_HashAlg ecc)) as [hash|e] eqn:Hh.
    + destruct (verifyECDSAQuoteSignature_cases pub hash (GetQuote q) sig)
        as [(Hr & Halg & ecc' & He & Hv) | [(err & Hr & Hwhy) | (Hr & He)]]; rewrite Hr; simpl.
      * left. exists hash. split; auto. split; auto. exists ecc.
        rewrite ?Hecc in He. inversion He; subst. auto.
      * right; left. exists err. split; auto.
        intros hash' (Halg & ecc' & He & Hh' & Hv). rewrite ?Hecc in He. inversion He; subst.
        rewrite ?Hh in Hh'. inversion Hh'; subst.
        destruct Hwhy as [Hn | (ecc'' & He' & Hv')]; [contradiction | ].
        rewrite ?Hecc in He'. inversion He'; subst. congruence.
      * congruence.
    + right; left. exists e. split; auto.
      intros hash' (Halg & ecc' & He & Hh' & Hv). rewrite ?Hecc in He. inversion He; subst.
      congruence.
  - destruct (RSA sig) as [rsa|] eqn:Hrsa; [ | right; right; auto].
    destruct (Algorithm_Hash C (rsa_HashAlg rsa)) as [hash|e] eqn:Hh.
    + destruct (verifyRSASSAQuoteSignature_cases pub hash (GetQuote q) sig)
        as [(Hr & Halg & rsa' & He & Hv) | [(err & Hr & Hwhy) | (Hr & He)]]; rewrite Hr; simpl.
      * left. exists hash. split; auto. split; auto. exists rsa.
        rewrite ?Hrsa in He. inversion He; subst. auto.
      * right; left. exists err. split; auto.
        intros hash' (Halg & rsa' & He & Hh' & Hv). rewrite ?Hrsa in He. inversion He; subst.
        rewrite ?Hh in Hh'. inversion Hh'; subst.
        destruct Hwhy as [Hn | (rsa'' & e' & He' & Hv')]; [contradiction | ].
        rewrite ?Hrsa in He'. inversion He'; subst. congruence.
      * congruence.
    + right; left. exists e. split; auto.
      intros hash' (Halg & rsa' & He & Hh' & Hv). rewrite ?Hrsa in He. inversion He; subst.
      congruence.
  - right; left. eexists. split; [reflexivity | intros hash H; exact H].
Qed.

(** What is checked once the signature is verified. *)
Lemma after_signature_cases q extraData hash :
  let rest :=
    match DecodeAttestationData C (GetQuote q) with
    | Err err => Fail (Errorf_v "decoding attestation data failed: %v" err)
    | Ok attestationData =>
        if negb (Type_ attestationData =? TagAttestQuote) then
          Fail (errors_New "expected quote tag")
        else
          match AttestedQuoteInfo attestationData with
          | None => Fail (errors_New "attestation data does not contain quote info")
          | Some attestedQuoteInfo =>
              if ConstantTimeCompare (ExtraData attestationData) extraData =? 0 then
                Fail (errors_New "quote extraData did not match expected extraData")
              else validatePCRDigest attestedQuoteInfo (GetPcrs q) hash
          end
    end in
  (rest = Ret tt /\
   exists ad info,
     DecodeAttestationData C (GetQuote q) = Ok ad /\
     Type_ ad = TagAttestQuote /\
     AttestedQuoteInfo ad = Some info /\
     ExtraData ad = extraData /\
     SamePCRSelection (GetPcrs q) (PCRSelection_ info) = true /\
     PCRDigest (GetPcrs q) hash = PCRDigest_ info) \/
  ((exists err, rest = Fail err) /\
   ~ exists ad info,
     DecodeAttestationData C (GetQuote q) = Ok ad /\
     Type_ ad = TagAttestQuote /\
     AttestedQuoteInfo ad = Some info /\
     ExtraData ad = extraData /\
     SamePCRSelection (GetPcrs q) (PCRSelection_ info) = true /\
     PCRDigest (GetPcrs q) hash = PCRDigest_ info).
Proof.
  cbv zeta.
  destruct (DecodeAttestationData C (GetQuote q)) as [ad|e] eqn:Hda.
  2:{ right. split; [eexists; reflexivity | ]. intros (ad & info & H & _). discriminate. }
  destruct (Type_ ad =? TagAttestQuote) eqn:Htag; simpl.
  2:{ right. split; [eexists; reflexivity | ]. intros (ad' & info & H & Ht & _).
      inversion H; subst. apply Z.eqb_neq in Htag. contradiction. }
  apply Z.eqb_eq in Htag.
  destruct (AttestedQuoteInfo ad) as [info|] eqn:Hinfo.
  2:{ right. split; [eexists; reflexivity | ]. intros (ad' & info & H & _ & Hi & _).
      inversion H; subst. congruence. }
  destruct (ConstantTimeCompare (ExtraData ad) extraData =? 0) eqn:Hextra.
  { right. split; [eexists; reflexivity | ]. intros (ad' & info' & H & _ & _ & He & _).
    apply (proj2 (ConstantTimeCompare_eq _ _)) in He. inversion H; subst. congruence. }
  apply ConstantTimeCompare_eq in Hextra.
  unfold validatePCRDigest.
  destruct (SamePCRSelection (GetPcrs q) (PCRSelection_ info)) eqn:Hsel; simpl.
  2:{ right. split; [eexists; reflexivity | ]. intros (ad' & info' & H & _ & Hi & _ & Hs & _).
      inversion H; subst. rewrite Hinfo in Hi. inversion Hi; subst. congruence. }
  destruct (ConstantTimeCompare (PCRDigest_ info) (PCRDigest (GetPcrs q) hash) =? 0) eqn:Hdig.
  { right. split; [eexists; reflexivity | ].
    intros (ad' & info' & H & _ & Hi & _ & _ & Hd).
    symmetry in Hd. apply (proj2 (ConstantTimeCompare_eq _ _)) in Hd.
    inversion H; subst. rewrite Hinfo in Hi. inversion Hi; subst. congruence. }
  apply ConstantTimeCompare_eq in Hdig.
  left. split; [reflexivity | ]. exists ad, info. repeat split; auto.
Qed.

(** The verifier accepts exactly the valid quotes. *)
Lemma VerifyQuote_accepts q trustedPub extraData :
  VerifyQuote q trustedPub extraData = Ret tt <-> quote_is_valid q trustedPub extraData.
Proof.
  unfold VerifyQuote, quote_is_valid.
  destruct (DecodeSignature C (GetRawSig q)) as [sig|e] eqn:Hd.
  2:{ split; [discriminate | intros (sig & hash & ad & info & H & _); discriminate]. }
  destruct (verify_signature_cases q trustedPub sig)
    as [(hash & Hr & Hk) | [(err & Hr & Hk) | (Hr & Hk)]]; rewrite Hr; simpl.
  - destruct (after_signature_cases q extraData hash) as [(Hrest & ad & info & H) | (Hrest & Hno)].
    + rewrite Hrest. split; [intros _ | reflexivity].
      exists sig, hash, ad, info. tauto.
    + destruct Hrest as (err & Hrest). rewrite Hrest. split; [discriminate | ].
      intros (sig' & hash' & ad & info & Hs & Hk' & H). exfalso.
      inversion Hs; subst sig'.
      assert (hash' = hash).
      { unfold signature_matches_key in *. destruct trustedPub; try contradiction.
        - destruct Hk as (_ & ecc & He & Hh & _), Hk' as (_ & ecc' & He' & Hh' & _). congruence.
        - destruct Hk as (_ & rsa & He & Hh & _), Hk' as (_ & rsa' & He' & Hh' & _). congruence. }
      subst. apply Hno. exists ad, info. exact H.
  - split; [discriminate | ].
    intros (sig' & hash & ad & info & Hs & Hk' & _). inversion Hs; subst.
    exfalso. exact (Hk hash Hk').
  - split; [discriminate | ].
    intros (sig' & hash & ad & info & Hs & Hk' & _). inversion Hs; subst. exfalso.
    unfold signature_matches_key, part_for_key in *. destruct trustedPub; try contradiction.
    + destruct Hk' as (_ & ecc & He & _). rewrite He in Hk. discriminate.
    + destruct Hk' as (_ & rsa & He & _). rewrite He in Hk. discriminate.
Qed.

(** A quote that is not valid is refused with an error, unless the part
    of the decoded signature that goes with the key is nil: then the
    verifier dereferences it and panics. *)
Lemma VerifyQuote_refuses q trustedPub extraData :
  ~ quote_is_valid q trustedPub extraData ->
  (exists err, VerifyQuote q trustedPub extraData = Fail err) \/
  (VerifyQuote q trustedPub extraData = Panic /\
   exists sig, DecodeSignature C (GetRawSig q) = Ok sig /\ part_for_key trustedPub sig = false).
Proof.
  intros Hinvalid.
  pose proof (VerifyQuote_accepts q trustedPub extraData) as Hacc.
  unfold VerifyQuote in *.
  destruct (DecodeSignature C (GetRawSig q)) as [sig|e] eqn:Hd.
  2:{ left. eexists; reflexivity. }
  destruct (verify_signature_cases q trustedPub sig)
    as [(hash & Hr & Hk) | [(err & Hr & Hk) | (Hr & Hk)]]; rewrite Hr in *; simpl in *.
  - destruct (after_signature_cases q extraData hash) as [(Hrest & _) | ((err & Hrest) & _)].
    + exfalso. apply Hinvalid. apply Hacc. exact Hrest.
    + left. exists err. exact Hrest.
  - left. exists err. reflexivity.
  - right. split; [reflexivity | ]. exists sig. auto.
Qed.

End Verifier.

(** ** A signature of the other kind *)

(** The decoder of [go-tpm] for the wire format [TPMT_SIGNATURE]
    (a 16-bit signature algorithm, a 16-bit hash algorithm, then the
    signature as one length-prefixed field for RSASSA and two for ECDSA);
    the other functions stand for a library in which nothing verifies. *)
Module Wire.

Definition byte (c : ascii) : Z := Z.of_nat (nat_of_ascii c).

Definition u16 (a b : ascii) : Z := 256 * byte a + byte b.

Fixpoint be_int (acc : Z) (s : string) : Z :=
  match s with
  | EmptyString => acc
  | String c rest => be_int (256 * acc + byte c) rest
  end.

(** A field with its 16-bit length in front, and what follows it. *)
Definition u16_bytes (s : string) : option (string * string) :=
  match s with
  | String a (String b rest) =>
      let n := Z.to_nat (u16 a b) in
      if (n <=? String.length rest)%nat
      then Some (substring 0 n rest, substring n (String.length rest - n) rest)
      else None
  | _ => None
  end.

Definition DecodeSignature (s : string) : result Signature :=
  match s with
  | String a (String b (String c (String d rest))) =>
      let alg := u16 a b in
      if alg =? AlgRSASSA then
        match u16_bytes rest with
        | Some (sig, _) =>
            Ok {| Alg := alg;
                  RSA := Some {| rsa_HashAlg := u16 c d; rsa_Signature := sig |};
                  ECC := None |}
        | None => Err (foreign "decoding RSA")
        end
      else if alg =? AlgECDSA then
        match u16_bytes rest with
        | Some (r, rest') =>
            match u16_bytes rest' with
            | Some (s', _) =>
                Ok {| Alg := alg;
                      RSA := None;
                      ECC := Some {| ecc_HashAlg := u16 c d;
                                     ecc_R := be_int 0 r; ecc_S := be_int 0 s' |} |}
            | None => Err (foreign "decoding ECC")
            end
        | None => Err (foreign "decoding ECC")
        end
      else Err (foreign "unsupported signature algorithm")
  | _ => Err (foreign "decoding Alg")
  end.

Definition crypto : Crypto := {|
  Quote.DecodeSignature := DecodeSignature;
  Algorithm_Hash := fun a =>
    if a =? AlgSHA1 then Ok SHA1
    else if a =? AlgSHA256 then Ok SHA256
    else Err (foreign "hash algorithm not supported");
  Sum := fun _ message => message;
  ecdsa_Verify := fun _ _ _ _ => false;
  rsa_VerifyPKCS1v15 := fun _ _ _ _ => Some (foreign "crypto/rsa: verification error");
  DecodeAttestationData := fun _ => Err (foreign "decoding Magic/Type")
|}.

Fixpoint bytes (l : list nat) : string :=
  match l with
  | [] => EmptyString
  | n :: rest => String (ascii_of_nat n) (bytes rest)
  end.

(** A quote signed with RSASSA and SHA-256: the signature field holds the
    bytes 00 14 00 0B 00 02 AB CD. *)
Definition rsassa_quote : pbQuote := {|
  Quote_ := "quoted";
  RawSig := bytes [0; 20; 0; 11; 0; 2; 171; 205]%nat;
  Pcrs := None
|}.

End Wire.

(** C4 at a signature of the other kind. The signature of the quote
    decodes as an RSASSA signature, so that its [ECC] part is nil; the
    trusted key is an ECDSA key. The quote is not valid, but [VerifyQuote]
    does not return an error: it dereferences [sig.ECC] for the hash
    algorithm before [verifyECDSAQuoteSignature] would compare [sig.Alg]
    with [AlgECDSA], and panics. *)
Theorem VerifyQuote_panics_on_signature_of_other_kind :
  Wire.DecodeSignature (RawSig Wire.rsassa_quote) =
    Ok {| Alg := AlgRSASSA;
          RSA := Some {| rsa_HashAlg := AlgSHA256; rsa_Signature := Wire.bytes [171; 205]%nat |};
          ECC := None |} /\
  (quote_is_valid Wire.crypto (Some Wire.rsassa_quote) (ecdsa_PublicKey "AK") "nonce" -> False) /\
  VerifyQuote Wire.crypto (Some Wire.rsassa_quote) (ecdsa_PublicKey "AK") "nonce" = Panic.
Proof.
  split; [reflexivity | ]. split; [ | reflexivity ].
  intros H. apply VerifyQuote_accepts in H. discriminate.
Qed.

(** ** How the verifier ends *)

(** The signature scheme the verifier accepts for a key. *)
Definition key_scheme (trustedPub : PublicKey) : option Algorithm :=
  match trustedPub with
  | ecdsa_PublicKey _ => Some AlgECDSA
  | rsa_PublicKey _ => Some AlgRSASSA
  | other_PublicKey _ => None
  end.

Lemma missing_part_panics C q trustedPub sig :
  part_for_key trustedPub sig = false -> verify_signature C q trustedPub sig = Panic.
Proof.
  unfold part_for_key, verify_signature. destruct trustedPub.
  - destruct (ECC sig); [discriminate | reflexivity].
  - destruct (RSA sig); [discriminate | reflexivity].
  - discriminate.
Qed.

(** [VerifyQuote] ends in one of three ways. It returns nil exactly for a
    valid quote. It panics exactly when the signature decodes and the
    part of it that goes with the type of the key ([ECC] for an ECDSA
    key, [RSA] for an RSA key) is nil, whatever else the quote holds. In
    every other case it returns an error. *)
Theorem VerifyQuote_outcomes C q trustedPub extraData :
  (VerifyQuote C q trustedPub extraData = Ret tt <-> quote_is_valid C q trustedPub extraData) /\
  (VerifyQuote C q trustedPub extraData = Panic <->
   exists sig, DecodeSignature C (GetRawSig q) = Ok sig /\
               part_for_key trustedPub sig = false) /\
  (VerifyQuote C q trustedPub extraData = Ret tt \/
   VerifyQuote C q trustedPub extraData = Panic \/
   exists err, VerifyQuote C q trustedPub extraData = Fail err).
Proof.
  pose proof (VerifyQuote_accepts C q trustedPub extraData) as Hacc.
  split; [exact Hacc | ].
  assert (Hpanic : forall sig, DecodeSignature C (GetRawSig q) = Ok sig ->
                     part_for_key trustedPub sig = false ->
                     VerifyQuote C q trustedPub extraData = Panic).
  { intros sig Hd Hp. unfold VerifyQuote. rewrite Hd.
    rewrite (missing_part_panics C q trustedPub sig Hp). reflexivity. }
  destruct (VerifyQuote C q trustedPub extraData) as [[]|e| | |] eqn:Hv.
  - split; [ | left; reflexivity].
    split; [discriminate | ]. intros (sig & Hd & Hp). exact (Hpanic sig Hd Hp).
  - split; [ | right; right; exists e; reflexivity].
    split; [discriminate | ]. intros (sig & Hd & Hp). exact (Hpanic sig Hd Hp).
  - split; [ | right; left; reflexivity].
    split; [intros _ | reflexivity].
    assert (Hn : ~ quote_is_valid C q trustedPub extraData)
      by (intros H; apply Hacc in H; discriminate).
    destruct (VerifyQuote_refuses C q trustedPub extraData Hn)
      as [(err & He) | (_ & Hs)]; [congruence | exact Hs].
  - exfalso.
    assert (Hn : ~ quote_is_valid C q trustedPub extraData)
      by (intros H; apply Hacc in H; discriminate).
    destruct (VerifyQuote_refuses C q trustedPub extraData Hn)
      as [(err & He) | (He & _)]; congruence.
  - exfalso.
    assert (Hn : ~ quote_is_valid C q trustedPub extraData)
      by (intros H; apply Hacc in H; discriminate).
    destruct (VerifyQuote_refuses C q trustedPub extraData Hn)
      as [(err & He) | (He & _)]; congruence.
Qed.

(** A signature of a scheme other than the one of the key is never
    accepted, also when it would verify: for an ECDSA key every scheme
    but ECDSA, for an RSA key every scheme but RSASSA, for a key of
    another type every signature. When the part of the signature that
    goes with the type of the key is nil, as it is when the decoder has
    set the part of the other kind, [VerifyQuote] panics. When it is set,
    [VerifyQuote] returns an error: that of the unsupported hash
    algorithm when there is one (the hash is looked up before the scheme
    is compared), and else that of the unsupported scheme; for a key of
    another type, that of the unsupported key. *)
Theorem signature_of_another_scheme_is_never_accepted C q trustedPub extraData sig :
  DecodeSignature C (GetRawSig q) = Ok sig ->
  key_scheme trustedPub <> Some (Alg sig) ->
  VerifyQuote C q trustedPub extraData <> Ret tt /\
  (part_for_key trustedPub sig = false -> VerifyQuote C q trustedPub extraData = Panic) /\
  (part_for_key trustedPub sig = true ->
   exists e,
     VerifyQuote C q trustedPub extraData = Fail e /\
     match trustedPub with
     | ecdsa_PublicKey _ =>
         (exists ecc, ECC sig = Some ecc /\ Algorithm_Hash C (ecc_HashAlg ecc) = Err e) \/
         ((exists ecc hash, ECC sig = Some ecc /\ Algorithm_Hash C (ecc_HashAlg ecc) = Ok hash) /\
          e = errors_New "signature scheme is not supported, only ECDSA is supported")
     | rsa_PublicKey _ =>
         (exists rsa, RSA sig = Some rsa /\ Algorithm_Hash C (rsa_HashAlg rsa) = Err e) \/
         ((exists rsa hash, RSA sig = Some rsa /\ Algorithm_Hash C (rsa_HashAlg rsa) = Ok hash) /\
          e = errors_New
                "signature scheme is not supported, only RSASSA (PKCS#1 v1.5) is supported")
     | other_PublicKey type =>
         e = Errorf_s
               "only RSA and ECC public keys are currently supported, received type: %T" type
     end).
Proof.
  intros Hd Hs.
  assert (Hpanic : part_for_key trustedPub sig = false ->
                   VerifyQuote C q trustedPub extraData = Panic).
  { intros Hp. unfold VerifyQuote. rewrite Hd.
    rewrite (missing_part_panics C q trustedPub sig Hp). reflexivity. }
  assert (Hfail : part_for_key trustedPub sig = true ->
   exists e,
     VerifyQuote C q trustedPub extraData = Fail e /\
     match trustedPub with
     | ecdsa_PublicKey _ =>
         (exists ecc, ECC sig = Some ecc /\ Algorithm_Hash C (ecc_HashAlg ecc) = Err e) \/
         ((exists ecc hash, ECC sig = Some ecc /\ Algorithm_Hash C (ecc_HashAlg ecc) = Ok hash) /\
          e = errors_New "signature scheme is not supported, only ECDSA is supported")
     | rsa_PublicKey _ =>
         (exists rsa, RSA sig = Some rsa /\ Algorithm_Hash C (rsa_HashAlg rsa) = Err e) \/
         ((exists rsa hash, RSA sig = Some rsa /\ Algorithm_Hash C (rsa_HashAlg rsa) = Ok hash) /\
          e = errors_New
                "signature scheme is not supported, only RSASSA (PKCS#1 v1.5) is supported")
     | other_PublicKey type =>
         e = Errorf_s
               "only RSA and ECC public keys are currently supported, received type: %T" type
     end).
  { intros Hp. unfold VerifyQuote. rewrite Hd.
    unfold verify_signature, part_for_key, key_scheme in *.
    destruct trustedPub as [pub|pub|type].
    - destruct (ECC sig) as [ecc|] eqn:Hecc; [ | discriminate].
      destruct (Algorithm_Hash C (ecc_HashAlg ecc)) as [hash|err] eqn:Hh.
      + unfold verifyECDSAQuoteSignature.
        destruct (Alg sig =? AlgECDSA) eqn:Ha.
        { apply Z.eqb_eq in Ha. exfalso. apply Hs. rewrite Ha. reflexivity. }
        simpl. eexists. split; [reflexivity | ]. right. split; [ | reflexivity].
        exists ecc, hash. auto.
      + simpl. eexists. split; [reflexivity | ]. left. exists ecc. auto.
    - destruct (RSA sig) as [rsa|] eqn:Hrsa; [ | discriminate].
      destruct (Algorithm_Hash C (rsa_HashAlg rsa)) as [hash|err] eqn:Hh.
      + unfold verifyRSASSAQuoteSignature.
        destruct (Alg sig =? AlgRSASSA) eqn:Ha.
        { apply Z.eqb_eq in Ha. exfalso. apply Hs. rewrite Ha. reflexivity. }
        simpl. eexists. split; [reflexivity | ]. right. split; [ | reflexivity].
        exists rsa, hash. auto.
      + simpl. eexists. split; [reflexivity | ]. left. exists rsa. auto.
    - simpl. eexists. split; reflexivity. }
  split; [ | split; assumption].
  destruct (part_for_key trustedPub sig) eqn:Hp.
  - destruct (Hfail eq_refl) as (e & He & _). rewrite He. discriminate.
  - rewrite (Hpanic eq_refl). discriminate.
Qed.

(** A quote is accepted for one value of [extraData] only: a quote that
    [VerifyQuote] accepts with the nonce of one challenge is refused with
    any other nonce. *)
Theorem accepted_quote_has_one_extraData C q trustedPub extraData extraData' :
  VerifyQuote C q trustedPub extraData = Ret tt ->
  VerifyQuote C q trustedPub extraData' = Ret tt ->
  extraData = extraData'.
Proof.
  intros H H'.
  apply VerifyQuote_accepts in H. apply VerifyQuote_accepts in H'.
  destruct H as (_ & _ & ad & _ & _ & _ & Hda & _ & _ & He & _).
  destruct H' as (_ & _ & ad' & _ & _ & _ & Hda' & _ & _ & He' & _).
  rewrite Hda in Hda'. inversion Hda'; subst. reflexivity.
Qed.

(** A library in which every signature verifies, with a decoder that
    returns the given signature and attestation data for the nonce
    ["nonce"] over no PCR. *)
Module Accepting.

Definition rsassa_signature : Signature := {|
  Alg := AlgRSASSA;
  RSA := Some {| rsa_HashAlg := AlgSHA256; rsa_Signature := "signature" |};
  ECC := None
|}.

Definition crypto (sig : Signature) : Crypto := {|
  DecodeSignature := fun _ => Ok sig;
  Algorithm_Hash := fun a =>
    if a =? AlgSHA256 then Ok SHA256 else Err (foreign "hash algorithm not supported");
  Sum := fun _ message => message;
  ecdsa_Verify := fun _ _ _ _ => true;
  rsa_VerifyPKCS1v15 := fun _ _ _ _ => None;
  DecodeAttestationData := fun _ =>
    Ok {| Type_ := TagAttestQuote;
          ExtraData := "nonce";
          AttestedQuoteInfo :=
            Some {| PCRSelection_ := {| sel_Hash := 0; sel_PCRs := [] |};
                    PCRDigest_ := "" |} |}
|}.

Definition quote : pbQuote := {| Quote_ := "quoted"; RawSig := "raw"; Pcrs := None |}.

End Accepting.

(** The RSASSA signature of [Wire.rsassa_quote], decoded by the decoder
    of the wire format, with an ECDSA key. *)
Lemma signature_of_another_scheme_is_never_accepted_witness :
  VerifyQuote Wire.crypto (Some Wire.rsassa_quote) (ecdsa_PublicKey "AK") "nonce" <> Ret tt /\
  VerifyQuote Wire.crypto (Some Wire.rsassa_quote) (ecdsa_PublicKey "AK") "nonce" = Panic.
Proof.
  destruct (signature_of_another_scheme_is_never_accepted Wire.crypto (Some Wire.rsassa_quote)
              (ecdsa_PublicKey "AK") "nonce"
              {| Alg := AlgRSASSA;
                 RSA := Some {| rsa_HashAlg := AlgSHA256;
                                rsa_Signature := Wire.bytes [171; 205]%nat |};
                 ECC := None |})
    as (Hnot & Hpanic & _).
  - reflexivity.
  - discriminate.
  - split; [exact Hnot | exact (Hpanic eq_refl)].
Defined.

Lemma accepted_quote_has_one_extraData_witness : "nonce" = "nonce".
Proof.
  apply (accepted_quote_has_one_extraData (Accepting.crypto Accepting.rsassa_signature)
           (Some Accepting.quote) (rsa_PublicKey "AK") "nonce" "nonce"); reflexivity.
Defined.

End Quote.
